(** * Cleaning-robot simulation (aleeestefii/SMA): a shallow embedding

    The repository holds two Mesa models of robots that clean a grid:
    - [main.py]: the goal / time-budget variant, with statistics;
    - [cleaning_robot.py]: the minimal round-budget variant.

    Conventions of the embedding:
    - Python [int] is [Z]; a finite Python [float] is the rational number
      [Q] it denotes, and a decimal literal of the source such as [0.2] is
      the double nearest to it, [double (double (1 # 5))];
    - the product [int(width * height * dirtPercentage)], which fixes the
      number of dirty tiles, is computed as Python computes it: the [int]
      is converted to a double, the product is rounded to the nearest
      double (ties to even) and truncated; beyond the range of the doubles
      the conversion raises [OverflowError].  Clock differences and the
      completion percentage, which are only compared and printed, are
      exact;
    - a Python method that mutates [self] and may raise is a function
      [S -> S * Outcome A]: the state after the call (mutations made before
      an exception persist) and either the returned value or the exception;
    - the wall clock and the pseudo-random generators are inputs: a clock
      reading is an argument of the call that polls it, a generator is the
      [list nat] of the draws it still has to deliver;
    - [print] calls do not touch the simulation state; what [step] prints
      (the final statistics) is its returned value. *)

From Stdlib Require Import ZArith QArith Qround Qabs Qpower Lia Lqa Bool.
From stdpp Require Import base tactics option list.

Local Open Scope Z_scope.

(** ** Exceptions and the state-and-exception monad *)

Inductive Exn : Type :=
| GridIndexError (x y : Z)   (* a grid access outside [0,width) x [0,height) *)
| ChoiceFromEmpty            (* IndexError of random.choice([]) *)
| SampleValueError           (* ValueError of random.sample: k < 0 or k > len *)
| ZeroDivisionError
| OverflowError              (* int too large for a float, or int() of an infinity *)
| NotOnGrid                  (* an agent whose pos is None, or absent from its cell *)
| UnknownAgent (i : nat).

Inductive Outcome (A : Type) : Type :=
| Ret (a : A)
| Raise (e : Exn).
Arguments Ret {A} a.
Arguments Raise {A} e.

Definition M (S A : Type) : Type := S -> S * Outcome A.

Definition ret {S A} (a : A) : M S A := fun s => (s, Ret a).
Definition raise {S A} (e : Exn) : M S A := fun s => (s, Raise e).
Definition bind {S A B} (m : M S A) (k : A -> M S B) : M S B :=
  fun s => match m s with
           | (s', Ret a) => k a s'
           | (s', Raise e) => (s', Raise e)
           end.
Definition get {S} : M S S := fun s => (s, Ret s).
Definition modify {S} (f : S -> S) : M S unit := fun s => (f s, Ret tt).
Definition lift {S A} (o : Outcome A) : M S A := fun s => (s, o).

Declare Scope py_scope.
Delimit Scope py_scope with py.
Notation "x <- m ;; k" := (bind m (fun x => k))
  (at level 100, m at next level, right associativity) : py_scope.
Notation "m ;;; k" := (bind m (fun _ => k))
  (at level 100, right associativity) : py_scope.

(** [for a in l: body a], stopping at the first exception. *)
Fixpoint for_each {S A} (l : list A) (body : A -> M S unit) : M S unit :=
  match l with
  | [] => ret tt
  | a :: l' => bind (body a) (fun _ => for_each l' body)
  end.

(** [range(n)] *)
Definition range (n : Z) : list Z := map Z.of_nat (seq 0 (Z.to_nat n)).

(** [int(q)] on a float: truncation towards zero. *)
Definition py_int (q : Q) : Z := Z.quot (Qnum q) (Zpos (Qden q)).

(** ** Floating point

    Python's [float] is the IEEE 754 double: 53 bits of mantissa, the last
    of them worth at least [2 ^ -1074], magnitudes below [2 ^ 1024].  An
    arithmetic operation returns the double nearest to the exact result,
    the one with the even mantissa when two are equally near. *)

Definition pow2 (e : Z) : Q := Qpower 2 e.

(** The integer nearest to [q], the even one of two equally near. *)
Definition round_half_even (q : Q) : Z :=
  let f := Qfloor q in
  match Qcompare (q - inject_Z f) (1 # 2) with
  | Lt => f
  | Gt => f + 1
  | Eq => if Z.even f then f else f + 1
  end.

(** [floor (log2 x)] for a positive [x]. *)
Definition Qlog2 (x : Q) : Z :=
  let d := Z.log2 (Qnum x) - Z.log2 (Zpos (Qden x)) in
  if Qle_bool (pow2 d) x then d else d - 1.

(** The exponent of the last mantissa bit of the doubles around [x]. *)
Definition ulp_exponent (x : Q) : Z := Z.max (-1074) (Qlog2 (Qabs x) - 52).

(** The multiple of [2 ^ e] nearest to [x]. *)
Definition round_to (e : Z) (x : Q) : Q :=
  (inject_Z (round_half_even (x / pow2 e)) * pow2 e)%Q.

(** The double nearest to [x], were the exponent range unbounded above. *)
Definition double (x : Q) : Q := Qred (round_to (ulp_exponent x) x).

(** A rounded result of magnitude [2 ^ 1024] or more is no finite double. *)
Definition float_overflows (x : Q) : bool := Qle_bool (pow2 1024) (Qabs x).

(** The conversion of an [int] operand to [float], which raises
    [OverflowError] ("int too large to convert to float"). *)
Definition float_of_int (n : Z) : Outcome Q :=
  let x := double (inject_Z n) in
  if float_overflows x then Raise OverflowError else Ret x.

(** [x * y] on floats; [None] is an infinity. *)
Definition float_mul (x y : Q) : option Q :=
  let z := double (x * y) in
  if float_overflows z then None else Some z.

(** [int(x)] on a float, which raises [OverflowError] on an infinity. *)
Definition int_of_float (x : option Q) : Outcome Z :=
  match x with
  | Some q => Ret (py_int q)
  | None => Raise OverflowError
  end.

(** [int(n * p)] for an [int] [n] and a [float] [p]. *)
Definition int_times_float (n : Z) (p : Q) : Outcome Z :=
  match float_of_int n with
  | Ret x => int_of_float (float_mul x p)
  | Raise e => Raise e
  end.

(** ** Pseudo-random generators

    A generator is the list of the natural numbers it will draw; an
    exhausted generator draws 0.  [random.choice], [random.shuffle] and
    [random.sample] are driven by these draws: every result the Python
    functions can return is obtained from some draws, and conversely. *)

Definition Rng : Type := list nat.

Definition next_draw (r : Rng) : nat * Rng :=
  match r with
  | [] => (0%nat, [])
  | d :: r' => (d, r')
  end.

(** Modelled from the spec: Python's [random] module is a library outside
    the repository; [random.choice(l)] selects one element (section 4.3:
    "select one candidate uniformly at random") and raises on the empty
    list. *)
Definition choice {A} (l : list A) (r : Rng) : Outcome A * Rng :=
  let (d, r') := next_draw r in
  match l !! (d mod length l)%nat with
  | Some a => (Ret a, r')
  | None => (Raise ChoiceFromEmpty, r)
  end.

(** Modelled from the spec: [n] elements drawn from [pool] without
    replacement, in drawing order (section 4.5: "distinct coordinates
    uniformly at random without replacement"). *)
Fixpoint pick {A} (n : nat) (pool : list A) (r : Rng) : list A * Rng :=
  match n with
  | O => ([], r)
  | S n' =>
      let (d, r') := next_draw r in
      let i := (d mod length pool)%nat in
      match pool !! i with
      | Some a => let (rest, r'') := pick n' (delete i pool) r' in (a :: rest, r'')
      | None => ([], r)
      end
  end.

(** Modelled from the spec: [random.sample(population, k)], which raises
    [ValueError] when [k] is negative or exceeds the population. *)
Definition sample {A} (population : list A) (k : Z) (r : Rng) : Outcome (list A) * Rng :=
  if (k <? 0) || (Z.of_nat (length population) <? k) then (Raise SampleValueError, r)
  else let (l, r') := pick (Z.to_nat k) population r in (Ret l, r').

(** Modelled from the spec: [random.shuffle(l)], returning the shuffled
    list (section 4.4: "a fresh uniformly random permutation"). *)
Definition shuffle {A} (l : list A) (r : Rng) : list A * Rng := pick (length l) l r.

(** ** The grid (Mesa's [MultiGrid], non-toroidal) *)

Definition Pos : Type := Z * Z.

(** What a cell holds: the tile object itself (only the grid refers to it),
    and robots by reference (the scheduler owns the robot objects). *)
Inductive Entity : Type :=
| GridTile (unique_id : Pos) (status : Z)   (* status 0: clean, 1: dirty *)
| RobotRef (unique_id : nat).

Global Instance Entity_eq_dec : EqDecision Entity.
Proof. solve_decision. Defined.

Module Grid.

(** Modelled from the spec: Mesa's [MultiGrid] is a library class outside
    the repository.  Section 4.1 of the specification gives its contract:
    [cells.(x).(y)] is the sequence of entities at [(x, y)]; placing or
    reading outside the bounds fails; the neighbourhood is clipped to the
    bounds and excludes the centre. *)
Record t : Type := mk { width : Z; height : Z; cells : list (list (list Entity)) }.

(** Modelled from the spec: [MultiGrid(width, height, False)], every cell
    empty. *)
Definition MultiGrid (w h : Z) : t :=
  mk w h (replicate (Z.to_nat w) (replicate (Z.to_nat h) [])).

Definition out_of_bounds (g : t) (p : Pos) : bool :=
  (p.1 <? 0) || (width g <=? p.1) || (p.2 <? 0) || (height g <=? p.2).

Definition cell (g : t) (p : Pos) : option (list Entity) :=
  if out_of_bounds g p then None
  else col ← cells g !! Z.to_nat p.1; col !! Z.to_nat p.2.

Definition set_cell (g : t) (p : Pos) (c : list Entity) : t :=
  mk (width g) (height g)
     (alter (fun col => <[Z.to_nat p.2 := c]> col) (Z.to_nat p.1) (cells g)).

(** Modelled from the spec: [grid.get_cell_list_contents([pos])]. *)
Definition get_cell_list_contents (g : t) (p : Pos) : Outcome (list Entity) :=
  match cell g p with
  | Some c => Ret c
  | None => Raise (GridIndexError p.1 p.2)
  end.

(** Modelled from the spec: the grid side of [grid.place_agent(agent, pos)],
    which appends to the cell and fails out of bounds. *)
Definition place (g : t) (e : Entity) (p : Pos) : Outcome t :=
  match cell g p with
  | Some c => Ret (set_cell g p (c ++ [e]))
  | None => Raise (GridIndexError p.1 p.2)
  end.

(** Python's [list.remove]: the first occurrence. *)
Fixpoint remove_first (e : Entity) (c : list Entity) : option (list Entity) :=
  match c with
  | [] => None
  | e' :: c' => if decide (e = e') then Some c'
                else c'' ← remove_first e c'; Some (e' :: c'')
  end.

(** Modelled from the spec: the grid side of [grid.remove_agent(agent)]. *)
Definition remove (g : t) (e : Entity) (p : Pos) : Outcome t :=
  match cell g p with
  | Some c => match remove_first e c with
              | Some c' => Ret (set_cell g p c')
              | None => Raise NotOnGrid
              end
  | None => Raise (GridIndexError p.1 p.2)
  end.

(** Modelled from the spec: the grid side of [grid.move_agent(agent, pos)];
    the target is checked first, then the agent leaves its cell and is
    placed at the target. *)
Definition move (g : t) (e : Entity) (from to : Pos) : Outcome t :=
  if out_of_bounds g to then Raise (GridIndexError to.1 to.2)
  else match remove g e from with
       | Ret g' => place g' e to
       | Raise x => Raise x
       end.

Definition offsets : list Z := [-1; 0; 1].

(** Modelled from the spec:
    [grid.get_neighborhood(pos, moore=True, include_center=False)], the up to
    8 adjacent coordinates inside the bounds. *)
Definition get_neighborhood (g : t) (p : Pos) : list Pos :=
  List.filter (fun q => negb (out_of_bounds g q))
    (flat_map (fun dy =>
       flat_map (fun dx =>
         if (dx =? 0) && (dy =? 0) then [] else [(p.1 + dx, p.2 + dy)])
         offsets) offsets).

(** The cells are a [width] x [height] array. *)
Definition wf (g : t) : Prop :=
  length (cells g) = Z.to_nat (width g) /\
  Forall (fun col => length col = Z.to_nat (height g)) (cells g).

End Grid.

(** ** Code the two variants share *)

(** The loop [for obj in contents: if isinstance(obj, GridTile) and
    obj.status == 1: obj.status = 0; ...; return] of both [step] methods:
    the contents with the first dirty tile marked clean, or [None] when no
    tile there is dirty. *)
Fixpoint clean_first (c : list Entity) : option (list Entity) :=
  match c with
  | [] => None
  | GridTile id st :: c' =>
      if st =? 1 then Some (GridTile id 0 :: c')
      else c'' ← clean_first c'; Some (GridTile id st :: c'')
  | RobotRef j :: c' => c'' ← clean_first c'; Some (RobotRef j :: c'')
  end.

(** [[(x, y) for x in range(w) for y in range(h)]] *)
Definition coordinates (w h : Z) : list Pos :=
  flat_map (fun x => map (fun y => (x, y)) (range h)) (range w).

(** [1 if (x, y) in dirty_positions else 0] *)
Definition tile_status (dirtyPositions : list Pos) (p : Pos) : Z :=
  if bool_decide (p ∈ dirtyPositions) then 1 else 0.

(** ** Vocabulary of the properties *)

Definition is_dirty (e : Entity) : bool :=
  match e with
  | GridTile _ st => st =? 1
  | RobotRef _ => false
  end.

(** Number of dirty tiles among the entities of a cell. *)
Definition dirty_in (c : list Entity) : nat := length (List.filter is_dirty c).

Definition tile_of (e : Entity) : option Pos :=
  match e with
  | GridTile id _ => Some id
  | RobotRef _ => None
  end.

(** The tile objects of a cell, by identifier. *)
Definition tile_ids (c : list Entity) : list Pos := omap tile_of c.

Definition contents (g : Grid.t) (p : Pos) : list Entity := default [] (Grid.cell g p).

(** Number of dirty tiles on the grid. *)
Definition dirty_count (g : Grid.t) : nat :=
  sum_list_with (fun p => dirty_in (contents g p))
                (coordinates (Grid.width g) (Grid.height g)).

(** The coordinates that hold a dirty tile. *)
Definition dirty_cells (g : Grid.t) : list Pos :=
  List.filter (fun p => existsb is_dirty (contents g p))
              (coordinates (Grid.width g) (Grid.height g)).

(** Every coordinate of the grid holds exactly one tile, the one created
    for that coordinate. *)
Definition one_tile_per_cell (g : Grid.t) : Prop :=
  ∀ p, Grid.out_of_bounds g p = false → tile_ids (contents g p) = [p].

(** What the grid keeps of its tiles while robots come and go: the shape
    of the array, one tile per coordinate, and [n] dirty tiles. *)
Definition tiles_inv (g : Grid.t) (n : nat) : Prop :=
  Grid.wf g ∧ one_tile_per_cell g ∧ dirty_count g = n.

(** ** [main.py]: the goal / time-budget variant *)

Module Main.

Record CleaningRobot : Type := mkRobot {
  unique_id : nat;          (* the i of f"robot_{i}" *)
  pos : option Pos;         (* None until placed on the grid *)
  cellsCleaned : Z;
  totalMovements : Z }.

(** [schedule] is the scheduler's agent dictionary: robot [i] is its
    [i]-th entry.  [random] is the model's own generator [self.random]. *)
Record CleaningSimulation : Type := mkSim {
  running : bool;
  robotCount : Z;
  gridWidth : Z;
  gridHeight : Z;
  maxTime : Q;
  startTime : Q;
  dirtPercentage : Q;
  grid : Grid.t;
  schedule : list CleaningRobot;
  random : Rng;
  cleanCells : Z;
  initialDirtyCells : Z;
  stepsExecuted : Z }.

Definition set_running (b : bool) (s : CleaningSimulation) : CleaningSimulation :=
  mkSim b (robotCount s) (gridWidth s) (gridHeight s) (maxTime s) (startTime s)
    (dirtPercentage s) (grid s) (schedule s) (random s) (cleanCells s)
    (initialDirtyCells s) (stepsExecuted s).
Definition set_grid (g : Grid.t) (s : CleaningSimulation) : CleaningSimulation :=
  mkSim (running s) (robotCount s) (gridWidth s) (gridHeight s) (maxTime s) (startTime s)
    (dirtPercentage s) g (schedule s) (random s) (cleanCells s)
    (initialDirtyCells s) (stepsExecuted s).
Definition set_schedule (l : list CleaningRobot) (s : CleaningSimulation) : CleaningSimulation :=
  mkSim (running s) (robotCount s) (gridWidth s) (gridHeight s) (maxTime s) (startTime s)
    (dirtPercentage s) (grid s) l (random s) (cleanCells s)
    (initialDirtyCells s) (stepsExecuted s).
Definition set_random (r : Rng) (s : CleaningSimulation) : CleaningSimulation :=
  mkSim (running s) (robotCount s) (gridWidth s) (gridHeight s) (maxTime s) (startTime s)
    (dirtPercentage s) (grid s) (schedule s) r (cleanCells s)
    (initialDirtyCells s) (stepsExecuted s).
Definition set_cleanCells (n : Z) (s : CleaningSimulation) : CleaningSimulation :=
  mkSim (running s) (robotCount s) (gridWidth s) (gridHeight s) (maxTime s) (startTime s)
    (dirtPercentage s) (grid s) (schedule s) (random s) n
    (initialDirtyCells s) (stepsExecuted s).
Definition set_stepsExecuted (n : Z) (s : CleaningSimulation) : CleaningSimulation :=
  mkSim (running s) (robotCount s) (gridWidth s) (gridHeight s) (maxTime s) (startTime s)
    (dirtPercentage s) (grid s) (schedule s) (random s) (cleanCells s)
    (initialDirtyCells s) n.

Definition set_pos (p : option Pos) (r : CleaningRobot) : CleaningRobot :=
  mkRobot (unique_id r) p (cellsCleaned r) (totalMovements r).
Definition incr_cellsCleaned (r : CleaningRobot) : CleaningRobot :=
  mkRobot (unique_id r) (pos r) (cellsCleaned r + 1) (totalMovements r).
Definition incr_totalMovements (r : CleaningRobot) : CleaningRobot :=
  mkRobot (unique_id r) (pos r) (cellsCleaned r) (totalMovements r + 1).

Local Open Scope py_scope.

(** Attribute access on robot [i]. *)
Definition robot (i : nat) : M CleaningSimulation CleaningRobot :=
  fun s => match schedule s !! i with
           | Some r => (s, Ret r)
           | None => (s, Raise (UnknownAgent i))
           end.

Definition robot_pos (i : nat) : M CleaningSimulation Pos :=
  r <- robot i ;;
  match pos r with
  | Some p => ret p
  | None => raise NotOnGrid
  end.

Definition update_robot (i : nat) (f : CleaningRobot -> CleaningRobot)
  : M CleaningSimulation unit :=
  modify (fun s => set_schedule (alter f i (schedule s)) s).

(** [self.grid.place_agent(robot, p)]: the cell gets the robot and the
    robot gets its position. *)
Definition place_agent (i : nat) (p : Pos) : M CleaningSimulation unit :=
  fun s => match Grid.place (grid s) (RobotRef i) p with
           | Ret g => (set_schedule (alter (set_pos (Some p)) i (schedule s)) (set_grid g s),
                       Ret tt)
           | Raise e => (s, Raise e)
           end.

(** [self.model.grid.move_agent(self, p)] *)
Definition move_agent (i : nat) (p : Pos) : M CleaningSimulation unit :=
  from <- robot_pos i ;;
  fun s => match Grid.move (grid s) (RobotRef i) from p with
           | Ret g => (set_schedule (alter (set_pos (Some p)) i (schedule s)) (set_grid g s),
                       Ret tt)
           | Raise e => (s, Raise e)
           end.

(** [self.random.choice(l)] *)
Definition random_choice {A} (l : list A) : M CleaningSimulation A :=
  fun s => let (o, r) := choice l (random s) in
           match o with
           | Ret a => (set_random r s, Ret a)
           | Raise e => (s, Raise e)
           end.

(** [CleaningRobot.randomMove], main.py lines 34-52. *)
Definition randomMove (i : nat) : M CleaningSimulation unit :=
  p <- robot_pos i ;;
  s <- get ;;
  let adjacentCells := Grid.get_neighborhood (grid s) p in
  let validCells :=
    List.filter (fun c => (0 <=? c.1) && (c.1 <? Grid.width (grid s))
                          && (0 <=? c.2) && (c.2 <? Grid.height (grid s)))
                adjacentCells in
  match validCells with
  | [] => ret tt
  | _ :: _ =>
      nextPosition <- random_choice validCells ;;
      move_agent i nextPosition ;;;
      update_robot i incr_totalMovements
  end.

(** [CleaningRobot.step], main.py lines 54-70. *)
Definition robot_step (i : nat) : M CleaningSimulation unit :=
  p <- robot_pos i ;;
  currentCellContents <- (fun s => (s, Grid.get_cell_list_contents (grid s) p)) ;;
  match clean_first currentCellContents with
  | Some c' =>
      modify (fun s => set_grid (Grid.set_cell (grid s) p c') s) ;;;
      update_robot i incr_cellsCleaned ;;;
      modify (fun s => set_cleanCells (cleanCells s + 1) s)
  | None => randomMove i
  end.

(** [self.schedule.step()] of Mesa's [RandomActivation]: the agents are
    activated once each, in a freshly shuffled order.  The scheduler's own
    step counter, which the repository never reads, is left out. *)
Definition schedule_step : M CleaningSimulation unit :=
  keys <- (fun s => let (l, r) := shuffle (seq 0 (length (schedule s))) (random s) in
                    (set_random r s, Ret l)) ;;
  for_each keys robot_step.

Record Statistics : Type := mkStats {
  PorcentajeCompletado : Q;
  TiempoTranscurrido : Q;
  MovimientosTotales : Z }.

(** [CleaningSimulation.getStatistics], main.py lines 143-158; [now] is
    the reading of [time.time()]. *)
Definition getStatistics (now : Q) : M CleaningSimulation Statistics :=
  fun s =>
    let robots := schedule s in
    let elapsedTime := (now - startTime s)%Q in
    if initialDirtyCells s =? 0 then (s, Raise ZeroDivisionError)
    else (s, Ret (mkStats
                    ((inject_Z (cleanCells s) / inject_Z (initialDirtyCells s)) * 100)%Q
                    elapsedTime
                    (foldr Z.add 0 (map totalMovements robots)))).

(** The condition of line 164:
    [elapsedTime >= self.maxTime or self.cleanCells >= self.initialDirtyCells]. *)
Definition finished (now : Q) (s : CleaningSimulation) : bool :=
  let elapsedTime := (now - startTime s)%Q in
  Qle_bool (maxTime s) elapsedTime || (initialDirtyCells s <=? cleanCells s).

(** [CleaningSimulation.step], main.py lines 160-176; [now] is the clock
    reading of line 162 and [now'] the one taken inside [getStatistics].
    The value returned is what the call prints. *)
Definition step (now now' : Q) : M CleaningSimulation (option Statistics) :=
  s <- get ;;
  if finished now s then
    modify (set_running false) ;;;
    stats <- getStatistics now' ;;
    ret (Some stats)
  else
    schedule_step ;;;
    modify (fun s => set_stepsExecuted (stepsExecuted s + 1) s) ;;;
    ret None.

(** The tile of lines 132-134. *)
Definition place_tile (dirtyPositions : list Pos) (x y : Z) : M CleaningSimulation unit :=
  let tileStatus := tile_status dirtyPositions (x, y) in
  fun s => match Grid.place (grid s) (GridTile (x, y) tileStatus) (x, y) with
           | Ret g => (set_grid g s, Ret tt)
           | Raise e => (s, Raise e)
           end.

(** The loops of lines 130-134, which create all the tiles. *)
Definition create_tiles (dirtyPositions : list Pos) : M CleaningSimulation unit :=
  s <- get ;;
  for_each (range (gridWidth s)) (fun x =>
    for_each (range (gridHeight s)) (fun y =>
      place_tile dirtyPositions x y)).

(** The loop of lines 137-141, which creates and places the robots. *)
Definition place_robots : M CleaningSimulation unit :=
  s <- get ;;
  let initialPosition := (1, 1) in
  for_each (range (robotCount s)) (fun i =>
    modify (fun s => set_schedule (schedule s ++ [mkRobot (Z.to_nat i) None 0 0]) s) ;;;
    place_agent (Z.to_nat i) initialPosition).

(** [CleaningSimulation.setupEnvironment], main.py lines 116-141;
    [globalRandom] is the generator of the [random] module. *)
Definition setupEnvironment (globalRandom : Rng) : M CleaningSimulation unit :=
  s <- get ;;
  dirtyPositions <-
    lift (fst (sample (coordinates (gridWidth s) (gridHeight s))
                      (initialDirtyCells s) globalRandom)) ;;
  create_tiles dirtyPositions ;;;
  place_robots.

(** The object [__init__] has filled in when it calls [setupEnvironment]
    (lines 97-112); [now] is the reading of [time.time()], [modelRandom]
    the generator Mesa gives the model, [initialDirtyCells] the value of
    line 111. *)
Definition fresh (width height robotCount : Z) (dirtPercentage maxTime : Q)
    (now : Q) (modelRandom : Rng) (initialDirtyCells : Z) : CleaningSimulation :=
  mkSim true robotCount width height maxTime now dirtPercentage
        (Grid.MultiGrid width height) [] modelRandom
        0 initialDirtyCells 0.

(** [CleaningSimulation.__init__], main.py lines 96-114.  When line 111
    raises, the object is left without [initialDirtyCells] (0 here) and is
    dropped with the exception. *)
Definition init (width height robotCount : Z) (dirtPercentage maxTime : Q)
    (now : Q) (globalRandom modelRandom : Rng) : CleaningSimulation * Outcome unit :=
  match int_times_float (width * height) dirtPercentage with
  | Ret initialDirtyCells =>
      setupEnvironment globalRandom
        (fresh width height robotCount dirtPercentage maxTime now modelRandom
               initialDirtyCells)
  | Raise e =>
      (fresh width height robotCount dirtPercentage maxTime now modelRandom 0, Raise e)
  end.

(** [CleaningSimulation(width, height, robotCount, dirtPercentage, maxTime)]:
    the object when [__init__] returns, the exception when it raises. *)
Definition new (width height robotCount : Z) (dirtPercentage maxTime : Q)
    (now : Q) (globalRandom modelRandom : Rng) : Outcome CleaningSimulation :=
  match init width height robotCount dirtPercentage maxTime now globalRandom modelRandom with
  | (s, Ret _) => Ret s
  | (_, Raise e) => Raise e
  end.

(** *** Vocabulary of the statements about this variant *)

(** Successive [step] calls on the same object, each with its clock
    readings; the object persists when a call raises. *)
Inductive reaches (s0 : CleaningSimulation) : CleaningSimulation → Prop :=
| reaches_refl : reaches s0 s0
| reaches_step s now now' : reaches s0 s → reaches s0 (step now now' s).1.

(** The states a program observes: a constructed simulation, stepped any
    number of times. *)
Definition reachable (s : CleaningSimulation) : Prop :=
  ∃ width height robotCount dirtPercentage maxTime now globalRandom modelRandom s0,
    new width height robotCount dirtPercentage maxTime now globalRandom modelRandom = Ret s0
    ∧ reaches s0 s.

(** The cleaned tiles and the tiles still dirty add up to the initial
    number of dirty tiles. *)
Definition Inv (s : CleaningSimulation) : Prop :=
  ∃ n : nat, tiles_inv (grid s) n ∧
             cleanCells s + Z.of_nat n = initialDirtyCells s ∧ 0 ≤ cleanCells s.

(** The fields fixed at construction. *)
Definition constants (s : CleaningSimulation) :=
  (robotCount s, gridWidth s, gridHeight s, maxTime s, startTime s,
   dirtPercentage s, initialDirtyCells s).

(** The fields no robot touches. *)
Definition settings (s : CleaningSimulation) :=
  (running s, robotCount s, gridWidth s, gridHeight s, maxTime s, startTime s,
   dirtPercentage s, initialDirtyCells s, stepsExecuted s).

Definition position (i : nat) (s : CleaningSimulation) : option Pos :=
  r ← schedule s !! i; pos r.

(** The calls [step(); step(); ...] with the given clock readings. *)
Fixpoint steps (clock : list (Q * Q)) (s : CleaningSimulation) : CleaningSimulation :=
  match clock with
  | [] => s
  | (now, now') :: clock' => steps clock' (step now now' s).1
  end.

End Main.


(** ** [cleaning_robot.py]: the round-budget variant *)

Module Cleaning_robot.

Record CleaningRobot : Type := mkRobot {
  unique_id : nat;
  pos : option Pos }.

(** [running] is the flag Mesa's [Model] sets to [True]. *)
Record CleaningSimulation : Type := mkSim {
  running : bool;
  steps_remaining : Z;
  grid : Grid.t;
  schedule : list CleaningRobot;
  random : Rng }.

Definition set_running (b : bool) (s : CleaningSimulation) : CleaningSimulation :=
  mkSim b (steps_remaining s) (grid s) (schedule s) (random s).
Definition set_steps_remaining (n : Z) (s : CleaningSimulation) : CleaningSimulation :=
  mkSim (running s) n (grid s) (schedule s) (random s).
Definition set_grid (g : Grid.t) (s : CleaningSimulation) : CleaningSimulation :=
  mkSim (running s) (steps_remaining s) g (schedule s) (random s).
Definition set_schedule (l : list CleaningRobot) (s : CleaningSimulation) : CleaningSimulation :=
  mkSim (running s) (steps_remaining s) (grid s) l (random s).
Definition set_random (r : Rng) (s : CleaningSimulation) : CleaningSimulation :=
  mkSim (running s) (steps_remaining s) (grid s) (schedule s) r.

Definition set_pos (p : option Pos) (r : CleaningRobot) : CleaningRobot :=
  mkRobot (unique_id r) p.

Local Open Scope py_scope.

Definition robot_pos (i : nat) : M CleaningSimulation Pos :=
  fun s => match schedule s !! i with
           | Some r => match pos r with
                       | Some p => (s, Ret p)
                       | None => (s, Raise NotOnGrid)
                       end
           | None => (s, Raise (UnknownAgent i))
           end.

(** [self.grid.place_agent(robot, p)] *)
Definition place_agent (i : nat) (p : Pos) : M CleaningSimulation unit :=
  fun s => match Grid.place (grid s) (RobotRef i) p with
           | Ret g => (set_schedule (alter (set_pos (Some p)) i (schedule s)) (set_grid g s),
                       Ret tt)
           | Raise e => (s, Raise e)
           end.

(** [self.model.grid.move_agent(self, p)] *)
Definition move_agent (i : nat) (p : Pos) : M CleaningSimulation unit :=
  from <- robot_pos i ;;
  fun s => match Grid.move (grid s) (RobotRef i) from p with
           | Ret g => (set_schedule (alter (set_pos (Some p)) i (schedule s)) (set_grid g s),
                       Ret tt)
           | Raise e => (s, Raise e)
           end.

(** [self.random.choice(l)] *)
Definition random_choice {A} (l : list A) : M CleaningSimulation A :=
  fun s => let (o, r) := choice l (random s) in
           match o with
           | Ret a => (set_random r s, Ret a)
           | Raise e => (s, Raise e)
           end.

(** [CleaningRobot.random_move], cleaning_robot.py lines 10-16. *)
Definition random_move (i : nat) : M CleaningSimulation unit :=
  p <- robot_pos i ;;
  s <- get ;;
  let adjacent_cells := Grid.get_neighborhood (grid s) p in
  next_position <- random_choice adjacent_cells ;;
  move_agent i next_position.

(** [CleaningRobot.step], cleaning_robot.py lines 18-26. *)
Definition robot_step (i : nat) : M CleaningSimulation unit :=
  p <- robot_pos i ;;
  current_cell_contents <- (fun s => (s, Grid.get_cell_list_contents (grid s) p)) ;;
  match clean_first current_cell_contents with
  | Some c' => modify (fun s => set_grid (Grid.set_cell (grid s) p c') s)
  | None => random_move i
  end.

(** [self.schedule.step()] *)
Definition schedule_step : M CleaningSimulation unit :=
  keys <- (fun s => let (l, r) := shuffle (seq 0 (length (schedule s))) (random s) in
                    (set_random r s, Ret l)) ;;
  for_each keys robot_step.

(** [CleaningSimulation.step], cleaning_robot.py lines 61-68. *)
Definition step : M CleaningSimulation unit :=
  s <- get ;;
  if steps_remaining s <=? 0 then
    modify (set_running false)
  else
    schedule_step ;;;
    modify (fun s => set_steps_remaining (steps_remaining s - 1) s).

Definition place_tile (dirty_positions : list Pos) (x y : Z) : M CleaningSimulation unit :=
  let tile_status := tile_status dirty_positions (x, y) in
  fun s => match Grid.place (grid s) (GridTile (x, y) tile_status) (x, y) with
           | Ret g => (set_grid g s, Ret tt)
           | Raise e => (s, Raise e)
           end.

(** The loops of lines 48-52, which create all the tiles. *)
Definition create_tiles (grid_width grid_height : Z) (dirty_positions : list Pos)
  : M CleaningSimulation unit :=
  for_each (range grid_width) (fun x =>
    for_each (range grid_height) (fun y =>
      place_tile dirty_positions x y)).

(** The loop of lines 55-59, which creates and places the robots. *)
Definition place_robots (robot_count : Z) : M CleaningSimulation unit :=
  let initial_position := (1, 1) in
  for_each (range robot_count) (fun i =>
    modify (fun s => set_schedule (schedule s ++ [mkRobot (Z.to_nat i) None]) s) ;;;
    place_agent (Z.to_nat i) initial_position).

(** The object after lines 36-39. *)
Definition fresh (grid_width grid_height steps_remaining : Z) (modelRandom : Rng)
  : CleaningSimulation :=
  mkSim true steps_remaining (Grid.MultiGrid grid_width grid_height) [] modelRandom.

(** [CleaningSimulation.__init__], cleaning_robot.py lines 35-59. *)
Definition init (robot_count grid_width grid_height steps_remaining : Z)
    (dirt_percentage : Q) (globalRandom modelRandom : Rng)
    : CleaningSimulation * Outcome unit :=
  (let total_tiles := grid_width * grid_height in
   dirty_tiles <- lift (int_times_float total_tiles dirt_percentage) ;;
   dirty_positions <-
     lift (fst (sample (coordinates grid_width grid_height) dirty_tiles globalRandom)) ;;
   create_tiles grid_width grid_height dirty_positions ;;;
   place_robots robot_count)
    (fresh grid_width grid_height steps_remaining modelRandom).

(** [CleaningSimulation(robot_count, grid_width, grid_height,
    steps_remaining, dirt_percentage)] *)
Definition new (robot_count grid_width grid_height steps_remaining : Z)
    (dirt_percentage : Q) (globalRandom modelRandom : Rng) : Outcome CleaningSimulation :=
  match init robot_count grid_width grid_height steps_remaining dirt_percentage
             globalRandom modelRandom with
  | (s, Ret _) => Ret s
  | (_, Raise e) => Raise e
  end.

(** *** Vocabulary of the statements about this variant *)

Inductive reaches (s0 : CleaningSimulation) : CleaningSimulation → Prop :=
| reaches_refl : reaches s0 s0
| reaches_step s : reaches s0 s → reaches s0 (step s).1.

Definition Inv (s : CleaningSimulation) : Prop := ∃ n : nat, tiles_inv (grid s) n.

Definition settings (s : CleaningSimulation) := (running s, steps_remaining s).

(** [n] successive calls of [step]. *)
Fixpoint steps (n : nat) (s : CleaningSimulation) : CleaningSimulation :=
  match n with
  | O => s
  | S n' => steps n' (step s).1
  end.

End Cleaning_robot.

(** ** Concrete runs, used to exercise the statements *)

Definition demo_global : Rng := [3; 7; 1; 0; 12]%nat.
Definition demo_model : Rng := [1; 2; 3; 4; 5; 6; 7; 8]%nat.

(** The scenario of the specification: a 5 x 5 grid, a fifth of it dirty,
    one robot, a budget of 60 seconds, built at time 0. *)
Definition demo : Main.CleaningSimulation :=
  (Main.init 5 5 1 (double (1 # 5)) 60 0 demo_global demo_model).1.

(** The same scenario with the tile under the robot dirty. *)
Definition demo_dirty : Main.CleaningSimulation :=
  (Main.init 5 5 1 (double (1 # 5)) 60 0 [6; 0; 0; 0; 0]%nat demo_model).1.

(** Two robots on a 3 x 3 grid that is dirty everywhere. *)
Definition demo_pair : Main.CleaningSimulation :=
  (Main.init 3 3 2 1 60 0 [] demo_model).1.


(** ** Vocabulary of the further properties *)

(** Robot [i] stands on the grid where its [pos] says: the position is a
    cell of the grid and that cell holds the reference to the robot. *)
Definition placed (g : Grid.t) (i : nat) (p : option Pos) : Prop :=
  ∃ q c, p = Some q ∧ Grid.cell g q = Some c ∧ RobotRef i ∈ c.

(** The grid and the scheduler of [main.py] agree on where the robots are. *)
Definition main_consistent (s : Main.CleaningSimulation) : Prop :=
  Grid.wf (Main.grid s) ∧
  ∀ i r, Main.schedule s !! i = Some r → placed (Main.grid s) i (Main.pos r).

(** The same for [cleaning_robot.py]; there a robot also needs a
    neighbouring cell, which a grid with the cell (1, 1) has. *)
Definition rb_consistent (s : Cleaning_robot.CleaningSimulation) : Prop :=
  Grid.wf (Cleaning_robot.grid s) ∧
  (∀ i r, Cleaning_robot.schedule s !! i = Some r →
          placed (Cleaning_robot.grid s) i (Cleaning_robot.pos r)) ∧
  (Cleaning_robot.schedule s = [] ∨
   (2 ≤ Grid.width (Cleaning_robot.grid s) ∧ 2 ≤ Grid.height (Cleaning_robot.grid s))).

(** The states of [cleaning_robot.py] a program observes. *)
Definition rb_reachable (s : Cleaning_robot.CleaningSimulation) : Prop :=
  ∃ robot_count grid_width grid_height steps_remaining dirt_percentage
    globalRandom modelRandom s0,
    Cleaning_robot.new robot_count grid_width grid_height steps_remaining
                       dirt_percentage globalRandom modelRandom = Ret s0
    ∧ Cleaning_robot.reaches s0 s.

(** Sums of the robots' counters. *)
Definition total_cleaned (s : Main.CleaningSimulation) : Z :=
  foldr Z.add 0 (map Main.cellsCleaned (Main.schedule s)).
Definition total_moved (s : Main.CleaningSimulation) : Z :=
  foldr Z.add 0 (map Main.totalMovements (Main.schedule s)).

(** Two coordinates are Moore neighbours. *)
Definition adjacent (p q : Pos) : Prop :=
  p ≠ q ∧ -1 ≤ q.1 - p.1 ≤ 1 ∧ -1 ≤ q.2 - p.2 ≤ 1.

(** [Slider(name, value, min_value, max_value, step)], the user-settable
    parameter of the visualization; a user can select the values from
    [min_value] to [max_value]. *)
Record Slider : Type := mkSlider {
  value : Q;
  min_value : Q;
  max_value : Q;
  slider_step : Q }.

Definition selectable (sl : Slider) (v : Q) : Prop :=
  (min_value sl <= v)%Q ∧ (v <= max_value sl)%Q.

(** [modelParams] of [createSimulationServer], main.py lines 218-259. *)
Record ModelParams : Type := mkModelParams {
  param_width : Slider;
  param_height : Slider;
  param_robotCount : Slider;
  param_dirtPercentage : Slider;
  param_maxTime : Slider }.

Definition modelParams : ModelParams :=
  mkModelParams (mkSlider 10 5 20 1) (mkSlider 10 5 20 1) (mkSlider 1 1 10 1)
                (mkSlider (double (3 # 10)) (double (1 # 10)) (double (9 # 10))
                          (double (1 # 10)))
                (mkSlider 60 10 300 10).

(** The cell at [q] holds a dirty tile. *)
Definition dirty_at (g : Grid.t) (q : Pos) : Prop :=
  ∃ c id, Grid.cell g q = Some c ∧ GridTile id 1 ∈ c.

(** The simulation [run_server.py] launches: 5 robots on a 10 x 10 grid,
    100 rounds, three tenths of the tiles dirty. *)
Definition demo_server : Cleaning_robot.CleaningSimulation :=
  (Cleaning_robot.init 5 10 10 100 (double (3 # 10)) demo_global demo_model).1.

(** Number of entities (tiles and robots) on the grid. *)
Definition entity_count (g : Grid.t) : nat :=
  sum_list_with (fun p => length (contents g p))
                (coordinates (Grid.width g) (Grid.height g)).

(** ** Facts about floating point *)

Lemma py_int_floor q : (0 <= q)%Q → py_int q = Qfloor q.
Proof.
  destruct q as [a b]. unfold Qle, py_int, Qfloor. simpl. intros Ha.
  apply Z.quot_div_nonneg; lia.
Qed.

Lemma pow2_pos e : (0 < pow2 e)%Q.
Proof. by apply Qpower_0_lt. Qed.

Lemma pow2_Z e : 0 ≤ e → (pow2 e == inject_Z (2 ^ e))%Q.
Proof. intros He. unfold pow2. by rewrite Zpower_Qpower. Qed.

Lemma Qfloor_bounds q : (inject_Z (Qfloor q) <= q)%Q ∧ (q < inject_Z (Qfloor q) + 1)%Q.
Proof.
  split; [apply Qfloor_le|]. pose proof (Qlt_floor q) as H.
  rewrite inject_Z_plus in H. exact H.
Qed.

Lemma round_half_even_range q :
  round_half_even q = Qfloor q ∨ round_half_even q = Qfloor q + 1.
Proof.
  unfold round_half_even. destruct (Qcompare _ _); [|by left|by right].
  destruct (Z.even _); [by left|by right].
Qed.

Lemma round_half_even_Z q k : (q == inject_Z k)%Q → round_half_even q = k.
Proof.
  intros Hq. unfold round_half_even.
  assert (Hf : Qfloor q = k) by (by rewrite Hq, Qfloor_Z).
  rewrite Hf.
  assert (Hlt : (q - inject_Z k < 1 # 2)%Q) by (rewrite Hq; lra).
  by rewrite (proj1 (Qlt_alt _ _) Hlt).
Qed.

Lemma round_half_even_mono q q' :
  (q <= q')%Q → round_half_even q ≤ round_half_even q'.
Proof.
  intros Hle. pose proof (Qfloor_resp_le _ _ Hle) as Hf.
  destruct (Z.eq_dec (Qfloor q) (Qfloor q')) as [Heq|Hne].
  - unfold round_half_even. rewrite <- Heq.
    destruct (Qcompare_spec (q - inject_Z (Qfloor q)) (1 # 2)) as [Hc|Hc|Hc];
      destruct (Qcompare_spec (q' - inject_Z (Qfloor q)) (1 # 2)) as [Hc'|Hc'|Hc'];
      try (destruct (Z.even (Qfloor q))); try lia.
    all: exfalso; lra.
  - destruct (round_half_even_range q) as [-> | ->],
      (round_half_even_range q') as [-> | ->]; lia.
Qed.

Lemma round_to_mono e x y : (x <= y)%Q → (round_to e x <= round_to e y)%Q.
Proof.
  intros Hle. unfold round_to. pose proof (pow2_pos e) as He.
  apply Qmult_le_compat_r; [|lra]. rewrite <- Zle_Qle.
  apply round_half_even_mono. apply Qmult_le_compat_r; [done|].
  apply Qinv_le_0_compat. lra.
Qed.

(** A multiple of [2 ^ j] is kept by the rounding to multiples of a smaller
    power of two. *)
Lemma round_to_multiple e j k x :
  e ≤ j → (x == inject_Z k * pow2 j)%Q → (round_to e x == x)%Q.
Proof.
  intros Hej Hx. unfold round_to. pose proof (pow2_pos e) as He.
  assert (Hq : (x / pow2 e == inject_Z (k * 2 ^ (j - e)))%Q).
  { rewrite inject_Z_mult, <- pow2_Z by lia. unfold pow2.
    rewrite Qpower_minus by done. rewrite Hx. unfold pow2. field.
    intros H0. unfold pow2 in He. rewrite H0 in He. by apply Qlt_irrefl in He. }
  rewrite (round_half_even_Z _ _ Hq), <- Hq. field.
  intros H0. rewrite H0 in He. by apply Qlt_irrefl in He.
Qed.

Lemma Qlog2_lt y B : 0 ≤ B → (0 <= y)%Q → (y < pow2 B)%Q → Qlog2 y < B.
Proof.
  intros HB H0 Hlt. unfold Qlog2.
  set (d := Z.log2 (Qnum y) - Z.log2 (Z.pos (Qden y))).
  assert (Hd : d ≤ B).
  { rewrite pow2_Z in Hlt by done. unfold Qlt in Hlt. simpl in Hlt.
    pose proof (Z.log2_nonneg (Z.pos (Qden y))). unfold d.
    destruct (Z_le_gt_dec (Qnum y) 0) as [Hn|Hn].
    - rewrite (Z.log2_nonpos _ Hn). lia.
    - assert (Hm : Z.log2 (Qnum y) ≤ Z.log2 (Z.pos (Qden y) * 2 ^ B)).
      { apply Z.log2_le_mono. lia. }
      rewrite Z.log2_mul_pow2 in Hm by lia. lia. }
  destruct (Qle_bool (pow2 d) y) eqn:Ht; [|lia].
  apply Qle_bool_iff in Ht.
  destruct (Z.eq_dec d B) as [->|]; [|lia]. exfalso. lra.
Qed.

Lemma ulp_exponent_le x B :
  0 ≤ B → (Qabs x < pow2 B)%Q → ulp_exponent x ≤ Z.max (-1074) (B - 53).
Proof.
  intros HB Hlt. unfold ulp_exponent.
  pose proof (Qlog2_lt (Qabs x) B HB (Qabs_nonneg x) Hlt). lia.
Qed.

Lemma double_round_to x : (double x == round_to (ulp_exponent x) x)%Q.
Proof. apply Qred_correct. Qed.

(** Below [2 ^ 53] the doubles include the integers, and rounding keeps
    the order with them. *)
Lemma double_Z n : Z.abs n < 2 ^ 53 → (double (inject_Z n) == inject_Z n)%Q.
Proof.
  intros Hn. rewrite double_round_to. apply (round_to_multiple _ 0 n).
  - assert (H : ulp_exponent (inject_Z n) ≤ Z.max (-1074) (53 - 53)); [|lia].
    apply ulp_exponent_le; [lia|]. rewrite pow2_Z by lia.
    assert (Ha : (Qabs (inject_Z n) == inject_Z (Z.abs n))%Q) by done.
    rewrite Ha, <- Zlt_Qlt. done.
  - unfold pow2. simpl. ring.
Qed.

Lemma double_ge_Z a x :
  (0 <= x)%Q → (x < inject_Z (2 ^ 53))%Q → (inject_Z a <= x)%Q → (inject_Z a <= double x)%Q.
Proof.
  intros H0 H53 Ha. rewrite double_round_to.
  assert (He : ulp_exponent x ≤ 0).
  { assert (H : ulp_exponent x ≤ Z.max (-1074) (53 - 53)); [|lia].
    apply ulp_exponent_le; [lia|]. rewrite pow2_Z, Qabs_pos by (done || lia). done. }
  rewrite <- (round_to_multiple (ulp_exponent x) 0 a (inject_Z a)).
  - by apply round_to_mono.
  - done.
  - unfold pow2. simpl. ring.
Qed.

Lemma double_le_Z b x :
  (0 <= x)%Q → (x < inject_Z (2 ^ 53))%Q → (x <= inject_Z b)%Q → (double x <= inject_Z b)%Q.
Proof.
  intros H0 H53 Hb. rewrite double_round_to.
  assert (He : ulp_exponent x ≤ 0).
  { assert (H : ulp_exponent x ≤ Z.max (-1074) (53 - 53)); [|lia].
    apply ulp_exponent_le; [lia|]. rewrite pow2_Z, Qabs_pos by (done || lia). done. }
  rewrite <- (round_to_multiple (ulp_exponent x) 0 b (inject_Z b)).
  - by apply round_to_mono.
  - done.
  - unfold pow2. simpl. ring.
Qed.

Lemma float_overflows_small x :
  (Qabs x <= inject_Z (2 ^ 53))%Q → float_overflows x = false.
Proof.
  intros Hx. unfold float_overflows. destruct (Qle_bool _ _) eqn:Hb; [|done].
  apply Qle_bool_iff in Hb. rewrite pow2_Z in Hb by lia. exfalso.
  assert (H : (inject_Z (2 ^ 1024) <= inject_Z (2 ^ 53))%Q) by lra.
  rewrite <- Zle_Qle in H. revert H. apply Z.lt_nge. by apply Z.pow_lt_mono_r.
Qed.

(** [int(n * p)] on a grid of fewer than [2 ^ 53] cells and a fraction
    [0 <= p <= 1]: no overflow, and the result is an integer between 0 and
    [n] that is the floor or the ceiling of the exact product. *)
Lemma int_times_float_spec n p :
  0 ≤ n < 2 ^ 53 → (0 <= p)%Q → (p <= 1)%Q →
  ∃ k, int_times_float n p = Ret k ∧ 0 ≤ k ≤ n ∧
       Qfloor (inject_Z n * p) ≤ k ≤ Qceiling (inject_Z n * p).
Proof.
  intros Hn Hp0 Hp1.
  pose proof (double_Z n ltac:(lia)) as Hdn.
  assert (HnQ : (0 <= inject_Z n)%Q) by (rewrite <- (Zle_Qle 0); lia).
  assert (Hn53 : (inject_Z n < inject_Z (2 ^ 53))%Q) by (rewrite <- Zlt_Qlt; lia).
  set (x := (double (inject_Z n) * p)%Q).
  assert (Hx : (x == inject_Z n * p)%Q) by (unfold x; by rewrite Hdn).
  assert (Hx0 : (0 <= x)%Q) by (rewrite Hx; by apply Qmult_le_0_compat).
  assert (Hxn : (x <= inject_Z n)%Q).
  { rewrite Hx. rewrite <- (Qmult_1_r (inject_Z n)) at 2.
    rewrite !(Qmult_comm (inject_Z n)). by apply Qmult_le_compat_r. }
  assert (Hx53 : (x < inject_Z (2 ^ 53))%Q) by lra.
  pose proof (double_ge_Z 0 x Hx0 Hx53 Hx0) as Hd0.
  pose proof (double_le_Z n x Hx0 Hx53 Hxn) as Hdn'.
  exists (py_int (double x)). split.
  - unfold int_times_float, float_of_int.
    rewrite float_overflows_small; [|rewrite Hdn, Qabs_pos by done; lra].
    unfold float_mul. fold x.
    rewrite float_overflows_small; [done|]. rewrite Qabs_pos by done. lra.
  - rewrite py_int_floor by done. split; split.
    + change 0 with (Qfloor 0). by apply Qfloor_resp_le.
    + etransitivity; [apply Qfloor_resp_le, Hdn'|]. by rewrite Qfloor_Z.
    + etransitivity; [|apply Qfloor_resp_le, (double_ge_Z (Qfloor (inject_Z n * p)))];
        [by rewrite Qfloor_Z|done|done|]. rewrite Hx. apply Qfloor_le.
    + etransitivity; [apply Qfloor_resp_le, (double_le_Z (Qceiling (inject_Z n * p)))|];
        [done|done| |by rewrite Qfloor_Z]. rewrite Hx. apply Qle_ceiling.
Qed.

(** ** Facts about the grid *)

Module GridFacts.
Import Grid.

Lemma in_bounds_iff g p :
  out_of_bounds g p = false ↔ (0 ≤ p.1 < width g ∧ 0 ≤ p.2 < height g).
Proof. unfold out_of_bounds. rewrite !orb_false_iff. lia. Qed.

Lemma cell_Some_in_bounds g p c : cell g p = Some c → out_of_bounds g p = false.
Proof. unfold cell. by destruct (out_of_bounds g p). Qed.

Lemma wf_cell_is_Some g p : wf g → out_of_bounds g p = false → is_Some (cell g p).
Proof.
  intros [Hw Hh] Hb. unfold cell. rewrite Hb.
  apply in_bounds_iff in Hb as [Hx Hy].
  destruct (lookup_lt_is_Some_2 (cells g) (Z.to_nat p.1)) as [col Hcol]; [lia|].
  rewrite Hcol. simpl.
  apply lookup_lt_is_Some_2.
  rewrite Forall_forall in Hh.
  rewrite (Hh col); [lia|]. by eapply list_elem_of_lookup_2.
Qed.

Lemma out_of_bounds_set_cell g p c q :
  out_of_bounds (set_cell g p c) q = out_of_bounds g q.
Proof. reflexivity. Qed.

Lemma wf_set_cell g p c : wf g → wf (set_cell g p c).
Proof.
  intros [Hw Hh]. split; simpl.
  - by rewrite length_alter.
  - apply Forall_alter; [done|]. intros col Hcol. by rewrite length_insert.
Qed.

Lemma cell_set_cell_eq g p c :
  wf g → out_of_bounds g p = false → cell (set_cell g p c) p = Some c.
Proof.
  intros Hwf Hb. destruct (wf_cell_is_Some g p Hwf Hb) as [c0 Hc0].
  unfold cell in *. rewrite out_of_bounds_set_cell, Hb in *. simpl.
  rewrite list_lookup_alter_eq.
  destruct (cells g !! Z.to_nat p.1) as [col|]; simpl in *; [|done].
  apply list_lookup_insert_eq. by eapply lookup_lt_Some.
Qed.

Lemma cell_set_cell_ne g p c q :
  out_of_bounds g p = false → p ≠ q → cell (set_cell g p c) q = cell g q.
Proof.
  intros Hb Hne. unfold cell. rewrite out_of_bounds_set_cell.
  destruct (out_of_bounds g q) eqn:Hq; [done|]. simpl.
  apply in_bounds_iff in Hb as [Hx Hy]. apply in_bounds_iff in Hq as [Hx' Hy'].
  destruct (decide (Z.to_nat p.1 = Z.to_nat q.1)) as [Heq|Hx''].
  - rewrite Heq, list_lookup_alter_eq.
    destruct (cells g !! Z.to_nat q.1) as [col|]; simpl; [|done].
    apply list_lookup_insert_ne. intros Hy''.
    apply Hne. destruct p, q; simpl in *. f_equal; lia.
  - by rewrite list_lookup_alter_ne.
Qed.

Lemma contents_set_cell_eq g p c :
  wf g → out_of_bounds g p = false → contents (set_cell g p c) p = c.
Proof. intros. unfold contents. by rewrite cell_set_cell_eq. Qed.

Lemma contents_set_cell_ne g p c q :
  out_of_bounds g p = false → p ≠ q → contents (set_cell g p c) q = contents g q.
Proof. intros. unfold contents. by rewrite cell_set_cell_ne. Qed.

Lemma wf_MultiGrid w h : wf (MultiGrid w h).
Proof.
  split; simpl.
  - by rewrite length_replicate.
  - apply Forall_replicate. by rewrite length_replicate.
Qed.

Lemma cell_MultiGrid w h p :
  out_of_bounds (MultiGrid w h) p = false → cell (MultiGrid w h) p = Some [].
Proof.
  intros Hb. unfold cell. rewrite Hb. apply in_bounds_iff in Hb as [Hx Hy]. simpl in *.
  rewrite lookup_replicate_2 by lia. simpl. apply lookup_replicate_2. lia.
Qed.

End GridFacts.

(** ** Facts about ranges, coordinates, sums and draws *)

Lemma elem_of_range n z : z ∈ range n ↔ 0 ≤ z < n.
Proof.
  unfold range. rewrite list_elem_of_fmap. split.
  - intros (i & -> & Hi). apply elem_of_seq in Hi. lia.
  - intros Hz. exists (Z.to_nat z). split; [lia|]. apply elem_of_seq. lia.
Qed.

Lemma NoDup_range n : NoDup (range n).
Proof.
  unfold range. apply (NoDup_fmap_2 Z.of_nat), NoDup_seq.
Qed.

Lemma length_range n : length (range n) = Z.to_nat n.
Proof. unfold range. by rewrite length_map, length_seq. Qed.

Lemma elem_of_flat_map {A B} (f : A → list B) (l : list A) (b : B) :
  b ∈ flat_map f l ↔ ∃ a, a ∈ l ∧ b ∈ f a.
Proof.
  rewrite list_elem_of_In, in_flat_map. split; intros (a & Ha & Hb); exists a.
  - by rewrite !list_elem_of_In.
  - by rewrite <- !list_elem_of_In.
Qed.

Lemma elem_of_coordinates w h p :
  p ∈ coordinates w h ↔ (0 ≤ p.1 < w ∧ 0 ≤ p.2 < h).
Proof.
  unfold coordinates. rewrite elem_of_flat_map. split.
  - intros (x & Hx & Hp). apply list_elem_of_fmap in Hp as (y & -> & Hy).
    apply elem_of_range in Hx, Hy. done.
  - intros [Hx Hy]. exists p.1. split; [by apply elem_of_range|].
    apply list_elem_of_fmap. exists p.2. split; [by destruct p|by apply elem_of_range].
Qed.

Lemma NoDup_coordinates w h : NoDup (coordinates w h).
Proof.
  unfold coordinates. generalize (NoDup_range w). generalize (range w) as xs.
  induction xs as [|x xs IH]; intros Hnd; simpl; [constructor|].
  apply NoDup_cons in Hnd as [Hx Hnd]. apply NoDup_app. split; [|split].
  - apply (NoDup_fmap_2 (fun y => (x, y))), NoDup_range.
  - intros q Hq Hq'. apply list_elem_of_fmap in Hq as (y & -> & _).
    apply elem_of_flat_map in Hq' as (x' & Hx' & Hq').
    apply list_elem_of_fmap in Hq' as (y' & Heq & _). congruence.
  - by apply IH.
Qed.

Lemma length_coordinates w h :
  length (coordinates w h) = (Z.to_nat w * Z.to_nat h)%nat.
Proof.
  unfold coordinates. rewrite <- (length_range w).
  generalize (range w) as xs.
  induction xs as [|x xs IH]; simpl; [done|].
  rewrite length_app, length_map, length_range. f_equal. exact IH.
Qed.

Lemma coordinates_in_bounds g p :
  p ∈ coordinates (Grid.width g) (Grid.height g) ↔ Grid.out_of_bounds g p = false.
Proof. by rewrite elem_of_coordinates, GridFacts.in_bounds_iff. Qed.

Lemma sum_list_with_agree {A} (f f' : A → nat) (l : list A) :
  (∀ a, a ∈ l → f a = f' a) → sum_list_with f l = sum_list_with f' l.
Proof.
  induction l as [|a l IH]; intros H; simpl; [done|].
  rewrite (H a) by left. rewrite IH; [done|]. intros b Hb. apply H. by right.
Qed.

Lemma sum_list_with_update {A} (f f' : A → nat) (l : list A) (p : A) :
  NoDup l → p ∈ l → (∀ q, q ≠ p → f' q = f q) →
  (sum_list_with f' l + f p = sum_list_with f l + f' p)%nat.
Proof.
  induction l as [|a l IH]; intros Hnd Hp Hf; [by apply elem_of_nil in Hp|].
  apply NoDup_cons in Hnd as [Ha Hnd]. simpl.
  apply elem_of_cons in Hp as [->|Hp].
  - rewrite (sum_list_with_agree f' f l); [lia|].
    intros b Hb. apply Hf. intros ->. done.
  - rewrite (Hf a) by (intros ->; done). specialize (IH Hnd Hp Hf). lia.
Qed.

Lemma sum_list_with_indicator {A} (f : A → nat) (b : A → bool) (l : list A) :
  (∀ a, a ∈ l → f a = if b a then 1%nat else 0%nat) →
  sum_list_with f l = length (List.filter b l).
Proof.
  induction l as [|a l IH]; intros H; simpl; [done|].
  rewrite (H a) by left. rewrite IH by (intros c Hc; apply H; by right).
  by destruct (b a).
Qed.

(** Counting the members of a duplicate-free sub-collection. *)
Lemma count_members (dp l : list Pos) :
  NoDup dp → NoDup l → (∀ p, p ∈ dp → p ∈ l) →
  sum_list_with (fun p => if bool_decide (p ∈ dp) then 1%nat else 0%nat) l = length dp.
Proof.
  induction dp as [|a dp IH]; intros Hdp Hl Hsub.
  - rewrite (sum_list_with_agree _ (fun _ => 0%nat)).
    + clear. induction l as [|b l IHl]; simpl; [done|]. exact IHl.
    + intros p _. rewrite bool_decide_eq_false_2; [done|]. apply not_elem_of_nil.
  - apply NoDup_cons in Hdp as [Ha Hdp].
    assert (Hal : a ∈ l) by (apply Hsub; left).
    assert (Hf : ∀ q, q ≠ a →
              (if bool_decide (q ∈ a :: dp) then 1%nat else 0%nat) =
              (if bool_decide (q ∈ dp) then 1%nat else 0%nat)).
    { intros q Hq. destruct (decide (q ∈ dp)) as [Hin|Hnin].
      - rewrite !bool_decide_eq_true_2; [done|done|by right].
      - rewrite !bool_decide_eq_false_2; [done|done|].
        intros Hq'. apply elem_of_cons in Hq' as [?|?]; done. }
    pose proof (sum_list_with_update
             (fun p => if bool_decide (p ∈ dp) then 1%nat else 0%nat)
             (fun p => if bool_decide (p ∈ a :: dp) then 1%nat else 0%nat) l a Hl Hal Hf) as H.
    simpl in H. rewrite IH in H; [|done|done|intros p Hp; apply Hsub; by right].
    rewrite (bool_decide_eq_false_2 (a ∈ dp)) in H by done.
    rewrite (bool_decide_eq_true_2 (a ∈ a :: dp)) in H by left.
    simpl. lia.
Qed.

Section Pick.
Context {A : Type}.
Implicit Types (pool l : list A) (r : Rng).

Lemma pick_length n pool r :
  (n ≤ length pool)%nat → length (pick n pool r).1 = n.
Proof.
  revert pool r. induction n as [|n IH]; intros pool r Hn; simpl; [done|].
  destruct (next_draw r) as [d r'].
  assert (Hlt : (d mod length pool < length pool)%nat) by (apply Nat.mod_upper_bound; lia).
  destruct (lookup_lt_is_Some_2 pool _ Hlt) as [a Ha]. rewrite Ha.
  specialize (IH (delete (d mod length pool)%nat pool) r').
  destruct (pick n _ r') as [rest r'']. simpl in *. rewrite IH; [done|].
  rewrite length_delete by eauto. lia.
Qed.

Lemma pick_subset n pool r a : a ∈ (pick n pool r).1 → a ∈ pool.
Proof.
  revert pool r. induction n as [|n IH]; intros pool r; simpl.
  - intros H. by apply elem_of_nil in H.
  - destruct (next_draw r) as [d r'].
    destruct (pool !! (d mod length pool)%nat) as [b|] eqn:Hb; simpl.
    + specialize (IH (delete (d mod length pool)%nat pool) r').
      destruct (pick n _ r') as [rest r'']. simpl in *.
      intros [->|Hin]%elem_of_cons.
      * by eapply list_elem_of_lookup_2.
      * eapply list_elem_of_delete_inv. by apply IH.
    + intros H. by apply elem_of_nil in H.
Qed.

Lemma pick_NoDup n pool r : NoDup pool → NoDup (pick n pool r).1.
Proof.
  revert pool r. induction n as [|n IH]; intros pool r Hnd; simpl; [constructor|].
  destruct (next_draw r) as [d r'].
  destruct (pool !! (d mod length pool)%nat) as [b|] eqn:Hb; simpl; [|constructor].
  pose proof (delete_Permutation _ _ _ Hb) as Hperm.
  rewrite Hperm in Hnd. apply NoDup_cons in Hnd as [Hb' Hnd].
  pose proof (IH (delete (d mod length pool)%nat pool) r' Hnd) as IH'.
  pose proof (pick_subset n (delete (d mod length pool)%nat pool) r' b) as Hsub.
  destruct (pick n _ r') as [rest r'']. simpl in *.
  apply NoDup_cons. split; [|done]. intros Hin. by apply Hb', Hsub.
Qed.

End Pick.

Lemma sample_Ret {A} (population : list A) k r l :
  (sample population k r).1 = Ret l →
  length l = Z.to_nat k ∧ 0 ≤ k ∧ (∀ a, a ∈ l → a ∈ population) ∧
  (NoDup population → NoDup l).
Proof.
  unfold sample. destruct ((k <? 0) || _) eqn:Hk; [done|].
  apply orb_false_iff in Hk as [Hk1 Hk2].
  pose proof (pick_length (Z.to_nat k) population r) as Hlen.
  pose proof (pick_subset (Z.to_nat k) population r) as Hsub.
  pose proof (pick_NoDup (Z.to_nat k) population r) as Hnd.
  destruct (pick _ population r) as [l' r']. simpl in *.
  intros [= <-]. split; [apply Hlen; lia|]. split; [lia|]. split; [done|done].
Qed.

Lemma sample_succeeds {A} (population : list A) k r :
  0 ≤ k ≤ Z.of_nat (length population) → ∃ l, (sample population k r).1 = Ret l.
Proof.
  intros Hk. unfold sample.
  destruct ((k <? 0) || _) eqn:Hk'.
  - apply orb_true_iff in Hk'. lia.
  - destruct (pick _ population r) as [l r']. by exists l.
Qed.

Lemma sample_fails {A} (population : list A) k r :
  k < 0 ∨ Z.of_nat (length population) < k →
  (sample population k r).1 = Raise SampleValueError.
Proof.
  intros Hk. unfold sample.
  destruct ((k <? 0) || _) eqn:Hk'; [done|].
  apply orb_false_iff in Hk'. lia.
Qed.

(** ** Facts about tiles and cells *)

Lemma dirty_in_app c c' : dirty_in (c ++ c') = (dirty_in c + dirty_in c')%nat.
Proof. unfold dirty_in. by rewrite List.filter_app, length_app. Qed.

Lemma dirty_in_cons e c :
  dirty_in (e :: c) = ((if is_dirty e then 1 else 0) + dirty_in c)%nat.
Proof. unfold dirty_in. simpl. by destruct (is_dirty e). Qed.

Lemma tile_ids_app c c' : tile_ids (c ++ c') = tile_ids c ++ tile_ids c'.
Proof. apply omap_app. Qed.

Lemma dirty_in_le_tiles c : (dirty_in c ≤ length (tile_ids c))%nat.
Proof.
  induction c as [|[id st|j] c IH]; simpl; [done| |].
  - rewrite dirty_in_cons. unfold tile_ids in *. simpl. destruct (st =? 1); lia.
  - rewrite dirty_in_cons. unfold tile_ids in *. simpl. lia.
Qed.

Lemma dirty_in_existsb c :
  length (tile_ids c) = 1%nat →
  dirty_in c = if existsb is_dirty c then 1%nat else 0%nat.
Proof.
  intros Hone. pose proof (dirty_in_le_tiles c) as Hle. rewrite Hone in Hle.
  destruct (existsb is_dirty c) eqn:Hex.
  - apply existsb_exists in Hex as (e & He & Hd).
    assert (dirty_in c ≠ 0%nat); [|lia].
    unfold dirty_in. intros Hz. apply length_zero_iff_nil in Hz.
    assert (Hin : In e (List.filter is_dirty c)) by (apply filter_In; done).
    by rewrite Hz in Hin.
  - unfold dirty_in. destruct (List.filter is_dirty c) as [|e l] eqn:Hf; [done|].
    assert (Hin : In e (List.filter is_dirty c)) by (rewrite Hf; by left).
    apply filter_In in Hin as [He Hd].
    assert (existsb is_dirty c = true) by (apply existsb_exists; eauto). congruence.
Qed.

(** [clean_first] finds the first dirty tile and only changes its status. *)
Lemma clean_first_Some c c' :
  clean_first c = Some c' →
  ∃ l1 id l2, c = l1 ++ GridTile id 1 :: l2 ∧ c' = l1 ++ GridTile id 0 :: l2 ∧
              dirty_in l1 = 0%nat.
Proof.
  revert c'. induction c as [|[id st|j] c IH]; intros c' H; simpl in H; [done| |].
  - destruct (st =? 1) eqn:Hst.
    + apply Z.eqb_eq in Hst as ->. injection H as <-. by exists [], id, c.
    + destruct (clean_first c) as [c''|]; [|done]. injection H as <-.
      destruct (IH c'' eq_refl) as (l1 & id' & l2 & -> & -> & Hd).
      exists (GridTile id st :: l1), id', l2. repeat split.
      rewrite dirty_in_cons. simpl. by rewrite Hst.
  - destruct (clean_first c) as [c''|]; [|done]. injection H as <-.
    destruct (IH c'' eq_refl) as (l1 & id' & l2 & -> & -> & Hd).
    exists (RobotRef j :: l1), id', l2. repeat split.
    by rewrite dirty_in_cons.
Qed.

Lemma clean_first_None c : clean_first c = None ↔ dirty_in c = 0%nat.
Proof.
  induction c as [|[id st|j] c IH]; simpl; [done| |].
  - rewrite dirty_in_cons. simpl. destruct (st =? 1); [split; [done|lia]|].
    destruct (clean_first c); simpl in *; [split; [done|]|tauto].
    intros H. apply IH in H. done.
  - rewrite dirty_in_cons. simpl.
    destruct (clean_first c); simpl in *; [split; [done|]|tauto].
    intros H. apply IH in H. done.
Qed.

Lemma dirty_in_elem_of c id : GridTile id 1 ∈ c → dirty_in c ≠ 0%nat.
Proof.
  intros Hin Hz. unfold dirty_in in Hz. apply length_zero_iff_nil in Hz.
  assert (H : In (GridTile id 1) (List.filter is_dirty c)).
  { apply filter_In. split; [by apply list_elem_of_In|done]. }
  by rewrite Hz in H.
Qed.

Lemma clean_first_tiles c c' :
  clean_first c = Some c' → tile_ids c' = tile_ids c ∧ dirty_in c = S (dirty_in c').
Proof.
  intros (l1 & id & l2 & -> & -> & Hd)%clean_first_Some.
  rewrite !tile_ids_app, !dirty_in_app, !dirty_in_cons. simpl. split; [done|lia].
Qed.

Lemma remove_first_robot i c c' :
  Grid.remove_first (RobotRef i) c = Some c' →
  tile_ids c' = tile_ids c ∧ dirty_in c' = dirty_in c.
Proof.
  revert c'. induction c as [|e c IH]; intros c' H; simpl in H; [done|].
  destruct (decide (RobotRef i = e)) as [<-|Hne].
  - injection H as <-. by rewrite dirty_in_cons.
  - destruct (Grid.remove_first (RobotRef i) c) as [c''|]; [|done].
    injection H as <-. destruct (IH c'' eq_refl) as [Ht Hd].
    rewrite !dirty_in_cons, Hd. split; [|done].
    unfold tile_ids in *. simpl. destruct (tile_of e); [f_equal|]; exact Ht.
Qed.

Lemma contents_cell g p c : Grid.cell g p = Some c → contents g p = c.
Proof. unfold contents. by intros ->. Qed.

Lemma dirty_count_set_cell g p c c' :
  Grid.wf g → Grid.cell g p = Some c →
  (dirty_count (Grid.set_cell g p c') + dirty_in c = dirty_count g + dirty_in c')%nat.
Proof.
  intros Hwf Hc. pose proof (GridFacts.cell_Some_in_bounds _ _ _ Hc) as Hb.
  unfold dirty_count. simpl.
  pose proof (sum_list_with_update
                (fun q => dirty_in (contents g q))
                (fun q => dirty_in (contents (Grid.set_cell g p c') q))
                (coordinates (Grid.width g) (Grid.height g)) p
                (NoDup_coordinates _ _)) as H.
  simpl in H. rewrite GridFacts.contents_set_cell_eq, (contents_cell _ _ _ Hc) in H by done.
  apply H.
  - by apply coordinates_in_bounds.
  - intros q Hq. by rewrite GridFacts.contents_set_cell_ne.
Qed.

Lemma one_tile_set_cell g p c c' :
  Grid.wf g → Grid.cell g p = Some c → tile_ids c' = tile_ids c →
  one_tile_per_cell g → one_tile_per_cell (Grid.set_cell g p c').
Proof.
  intros Hwf Hc Ht Hone q Hq.
  pose proof (GridFacts.cell_Some_in_bounds _ _ _ Hc) as Hb.
  destruct (decide (p = q)) as [<-|Hne].
  - rewrite GridFacts.contents_set_cell_eq, Ht by done.
    rewrite <- (contents_cell _ _ _ Hc). by apply Hone.
  - rewrite GridFacts.contents_set_cell_ne by done. by apply Hone.
Qed.

Lemma tiles_inv_set_cell g n p c c' :
  tiles_inv g n → Grid.cell g p = Some c →
  tile_ids c' = tile_ids c → dirty_in c' = dirty_in c →
  tiles_inv (Grid.set_cell g p c') n.
Proof.
  intros (Hwf & Hone & Hn) Hc Ht Hd. split; [by apply GridFacts.wf_set_cell|].
  split; [by eapply one_tile_set_cell|].
  pose proof (dirty_count_set_cell g p c c' Hwf Hc). lia.
Qed.

Lemma tiles_inv_clean g n p c c' :
  tiles_inv g n → Grid.cell g p = Some c → clean_first c = Some c' →
  ∃ m, n = S m ∧ tiles_inv (Grid.set_cell g p c') m.
Proof.
  intros (Hwf & Hone & Hn) Hc [Ht Hd]%clean_first_tiles.
  pose proof (dirty_count_set_cell g p c c' Hwf Hc) as H.
  exists (dirty_count (Grid.set_cell g p c')). split; [lia|].
  split; [by apply GridFacts.wf_set_cell|]. split; [by eapply one_tile_set_cell|done].
Qed.

Lemma tiles_inv_place g n i p g' :
  tiles_inv g n → Grid.place g (RobotRef i) p = Ret g' → tiles_inv g' n.
Proof.
  intros Hinv. unfold Grid.place. destruct (Grid.cell g p) as [c|] eqn:Hc; [|done].
  intros [= <-]. eapply tiles_inv_set_cell; [done|done| |].
  - rewrite tile_ids_app. simpl. by rewrite app_nil_r.
  - rewrite dirty_in_app. simpl. unfold dirty_in at 2. simpl. lia.
Qed.

Lemma tiles_inv_remove g n i p g' :
  tiles_inv g n → Grid.remove g (RobotRef i) p = Ret g' → tiles_inv g' n.
Proof.
  intros Hinv. unfold Grid.remove. destruct (Grid.cell g p) as [c|] eqn:Hc; [|done].
  destruct (Grid.remove_first (RobotRef i) c) as [c'|] eqn:Hr; [|done].
  intros [= <-]. apply remove_first_robot in Hr as [Ht Hd].
  by eapply tiles_inv_set_cell.
Qed.

Lemma tiles_inv_move g n i from to g' :
  tiles_inv g n → Grid.move g (RobotRef i) from to = Ret g' → tiles_inv g' n.
Proof.
  intros Hinv. unfold Grid.move. destruct (Grid.out_of_bounds g to); [done|].
  destruct (Grid.remove g (RobotRef i) from) as [g1|] eqn:Hr; [|done].
  intros Hp. eapply tiles_inv_place; [|done]. by eapply tiles_inv_remove.
Qed.

(** ** Facts about loops *)

Section ForEach.
Context {S A : Type}.
Implicit Types (l : list A) (body : A → M S unit) (s : S).

Lemma for_each_inv (P : S → Prop) l body s :
  (∀ a s', a ∈ l → P s' → P (body a s').1) → P s → P (for_each l body s).1.
Proof.
  revert s. induction l as [|a l IH]; intros s Hbody Hs; simpl; [done|].
  unfold bind. pose proof (Hbody a s (list_elem_of_here _ _) Hs) as Ha.
  destruct (body a s) as [s' [[]|e]]; simpl in *; [|done].
  apply IH; [|done]. intros b s'' Hb. apply Hbody. by right.
Qed.

Lemma for_each_ext l body body' s :
  (∀ a s', body a s' = body' a s') → for_each l body s = for_each l body' s.
Proof.
  intros H. revert s. induction l as [|a l IH]; intros s; simpl; [done|].
  unfold bind. rewrite H. destruct (body' a s) as [s' [[]|e]]; [|done]. apply IH.
Qed.

Lemma for_each_app l l' body s :
  for_each (l ++ l') body s = bind (for_each l body) (fun _ => for_each l' body) s.
Proof.
  revert s. induction l as [|a l IH]; intros s; simpl; [done|].
  unfold bind in *. destruct (body a s) as [s' [[]|e]]; [|done]. apply IH.
Qed.

Lemma for_each_map {B} (g : B → A) (k : list B) body s :
  for_each (map g k) body s = for_each k (fun b => body (g b)) s.
Proof.
  revert s. induction k as [|b k IH]; intros s; simpl; [done|].
  unfold bind. destruct (body (g b) s) as [s' [[]|e]]; [|done]. apply IH.
Qed.

Lemma for_each_flat_map {B} (f : B → list A) (k : list B) body s :
  for_each (flat_map f k) body s = for_each k (fun b => for_each (f b) body) s.
Proof.
  revert s. induction k as [|b k IH]; intros s; simpl; [done|].
  rewrite for_each_app. unfold bind.
  destruct (for_each (f b) body s) as [s' [[]|e]]; [|done]. apply IH.
Qed.

End ForEach.

(** The loop that creates the tiles, the same in both constructors. *)
Section TileLoop.
Context {S : Type} (getg : S → Grid.t) (setg : Grid.t → S → S).
Context (place_tile : list Pos → Z → Z → M S unit).
Hypothesis getg_setg : ∀ g s, getg (setg g s) = g.
Hypothesis setg_getg : ∀ s, setg (getg s) s = s.
Hypothesis setg_setg : ∀ g g' s, setg g' (setg g s) = setg g' s.
Hypothesis place_tile_unfold : ∀ dp x y s,
  place_tile dp x y s =
  match Grid.place (getg s) (GridTile (x, y) (tile_status dp (x, y))) (x, y) with
  | Ret g => (setg g s, Ret tt)
  | Raise e => (s, Raise e)
  end.

Lemma tile_loop_flat dp w h s :
  for_each (range w) (fun x => for_each (range h) (fun y => place_tile dp x y)) s =
  for_each (coordinates w h) (fun p => place_tile dp p.1 p.2) s.
Proof.
  unfold coordinates. rewrite for_each_flat_map. apply for_each_ext.
  intros x s'. by rewrite for_each_map.
Qed.

Lemma tile_list dp ps s :
  NoDup ps → Grid.wf (getg s) →
  (∀ p, p ∈ ps → Grid.out_of_bounds (getg s) p = false) →
  ∃ g', for_each ps (fun p => place_tile dp p.1 p.2) s = (setg g' s, Ret tt) ∧
        Grid.wf g' ∧ Grid.width g' = Grid.width (getg s) ∧
        Grid.height g' = Grid.height (getg s) ∧
        ∀ q, contents g' q =
             contents (getg s) q ++
             (if bool_decide (q ∈ ps) then [GridTile q (tile_status dp q)] else []).
Proof.
  revert s. induction ps as [|p ps IH]; intros s Hnd Hwf Hb.
  - exists (getg s). rewrite setg_getg. split; [done|]. split; [done|].
    split; [done|]. split; [done|].
    intros q. rewrite bool_decide_eq_false_2 by apply not_elem_of_nil.
    by rewrite app_nil_r.
  - apply NoDup_cons in Hnd as [Hp Hnd]. simpl. unfold bind.
    rewrite place_tile_unfold. destruct p as [x y]. simpl.
    assert (Hxy : Grid.out_of_bounds (getg s) (x, y) = false) by (apply Hb; left).
    destruct (GridFacts.wf_cell_is_Some _ _ Hwf Hxy) as [c Hc].
    unfold Grid.place. rewrite Hc.
    set (g1 := Grid.set_cell (getg s) (x, y) _).
    assert (Hwf1 : Grid.wf (getg (setg g1 s))).
    { rewrite getg_setg. by apply GridFacts.wf_set_cell. }
    assert (Hb1 : ∀ q, q ∈ ps → Grid.out_of_bounds (getg (setg g1 s)) q = false).
    { intros q Hq. rewrite getg_setg. apply Hb. by right. }
    destruct (IH (setg g1 s) Hnd Hwf1 Hb1) as (g' & Hrun & Hwf' & Hw & Hh & Hcont).
    exists g'. rewrite Hrun, setg_setg. rewrite getg_setg in Hw, Hh, Hcont.
    split; [done|]. split; [done|]. split; [done|]. split; [done|].
    intros q. rewrite Hcont. destruct (decide (q = (x, y))) as [->|Hne].
      * unfold g1. rewrite GridFacts.contents_set_cell_eq by done.
        rewrite (contents_cell _ _ _ Hc).
        rewrite (bool_decide_eq_false_2 ((x, y) ∈ ps)) by done.
        rewrite (bool_decide_eq_true_2 ((x, y) ∈ (x, y) :: ps)) by left.
        by rewrite app_nil_r.
      * unfold g1. rewrite GridFacts.contents_set_cell_ne by done.
        f_equal. destruct (decide (q ∈ ps)) as [Hin|Hnin].
        -- rewrite !bool_decide_eq_true_2; [done|by right|done].
        -- rewrite !bool_decide_eq_false_2; [done| |done].
           intros [?|?]%elem_of_cons; done.
Qed.

(** After the loop every cell of a fresh grid holds its own tile, dirty
    exactly at the sampled coordinates. *)
Lemma tile_loop dp w h s :
  getg s = Grid.MultiGrid w h →
  ∃ g', for_each (range w) (fun x => for_each (range h) (fun y => place_tile dp x y)) s
        = (setg g' s, Ret tt) ∧
        Grid.wf g' ∧ Grid.width g' = w ∧ Grid.height g' = h ∧
        ∀ q, Grid.out_of_bounds g' q = false →
             contents g' q = [GridTile q (tile_status dp q)].
Proof.
  intros Hg. rewrite tile_loop_flat.
  destruct (tile_list dp (coordinates w h) s) as (g' & Hrun & Hwf & Hw & Hh & Hcont).
  - apply NoDup_coordinates.
  - rewrite Hg. apply GridFacts.wf_MultiGrid.
  - intros p Hp. apply coordinates_in_bounds. by rewrite Hg.
  - rewrite Hg in Hw, Hh, Hcont. simpl in Hw, Hh. exists g'.
    split; [done|]. split; [done|]. split; [done|]. split; [done|].
    intros q Hq. rewrite Hcont.
    assert (Hq' : Grid.out_of_bounds (Grid.MultiGrid w h) q = false).
    { apply GridFacts.in_bounds_iff. apply GridFacts.in_bounds_iff in Hq.
      simpl. by rewrite <- Hw, <- Hh. }
    unfold contents at 1. rewrite GridFacts.cell_MultiGrid by done. simpl.
    rewrite bool_decide_eq_true_2; [done|].
    by apply (coordinates_in_bounds (Grid.MultiGrid w h)).
Qed.

(** Such a grid has as many dirty tiles as there are sampled coordinates. *)
Lemma fresh_tiles_inv dp g :
  Grid.wf g →
  (∀ q, Grid.out_of_bounds g q = false → contents g q = [GridTile q (tile_status dp q)]) →
  NoDup dp → (∀ p, p ∈ dp → p ∈ coordinates (Grid.width g) (Grid.height g)) →
  tiles_inv g (length dp).
Proof.
  intros Hwf Hcont Hnd Hsub. split; [done|]. split.
  - intros q Hq. by rewrite Hcont.
  - unfold dirty_count. rewrite <- (count_members dp (coordinates (Grid.width g) (Grid.height g)));
      [|done|apply NoDup_coordinates|done].
    apply sum_list_with_agree. intros q Hq.
    rewrite Hcont by (by apply coordinates_in_bounds).
    unfold tile_status, dirty_in. simpl. by destruct (bool_decide (q ∈ dp)).
Qed.

End TileLoop.

(** ** Facts about [main.py] *)

Module MainFacts.
Import Main.

Ltac run :=
  unfold robot_step, randomMove, move_agent, place_agent, robot_pos, robot,
    update_robot, random_choice, bind, ret, raise, get, modify, lift;
  simpl.

Lemma grid_set_grid g s : grid (set_grid g s) = g.
Proof. done. Qed.
Lemma set_grid_grid s : set_grid (grid s) s = s.
Proof. by destruct s. Qed.
Lemma set_grid_set_grid g g' s : set_grid g' (set_grid g s) = set_grid g' s.
Proof. done. Qed.

(** A robot's activation leaves the settings of the simulation alone. *)
Lemma robot_step_settings i s : settings (robot_step i s).1 = settings s.
Proof. run. repeat (case_match; simpl; simplify_eq); done. Qed.

Lemma robot_step_other i j s :
  i ≠ j → schedule (robot_step i s).1 !! j = schedule s !! j.
Proof.
  intros Hne. run.
  repeat (case_match; simpl; simplify_eq); rewrite ?list_lookup_alter_ne; done.
Qed.

Lemma robot_step_cleanCells i s :
  cleanCells s ≤ cleanCells (robot_step i s).1 ≤ cleanCells s + 1.
Proof.
  run. repeat (case_match; simpl; simplify_eq);
    unfold set_schedule, set_grid, set_random, set_cleanCells; simpl; lia.
Qed.

Lemma robot_step_Inv i s : Inv s → Inv (robot_step i s).1.
Proof.
  intros (n & Ht & Hc & H0). run.
  repeat (case_match; simpl; simplify_eq); try (by exists n).
  - unfold Grid.get_cell_list_contents in *.
    match goal with
    | H : clean_first ?c0 = Some ?c1 |- context [Grid.set_cell (grid ?s0) ?p0 ?c1] =>
        destruct (Grid.cell (grid s0) p0) as [c2|] eqn:Hcell; simplify_eq;
        destruct (tiles_inv_clean _ _ _ _ _ Ht Hcell H) as (m & -> & Hm)
    end.
    exists m. split; [done|]. simpl. lia.
  - exists n. split; [|done]. simpl. by eapply tiles_inv_move.
Qed.

(** Whatever the setters of [random], [running] and [stepsExecuted] and
    the activation of a robot preserve, a round and a step preserve. *)
Lemma schedule_step_preserves (P : CleaningSimulation → Prop) s :
  (∀ r s', P s' → P (set_random r s')) →
  (∀ i s', P s' → P (robot_step i s').1) →
  P s → P (schedule_step s).1.
Proof.
  intros Hr Hi Hs. unfold schedule_step, bind.
  destruct (shuffle (seq 0 (length (schedule s))) (random s)) as [keys r].
  apply for_each_inv; [|by apply Hr]. intros i s' _. apply Hi.
Qed.

Lemma step_finished now now' s :
  finished now s = true →
  step now now' s = (set_running false s,
                     match (getStatistics now' s).2 with
                     | Ret stats => Ret (Some stats)
                     | Raise e => Raise e
                     end).
Proof.
  intros Hf. unfold step, bind, get, modify, ret. rewrite Hf.
  unfold getStatistics. simpl. by destruct (initialDirtyCells s =? 0).
Qed.

Lemma step_unfinished now now' s :
  finished now s = false →
  (step now now' s).1 =
  match schedule_step s with
  | (s', Ret _) => set_stepsExecuted (stepsExecuted s' + 1) s'
  | (s', Raise _) => s'
  end.
Proof.
  intros Hf. unfold step, bind, get, modify, ret. rewrite Hf.
  by destruct (schedule_step s) as [s' [[]|e]].
Qed.

Lemma step_preserves (P : CleaningSimulation → Prop) now now' s :
  (∀ b s', P s' → P (set_running b s')) →
  (∀ r s', P s' → P (set_random r s')) →
  (∀ n s', P s' → P (set_stepsExecuted n s')) →
  (∀ i s', P s' → P (robot_step i s').1) →
  P s → P (step now now' s).1.
Proof.
  intros Hb Hr Hn Hi Hs. destruct (finished now s) eqn:Hf.
  - rewrite step_finished by done. by apply Hb.
  - rewrite step_unfinished by done.
    pose proof (schedule_step_preserves P s Hr Hi Hs) as H.
    destruct (schedule_step s) as [s' [[]|e]]; simpl in *; [by apply Hn|done].
Qed.

Lemma step_Inv now now' s : Inv s → Inv (step now now' s).1.
Proof.
  apply step_preserves; try done. intros i s'. apply robot_step_Inv.
Qed.

Lemma step_constants now now' s : constants (step now now' s).1 = constants s.
Proof.
  apply (step_preserves (fun s' => constants s' = constants s)); try done.
  intros i s' <-. pose proof (robot_step_settings i s') as H.
  unfold settings, constants in *. congruence.
Qed.

Lemma step_cleanCells now now' s : cleanCells s ≤ cleanCells (step now now' s).1.
Proof.
  apply (step_preserves (fun s' => cleanCells s ≤ cleanCells s')).
  - intros b s' H. exact H.
  - intros r s' H. exact H.
  - intros n s' H. exact H.
  - intros i s' H. pose proof (robot_step_cleanCells i s'). lia.
  - lia.
Qed.


Lemma reaches_Inv s0 s : Inv s0 → reaches s0 s → Inv s.
Proof. intros H0. induction 1; [done|]. by apply step_Inv. Qed.

Lemma reaches_constants s0 s : reaches s0 s → constants s = constants s0.
Proof. induction 1; [done|]. by rewrite step_constants. Qed.

Lemma reaches_cleanCells s0 s : reaches s0 s → cleanCells s0 ≤ cleanCells s.
Proof.
  induction 1 as [|s now now' _ IH]; [done|].
  pose proof (step_cleanCells now now' s). lia.
Qed.

(** *** The constructor *)

Lemma create_tiles_spec dp s :
  grid s = Grid.MultiGrid (gridWidth s) (gridHeight s) →
  ∃ g', create_tiles dp s = (set_grid g' s, Ret tt) ∧
        Grid.wf g' ∧ Grid.width g' = gridWidth s ∧ Grid.height g' = gridHeight s ∧
        ∀ q, Grid.out_of_bounds g' q = false →
             contents g' q = [GridTile q (tile_status dp q)].
Proof.
  intros Hg. unfold create_tiles, bind, get.
  by apply (tile_loop grid set_grid place_tile grid_set_grid set_grid_grid
                      set_grid_set_grid).
Qed.

Lemma place_agent_tiles i p s n :
  tiles_inv (grid s) n → tiles_inv (grid (place_agent i p s).1) n.
Proof.
  intros Ht. unfold place_agent.
  destruct (Grid.place (grid s) (RobotRef i) p) as [g|e] eqn:Hp; [|done].
  simpl. by eapply tiles_inv_place.
Qed.

Lemma place_robots_preserves (P : CleaningSimulation → Prop) s :
  (∀ l s', P s' → P (set_schedule l s')) →
  (∀ i p s', P s' → P (place_agent i p s').1) →
  P s → P (place_robots s).1.
Proof.
  intros Hl Hp Hs. unfold place_robots, bind at 1, get.
  apply for_each_inv; [|done]. intros i s' _ Hs'.
  unfold bind, modify. apply Hp. by apply Hl.
Qed.

Lemma place_robots_none s : robotCount s ≤ 0 → place_robots s = (s, Ret tt).
Proof.
  intros Hn. unfold place_robots, bind, get, range.
  by replace (Z.to_nat (robotCount s)) with 0%nat by lia.
Qed.

Lemma range_pos n : 1 ≤ n → ∃ l, range n = 0 :: l.
Proof.
  intros Hn. unfold range. destruct (Z.to_nat n) as [|k] eqn:Hk; [lia|].
  simpl. eauto.
Qed.

(** With [(1, 1)] outside the grid the first placement raises. *)
Lemma place_robots_out_of_bounds s :
  1 ≤ robotCount s → Grid.out_of_bounds (grid s) (1, 1) = true →
  (place_robots s).2 = Raise (GridIndexError 1 1).
Proof.
  intros Hn Hb. unfold place_robots, bind at 1, get.
  destruct (range_pos _ Hn) as [l ->]. simpl.
  unfold bind, modify, place_agent, Grid.place, Grid.cell. simpl. by rewrite Hb.
Qed.

Lemma place_robots_returns s :
  Grid.wf (grid s) → Grid.out_of_bounds (grid s) (1, 1) = false →
  (place_robots s).2 = Ret tt.
Proof.
  unfold place_robots, bind at 1, get. generalize (range (robotCount s)) as l.
  intros l. revert s. induction l as [|i l IH]; intros s Hwf Hb; simpl; [done|].
  unfold bind at 1. unfold bind at 1. unfold modify, place_agent, Grid.place. simpl.
  destruct (GridFacts.wf_cell_is_Some _ _ Hwf Hb) as [c ->].
  apply IH; simpl; [by apply GridFacts.wf_set_cell|done].
Qed.

Lemma init_overflow w h n p mt now g m e :
  int_times_float (w * h) p = Raise e →
  init w h n p mt now g m = (fresh w h n p mt now m 0, Raise e).
Proof. intros Hk. unfold init. by rewrite Hk. Qed.

Lemma init_sample_raises w h n p mt now g m k e :
  int_times_float (w * h) p = Ret k →
  (sample (coordinates w h) k g).1 = Raise e →
  init w h n p mt now g m = (fresh w h n p mt now m k, Raise e).
Proof.
  intros Hk Hs. unfold init. rewrite Hk.
  unfold setupEnvironment, bind, get, lift. simpl. by rewrite Hs.
Qed.

Lemma init_sampled w h n p mt now g m k dp :
  int_times_float (w * h) p = Ret k →
  (sample (coordinates w h) k g).1 = Ret dp →
  ∃ g1, init w h n p mt now g m = place_robots (set_grid g1 (fresh w h n p mt now m k)) ∧
        tiles_inv g1 (Z.to_nat k) ∧
        Grid.width g1 = w ∧ Grid.height g1 = h ∧
        ∀ q, Grid.out_of_bounds g1 q = false →
             contents g1 q = [GridTile q (tile_status dp q)].
Proof.
  intros Hcnt Hs. unfold init. rewrite Hcnt. unfold setupEnvironment, bind at 1, get.
  unfold bind at 1, lift. simpl. rewrite Hs.
  destruct (create_tiles_spec dp (fresh w h n p mt now m k) eq_refl)
    as (g1 & Hrun & Hwf & Hw & Hh & Hcont).
  unfold bind. rewrite Hrun. exists g1. split; [done|].
  apply sample_Ret in Hs as (Hlen & Hk & Hsub & Hnd).
  split; [|done]. rewrite <- Hlen. apply (fresh_tiles_inv dp); [done|done| |].
  - apply Hnd, NoDup_coordinates.
  - simpl in Hw, Hh. by rewrite Hw, Hh.
Qed.

(** A constructor that returns has computed its number of dirty cells. *)
Lemma new_count w h n p mt now g m s0 :
  new w h n p mt now g m = Ret s0 → ∃ k, int_times_float (w * h) p = Ret k.
Proof.
  unfold new. intros Hnew.
  destruct (int_times_float (w * h) p) as [k|e] eqn:Hk; [by exists k|].
  by rewrite (init_overflow _ _ _ _ _ _ _ _ _ Hk) in Hnew.
Qed.

Lemma new_Ret w h n p mt now g m s0 :
  new w h n p mt now g m = Ret s0 →
  Inv s0 ∧ cleanCells s0 = 0 ∧ running s0 = true ∧ stepsExecuted s0 = 0 ∧
  constants s0 = (n, w, h, mt, now, p, initialDirtyCells s0) ∧
  0 ≤ initialDirtyCells s0 ∧
  Grid.width (grid s0) = w ∧ Grid.height (grid s0) = h ∧
  int_times_float (w * h) p = Ret (initialDirtyCells s0).
Proof.
  intros Hnew. destruct (new_count _ _ _ _ _ _ _ _ _ Hnew) as [k Hcount].
  revert Hnew. unfold new. intros Hnew.
  destruct (sample (coordinates w h) k g).1 as [dp|e] eqn:Hs.
  - destruct (init_sampled w h n p mt now g m k dp Hcount Hs)
      as (g1 & Hinit & Ht & Hw & Hh & _).
    rewrite Hinit in Hnew. clear Hinit.
    apply sample_Ret in Hs as (_ & Hk & _).
    set (s1 := set_grid g1 (fresh w h n p mt now m k)) in *.
    pose proof (place_robots_preserves
      (fun s' => tiles_inv (grid s') (Z.to_nat k) ∧
                 cleanCells s' = 0 ∧ settings s' = settings s1 ∧
                 Grid.width (grid s') = w ∧ Grid.height (grid s') = h) s1) as H.
    destruct (place_robots s1) as [s' [[]|e]]; [|done]. injection Hnew as ->.
    simpl in H. destruct H as (Ht' & Hc & Hset & Hw' & Hh').
    + done.
    + intros i q s' (Ht' & Hc & Hset & Hw' & Hh').
      split; [by apply place_agent_tiles|]. unfold place_agent.
      destruct (Grid.place (grid s') (RobotRef i) q) as [g2|e] eqn:Hp; [|done].
      simpl. repeat split; try done.
      all: unfold Grid.place in Hp; destruct (Grid.cell (grid s') q); by simplify_eq.
    + done.
    + unfold settings in Hset. simpl in Hset. injection Hset as ? ? ? ? ? ? ? ? ?.
      split; [exists (Z.to_nat k); repeat split; [apply Ht'..|lia|lia]|].
      unfold constants. repeat split; try done; try congruence; lia.
  - by rewrite (init_sample_raises _ _ _ _ _ _ _ _ _ _ Hcount Hs) in Hnew.
Qed.

Lemma reachable_Inv s : reachable s → Inv s.
Proof.
  intros (w & h & n & p & mt & now & g & m & s0 & Hnew & Hr).
  eapply reaches_Inv; [|done]. by apply new_Ret in Hnew as [? _].
Qed.

End MainFacts.

(** ** Facts about [cleaning_robot.py] *)

Module Cleaning_robotFacts.
Import Cleaning_robot.

Ltac run :=
  unfold robot_step, random_move, move_agent, place_agent, robot_pos,
    random_choice, bind, ret, raise, get, modify, lift;
  simpl.

Lemma rb_grid_set_grid g s : grid (set_grid g s) = g.
Proof. done. Qed.
Lemma rb_set_grid_grid s : set_grid (grid s) s = s.
Proof. by destruct s. Qed.
Lemma rb_set_grid_set_grid g g' s : set_grid g' (set_grid g s) = set_grid g' s.
Proof. done. Qed.

Lemma rb_robot_step_settings i s : settings (robot_step i s).1 = settings s.
Proof. run. repeat (case_match; simpl; simplify_eq); done. Qed.

Lemma rb_robot_step_Inv i s : Inv s → Inv (robot_step i s).1.
Proof.
  intros (n & Ht). run.
  repeat (case_match; simpl; simplify_eq); try (by exists n).
  - unfold Grid.get_cell_list_contents in *.
    match goal with
    | H : clean_first ?c0 = Some ?c1 |- context [Grid.set_cell (grid ?s0) ?p0 ?c1] =>
        destruct (Grid.cell (grid s0) p0) as [c2|] eqn:Hcell; simplify_eq;
        destruct (tiles_inv_clean _ _ _ _ _ Ht Hcell H) as (m & -> & Hm)
    end.
    by exists m.
  - exists n. simpl. by eapply tiles_inv_move.
Qed.

Lemma rb_schedule_step_preserves (P : CleaningSimulation → Prop) s :
  (∀ r s', P s' → P (set_random r s')) →
  (∀ i s', P s' → P (robot_step i s').1) →
  P s → P (schedule_step s).1.
Proof.
  intros Hr Hi Hs. unfold schedule_step, bind.
  destruct (shuffle (seq 0 (length (schedule s))) (random s)) as [keys r].
  apply for_each_inv; [|by apply Hr]. intros i s' _. apply Hi.
Qed.

Lemma rb_step_finished s :
  steps_remaining s ≤ 0 → step s = (set_running false s, Ret tt).
Proof.
  intros Hf. unfold step, bind, get, modify.
  by rewrite (proj2 (Z.leb_le _ _) Hf).
Qed.

Lemma rb_step_unfinished s :
  0 < steps_remaining s →
  (step s).1 =
  match schedule_step s with
  | (s', Ret _) => set_steps_remaining (steps_remaining s' - 1) s'
  | (s', Raise _) => s'
  end.
Proof.
  intros Hf. unfold step, bind, get, modify.
  rewrite (proj2 (Z.leb_gt _ _) Hf). by destruct (schedule_step s) as [s' [[]|e]].
Qed.

Lemma rb_step_Inv s : Inv s → Inv (step s).1.
Proof.
  intros Hs. destruct (Z_le_gt_dec (steps_remaining s) 0) as [Hf|Hf].
  - by rewrite rb_step_finished.
  - rewrite rb_step_unfinished by lia.
    pose proof (rb_schedule_step_preserves Inv s) as H.
    destruct (schedule_step s) as [s' [[]|e]]; simpl in *; apply H; try done.
    all: intros i s''; apply rb_robot_step_Inv.
Qed.

Lemma rb_reaches_Inv s0 s : Inv s0 → reaches s0 s → Inv s.
Proof. intros H0. induction 1; [done|]. by apply rb_step_Inv. Qed.

(** *** The constructor *)

Lemma rb_create_tiles_spec w h dp m sr :
  ∃ g', create_tiles w h dp (fresh w h sr m) = (set_grid g' (fresh w h sr m), Ret tt) ∧
        Grid.wf g' ∧ Grid.width g' = w ∧ Grid.height g' = h ∧
        ∀ q, Grid.out_of_bounds g' q = false →
             contents g' q = [GridTile q (tile_status dp q)].
Proof.
  unfold create_tiles.
  by apply (tile_loop grid set_grid place_tile rb_grid_set_grid rb_set_grid_grid
                      rb_set_grid_set_grid).
Qed.

Lemma rb_place_agent_tiles i p s n :
  tiles_inv (grid s) n → tiles_inv (grid (place_agent i p s).1) n.
Proof.
  intros Ht. unfold place_agent.
  destruct (Grid.place (grid s) (RobotRef i) p) as [g|e] eqn:Hp; [|done].
  simpl. by eapply tiles_inv_place.
Qed.

Lemma rb_place_robots_preserves (P : CleaningSimulation → Prop) n s :
  (∀ l s', P s' → P (set_schedule l s')) →
  (∀ i p s', P s' → P (place_agent i p s').1) →
  P s → P (place_robots n s).1.
Proof.
  intros Hl Hp Hs. unfold place_robots.
  apply for_each_inv; [|done]. intros i s' _ Hs'.
  unfold bind, modify. apply Hp. by apply Hl.
Qed.

Lemma rb_place_robots_none n s : n ≤ 0 → place_robots n s = (s, Ret tt).
Proof.
  intros Hn. unfold place_robots, range.
  by replace (Z.to_nat n) with 0%nat by lia.
Qed.

Lemma rb_place_robots_out_of_bounds n s :
  1 ≤ n → Grid.out_of_bounds (grid s) (1, 1) = true →
  (place_robots n s).2 = Raise (GridIndexError 1 1).
Proof.
  intros Hn Hb. unfold place_robots.
  destruct (MainFacts.range_pos _ Hn) as [l ->]. simpl.
  unfold bind, modify, place_agent, Grid.place, Grid.cell. simpl. by rewrite Hb.
Qed.

Lemma rb_place_robots_returns n s :
  Grid.wf (grid s) → Grid.out_of_bounds (grid s) (1, 1) = false →
  (place_robots n s).2 = Ret tt.
Proof.
  unfold place_robots. generalize (range n) as l.
  intros l. revert s. induction l as [|i l IH]; intros s Hwf Hb; simpl; [done|].
  unfold bind at 1. unfold bind at 1. unfold modify, place_agent, Grid.place. simpl.
  destruct (GridFacts.wf_cell_is_Some _ _ Hwf Hb) as [c ->].
  apply IH; simpl; [by apply GridFacts.wf_set_cell|done].
Qed.

Lemma rb_init_overflow n w h sr p g m e :
  int_times_float (w * h) p = Raise e →
  init n w h sr p g m = (fresh w h sr m, Raise e).
Proof. intros Hk. unfold init, bind, lift. simpl. by rewrite Hk. Qed.

Lemma rb_init_sample_raises n w h sr p g m k e :
  int_times_float (w * h) p = Ret k →
  (sample (coordinates w h) k g).1 = Raise e →
  init n w h sr p g m = (fresh w h sr m, Raise e).
Proof.
  intros Hk Hs. unfold init, bind, lift. simpl. rewrite Hk. by rewrite Hs.
Qed.

Lemma rb_init_sampled n w h sr p g m k dp :
  int_times_float (w * h) p = Ret k →
  (sample (coordinates w h) k g).1 = Ret dp →
  ∃ g1, init n w h sr p g m = place_robots n (set_grid g1 (fresh w h sr m)) ∧
        tiles_inv g1 (Z.to_nat k) ∧
        Grid.width g1 = w ∧ Grid.height g1 = h ∧
        ∀ q, Grid.out_of_bounds g1 q = false →
             contents g1 q = [GridTile q (tile_status dp q)].
Proof.
  intros Hcnt Hs. unfold init, bind at 1, lift. simpl. rewrite Hcnt.
  unfold bind at 1. rewrite Hs.
  destruct (rb_create_tiles_spec w h dp m sr) as (g1 & Hrun & Hwf & Hw & Hh & Hcont).
  unfold bind. rewrite Hrun. exists g1. split; [done|].
  apply sample_Ret in Hs as (Hlen & Hk & Hsub & Hnd).
  split; [|done]. rewrite <- Hlen. apply (fresh_tiles_inv dp); [done|done| |].
  - apply Hnd, NoDup_coordinates.
  - by rewrite Hw, Hh.
Qed.

Lemma rb_new_count n w h sr p g m s0 :
  new n w h sr p g m = Ret s0 → ∃ k, int_times_float (w * h) p = Ret k.
Proof.
  unfold new. intros Hnew.
  destruct (int_times_float (w * h) p) as [k|e] eqn:Hk; [by exists k|].
  by rewrite (rb_init_overflow _ _ _ _ _ _ _ _ Hk) in Hnew.
Qed.

End Cleaning_robotFacts.

(** ** The claims *)

Lemma demo_new : Main.new 5 5 1 (double (1 # 5)) 60 0 demo_global demo_model = Ret demo.
Proof. vm_compute. reflexivity. Qed.

Lemma demo_reachable : Main.reachable demo.
Proof.
  exists 5, 5, 1, (double (1 # 5)), 60%Q, 0%Q, demo_global, demo_model, demo.
  split; [apply demo_new|constructor].
Qed.

(** The percentage [getStatistics] reports is [100 * cleanCells /
    initialDirtyCells] whenever [initialDirtyCells] is not 0. *)
Lemma getStatistics_percentage now s :
  Main.initialDirtyCells s ≠ 0 →
  ∃ stats, Main.getStatistics now s = (s, Ret stats) ∧
           (Main.PorcentajeCompletado stats ==
            100 * inject_Z (Main.cleanCells s) / inject_Z (Main.initialDirtyCells s))%Q.
Proof.
  intros Hd. unfold Main.getStatistics.
  rewrite (proj2 (Z.eqb_neq _ _) Hd). eexists. split; [done|]. simpl.
  field. intros H. apply Hd. revert H. unfold Qeq. simpl. lia.
Qed.

(** C1 (as the code has it): with no initially dirty cell, e.g. a
    simulation built with [dirtPercentage = 0], [getStatistics] raises
    [ZeroDivisionError] instead of reporting 0, and so does the first
    [step], which terminates the run and then asks for the statistics. *)
Theorem C1_zero_dirt_divides_by_zero :
  ∃ s, Main.new 5 5 1 0 60 0 demo_global demo_model = Ret s ∧
       Main.initialDirtyCells s = 0 ∧
       Main.getStatistics 1 s = (s, Raise ZeroDivisionError) ∧
       Main.step 1 1 s = (Main.set_running false s, Raise ZeroDivisionError).
Proof. eexists. split; [vm_compute; reflexivity|]. by vm_compute. Qed.

Lemma percentage_le_100 c d :
  0 ≤ c ≤ d → d ≠ 0 → (inject_Z c / inject_Z d * 100 <= 100)%Q.
Proof.
  intros Hc Hd.
  assert (H : (inject_Z c / inject_Z d <= 1)%Q).
  { apply Qle_shift_div_r.
    - change 0%Q with (inject_Z 0). rewrite <- Zlt_Qlt. lia.
    - rewrite Qmult_1_l, <- Zle_Qle. lia. }
  set (x := (inject_Z c / inject_Z d)%Q) in *. lra.
Qed.

(** C10: in the goal / time-budget variant, at every reachable state the
    counter of cleaned cells lies between 0 and the initial number of dirty
    cells, it accounts exactly for the tiles no longer dirty, a step never
    decreases it nor adds a dirty tile, and a reported completion percentage
    is at most 100. *)
Theorem C10_cleanCells_bounded (s : Main.CleaningSimulation) :
  Main.reachable s →
  0 ≤ Main.cleanCells s ≤ Main.initialDirtyCells s ∧
  Main.cleanCells s + Z.of_nat (dirty_count (Main.grid s)) = Main.initialDirtyCells s ∧
  (∀ now now',
     Main.cleanCells s ≤ Main.cleanCells (Main.step now now' s).1 ∧
     (dirty_count (Main.grid (Main.step now now' s).1) ≤ dirty_count (Main.grid s))%nat) ∧
  (∀ now stats,
     (Main.getStatistics now s).2 = Ret stats →
     (Main.PorcentajeCompletado stats <= 100)%Q).
Proof.
  intros Hr. pose proof (MainFacts.reachable_Inv s Hr) as (n & (Hwf & Hone & Hn) & Hc & H0).
  split; [lia|]. split; [lia|]. split.
  - intros now now'.
    pose proof (MainFacts.step_cleanCells now now' s) as Hmono.
    pose proof (MainFacts.step_constants now now' s) as Hconst.
    assert (Hinv' : Main.Inv (Main.step now now' s).1).
    { apply MainFacts.step_Inv. exists n. split; [|done]. split; [done|]. by split. }
    destruct Hinv' as (n' & (_ & _ & Hn') & Hc' & _).
    unfold Main.constants in Hconst. split; [done|].
    assert (Main.initialDirtyCells (Main.step now now' s).1 = Main.initialDirtyCells s)
      by congruence.
    lia.
  - intros now stats. unfold Main.getStatistics.
    destruct (Main.initialDirtyCells s =? 0) eqn:Hd; [done|].
    apply Z.eqb_neq in Hd. simpl. intros [= <-]. simpl.
    apply percentage_le_100; lia.
Qed.

Lemma step_demo_reachable : Main.reachable (Main.step 1 1 demo).1.
Proof.
  exists 5, 5, 1, (double (1 # 5)), 60%Q, 0%Q, demo_global, demo_model, demo.
  split; [apply demo_new|]. apply Main.reaches_step, Main.reaches_refl.
Defined.

Lemma C10_cleanCells_bounded_witness :
  0 ≤ Main.cleanCells (Main.step 1 1 demo).1 ≤ Main.initialDirtyCells (Main.step 1 1 demo).1.
Proof.
  exact (proj1 (C10_cleanCells_bounded (Main.step 1 1 demo).1 step_demo_reachable)).
Defined.


(** The constructor returns whenever the sample can be drawn and [(1, 1)]
    is a cell of the grid. *)
Lemma new_returns w h n p mt now g m k :
  2 ≤ w → 2 ≤ h → int_times_float (w * h) p = Ret k → 0 ≤ k ≤ w * h →
  ∃ s0, Main.new w h n p mt now g m = Ret s0.
Proof.
  intros Hw Hh Hcnt Hk.
  destruct (sample_succeeds (coordinates w h) k g) as [dp Hs].
  { rewrite length_coordinates. lia. }
  destruct (MainFacts.init_sampled w h n p mt now g m k dp Hcnt Hs)
    as (g1 & Hinit & (Hwf & _) & Hw1 & Hh1 & _).
  unfold Main.new. rewrite Hinit.
  pose proof (MainFacts.place_robots_returns
                (Main.set_grid g1 (Main.fresh w h n p mt now m k))) as Hret.
  destruct (Main.place_robots _) as [s' [[]|e]]; [by eexists|].
  simpl in Hret. discriminate Hret; [done|].
  apply GridFacts.in_bounds_iff. simpl. lia.
Qed.










(** *** Cleaning precedes moving *)

Lemma robot_step_cleans s i r p c c' :
  Main.schedule s !! i = Some r → Main.pos r = Some p →
  Grid.cell (Main.grid s) p = Some c → clean_first c = Some c' →
  Main.robot_step i s =
  (Main.set_cleanCells (Main.cleanCells s + 1)
     (Main.set_schedule (alter Main.incr_cellsCleaned i (Main.schedule s))
        (Main.set_grid (Grid.set_cell (Main.grid s) p c') s)),
   Ret tt).
Proof.
  intros Hr Hp Hc Hcf.
  unfold Main.robot_step, Main.robot_pos, Main.robot, bind, ret. rewrite Hr, Hp.
  unfold Grid.get_cell_list_contents. rewrite Hc, Hcf. reflexivity.
Qed.

Lemma position_other i j s :
  i ≠ j → Main.position j (Main.robot_step i s).1 = Main.position j s.
Proof.
  intros Hne. unfold Main.position. by rewrite MainFacts.robot_step_other.
Qed.

Lemma position_for_each keys j s :
  j ∉ keys → Main.position j (for_each keys Main.robot_step s).1 = Main.position j s.
Proof.
  intros Hj.
  apply (for_each_inv (fun s' => Main.position j s' = Main.position j s)); [|done].
  intros i s' Hi <-. apply position_other. intros ->. done.
Qed.

Lemma shuffle_NoDup (l : list nat) (r : Rng) : NoDup l → NoDup (shuffle l r).1.
Proof. apply pick_NoDup. Qed.

(** C4 (amended): an activated robot that finds a dirty tile in its cell
    marks the first such tile clean, adds one to its own counter and to the
    simulation's counter, and keeps its coordinate; hence a robot whose cell
    holds a dirty tile at the moment it is activated has the same coordinate
    at the start and at the end of that round. *)
Theorem C4_cleaning_precedes_moving
    (s0 s : Main.CleaningSimulation) (before after : list nat) (rng : Rng)
    (i : nat) (r : Main.CleaningRobot) (p : Pos) (c : list Entity) (id : Pos) :
  shuffle (seq 0 (length (Main.schedule s0))) (Main.random s0) = (before ++ i :: after, rng) →
  for_each before Main.robot_step (Main.set_random rng s0) = (s, Ret tt) →
  Main.schedule s !! i = Some r → Main.pos r = Some p →
  Grid.cell (Main.grid s) p = Some c → GridTile id 1 ∈ c →
  ∃ l1 id' l2,
    c = l1 ++ GridTile id' 1 :: l2 ∧ dirty_in l1 = 0%nat ∧
    Main.robot_step i s =
      (Main.set_cleanCells (Main.cleanCells s + 1)
         (Main.set_schedule (alter Main.incr_cellsCleaned i (Main.schedule s))
            (Main.set_grid
               (Grid.set_cell (Main.grid s) p (l1 ++ GridTile id' 0 :: l2)) s)),
       Ret tt) ∧
    Main.position i (Main.robot_step i s).1 = Some p ∧
    Main.position i s0 = Some p ∧
    Main.position i (Main.schedule_step s0).1 = Some p.
Proof.
  intros Hshuffle Hbefore Hr Hp Hc Hid.
  destruct (clean_first c) as [c'|] eqn:Hcf;
    [|apply clean_first_None in Hcf; by apply dirty_in_elem_of in Hid].
  destruct (clean_first_Some _ _ Hcf) as (l1 & id' & l2 & Hc1 & Hc2 & Hd).
  exists l1, id', l2. split; [done|]. split; [done|].
  pose proof (robot_step_cleans s i r p c c' Hr Hp Hc Hcf) as Hstep.
  rewrite Hc2 in Hstep. split; [done|].
  assert (Hafter : Main.position i (Main.robot_step i s).1 = Some p).
  { rewrite Hstep. unfold Main.position. simpl.
    rewrite list_lookup_alter_eq, Hr. simpl. done. }
  split; [done|].
  pose proof (shuffle_NoDup (seq 0 (length (Main.schedule s0))) (Main.random s0)
                (NoDup_seq _ _)) as Hnd.
  rewrite Hshuffle in Hnd. simpl in Hnd.
  apply NoDup_app in Hnd as (_ & Hib & Hnd). apply NoDup_cons in Hnd as [Hia _].
  assert (Hib' : i ∉ before) by (intros Hin; apply (Hib i Hin); left).
  assert (Hs : Main.position i s = Some p).
  { unfold Main.position. rewrite Hr. done. }
  split.
  - pose proof (position_for_each before i (Main.set_random rng s0) Hib') as H.
    rewrite Hbefore in H. simpl in H. rewrite H in Hs. exact Hs.
  - unfold Main.schedule_step, bind at 1. rewrite Hshuffle.
    rewrite for_each_app. unfold bind at 1. rewrite Hbefore. simpl.
    unfold bind at 1.
    destruct (Main.robot_step i s) as [s' [[]|e]] eqn:Hs'; [|done].
    simpl in Hafter. by rewrite position_for_each.
Qed.

Lemma C4_cleaning_precedes_moving_witness :
  ∃ l1 id' l2,
    [GridTile (1, 1) 1; RobotRef 0] = l1 ++ GridTile id' 1 :: l2 ∧ dirty_in l1 = 0%nat ∧
    Main.robot_step 0 (Main.set_random [2; 3; 4; 5; 6; 7; 8]%nat demo_dirty) =
      (Main.set_cleanCells (Main.cleanCells (Main.set_random [2; 3; 4; 5; 6; 7; 8]%nat demo_dirty) + 1)
         (Main.set_schedule
            (alter Main.incr_cellsCleaned 0%nat
               (Main.schedule (Main.set_random [2; 3; 4; 5; 6; 7; 8]%nat demo_dirty)))
            (Main.set_grid
               (Grid.set_cell (Main.grid (Main.set_random [2; 3; 4; 5; 6; 7; 8]%nat demo_dirty))
                  (1, 1) (l1 ++ GridTile id' 0 :: l2))
               (Main.set_random [2; 3; 4; 5; 6; 7; 8]%nat demo_dirty))),
       Ret tt) ∧
    Main.position 0 (Main.robot_step 0 (Main.set_random [2; 3; 4; 5; 6; 7; 8]%nat demo_dirty)).1
      = Some (1, 1) ∧
    Main.position 0 demo_dirty = Some (1, 1) ∧
    Main.position 0 (Main.schedule_step demo_dirty).1 = Some (1, 1).
Proof.
  refine (C4_cleaning_precedes_moving demo_dirty
            (Main.set_random [2; 3; 4; 5; 6; 7; 8]%nat demo_dirty) [] []
            [2; 3; 4; 5; 6; 7; 8]%nat 0%nat (Main.mkRobot 0 (Some (1, 1)) 0 0) (1, 1)
            [GridTile (1, 1) 1; RobotRef 0] (1, 1) _ _ _ _ _ _).
  - vm_compute. reflexivity.
  - reflexivity.
  - vm_compute. reflexivity.
  - reflexivity.
  - vm_compute. reflexivity.
  - left.
Defined.

(** C4 (as stated, refuted): two robots start on the same dirty tile; in
    the first round robot 1 is activated first and cleans it, robot 0 then
    finds it clean and moves, although its tile was dirty at round start. *)
Lemma C4_counterexample :
  ¬ (∀ (s : Main.CleaningSimulation) (i : nat) (p id : Pos) (now now' : Q),
       Main.reachable s → Main.position i s = Some p →
       GridTile id 1 ∈ contents (Main.grid s) p →
       Main.position i (Main.step now now' s).1 = Some p).
Proof.
  intros H. specialize (H demo_pair 0%nat (1, 1) (1, 1) 1%Q 1%Q).
  assert (Hreach : Main.reachable demo_pair).
  { exists 3, 3, 2, 1%Q, 60%Q, 0%Q, [], demo_model, demo_pair.
    split; [vm_compute; reflexivity|constructor]. }
  assert (Hdirty : GridTile (1, 1) 1 ∈ contents (Main.grid demo_pair) (1, 1)).
  { vm_compute. left. }
  specialize (H Hreach eq_refl Hdirty). vm_compute in H. discriminate H.
Qed.

(** *** The tiles created by the constructors *)

(** On a grid of fewer than [2 ^ 53] cells, whose number a double holds
    exactly, and for a fraction between 0 and 1, [int(width * height *
    dirtPercentage)] is a number of cells of the grid: the floor or the
    ceiling of the exact product. *)
Lemma dirty_tiles_bounds w h p :
  0 ≤ w → 0 ≤ h → w * h < 2 ^ 53 → (0 <= p)%Q → (p <= 1)%Q →
  ∃ k, int_times_float (w * h) p = Ret k ∧ 0 ≤ k ≤ w * h ∧
       Qfloor (inject_Z (w * h) * p) ≤ k ≤ Qceiling (inject_Z (w * h) * p).
Proof.
  intros Hw Hh Hn Hp0 Hp1. apply int_times_float_spec; [|done|done].
  split; [by apply Z.mul_nonneg_nonneg|done].
Qed.

Lemma dirty_cells_length g :
  one_tile_per_cell g → length (dirty_cells g) = dirty_count g.
Proof.
  intros Hone. unfold dirty_cells, dirty_count. symmetry.
  apply sum_list_with_indicator. intros q Hq%coordinates_in_bounds.
  apply dirty_in_existsb. by rewrite Hone.
Qed.

Lemma NoDup_dirty_cells g : NoDup (dirty_cells g).
Proof.
  unfold dirty_cells. apply NoDup_ListNoDup, List.NoDup_filter, NoDup_ListNoDup.
  apply NoDup_coordinates.
Qed.

Lemma place_dims g e p g' :
  Grid.place g e p = Ret g' →
  Grid.width g' = Grid.width g ∧ Grid.height g' = Grid.height g.
Proof. unfold Grid.place. destruct (Grid.cell g p); [|done]. by intros [= <-]. Qed.

Lemma move_dims g e from to g' :
  Grid.move g e from to = Ret g' →
  Grid.width g' = Grid.width g ∧ Grid.height g' = Grid.height g.
Proof.
  unfold Grid.move, Grid.remove. destruct (Grid.out_of_bounds g to); [done|].
  destruct (Grid.cell g from); [|done].
  destruct (Grid.remove_first e l); [|done]. intros [-> ->]%place_dims. done.
Qed.

Lemma main_robot_step_dims i s :
  Grid.width (Main.grid (Main.robot_step i s).1) = Grid.width (Main.grid s) ∧
  Grid.height (Main.grid (Main.robot_step i s).1) = Grid.height (Main.grid s).
Proof.
  MainFacts.run. repeat (case_match; simpl; simplify_eq); try done.
  match goal with H : Grid.move _ _ _ _ = Ret _ |- _ => by apply move_dims in H end.
Qed.

Lemma main_reaches_dims s0 s :
  Main.reaches s0 s →
  Grid.width (Main.grid s) = Grid.width (Main.grid s0) ∧
  Grid.height (Main.grid s) = Grid.height (Main.grid s0).
Proof.
  induction 1 as [|s now now' _ IH]; [done|].
  apply (MainFacts.step_preserves
           (fun s' => Grid.width (Main.grid s') = Grid.width (Main.grid s0) ∧
                      Grid.height (Main.grid s') = Grid.height (Main.grid s0)));
    try done.
  intros i s' [<- <-]. apply main_robot_step_dims.
Qed.

Lemma round_budget_robot_step_dims i s :
  Grid.width (Cleaning_robot.grid (Cleaning_robot.robot_step i s).1)
    = Grid.width (Cleaning_robot.grid s) ∧
  Grid.height (Cleaning_robot.grid (Cleaning_robot.robot_step i s).1)
    = Grid.height (Cleaning_robot.grid s).
Proof.
  Cleaning_robotFacts.run. repeat (case_match; simpl; simplify_eq); try done.
  match goal with H : Grid.move _ _ _ _ = Ret _ |- _ => by apply move_dims in H end.
Qed.

Lemma round_budget_reaches_dims s0 s :
  Cleaning_robot.reaches s0 s →
  Grid.width (Cleaning_robot.grid s) = Grid.width (Cleaning_robot.grid s0) ∧
  Grid.height (Cleaning_robot.grid s) = Grid.height (Cleaning_robot.grid s0).
Proof.
  induction 1 as [|s _ IH]; [done|].
  destruct (Z_le_gt_dec (Cleaning_robot.steps_remaining s) 0) as [Hf|Hf].
  - by rewrite Cleaning_robotFacts.rb_step_finished.
  - rewrite Cleaning_robotFacts.rb_step_unfinished by lia.
    pose proof (Cleaning_robotFacts.rb_schedule_step_preserves
      (fun s' => Grid.width (Cleaning_robot.grid s') = Grid.width (Cleaning_robot.grid s0) ∧
                 Grid.height (Cleaning_robot.grid s') = Grid.height (Cleaning_robot.grid s0))
      s) as H.
    destruct (Cleaning_robot.schedule_step s) as [s' [[]|e]]; simpl in *; apply H; try done.
    all: intros i s'' [<- <-]; apply round_budget_robot_step_dims.
Qed.

(** The state [__init__] leaves behind, whether or not placing the robots
    raised, holds the freshly created tiles. *)
Lemma main_init_tiles w h n p mt now g m k :
  0 ≤ w → 0 ≤ h → int_times_float (w * h) p = Ret k → 0 ≤ k ≤ w * h →
  tiles_inv (Main.grid (Main.init w h n p mt now g m).1) (Z.to_nat k) ∧
  Grid.width (Main.grid (Main.init w h n p mt now g m).1) = w ∧
  Grid.height (Main.grid (Main.init w h n p mt now g m).1) = h.
Proof.
  intros Hw Hh Hcnt Hk.
  destruct (sample_succeeds (coordinates w h) k g) as [dp Hs].
  { rewrite length_coordinates. lia. }
  destruct (MainFacts.init_sampled w h n p mt now g m k dp Hcnt Hs)
    as (g1 & -> & Ht & Hw1 & Hh1 & _).
  apply (MainFacts.place_robots_preserves
    (fun s' => tiles_inv (Main.grid s') (Z.to_nat k) ∧
               Grid.width (Main.grid s') = w ∧ Grid.height (Main.grid s') = h)); try done.
  intros i q s' (Ht' & Hw' & Hh'). split; [by apply MainFacts.place_agent_tiles|].
  unfold Main.place_agent.
  destruct (Grid.place (Main.grid s') (RobotRef i) q) as [g2|e] eqn:Hp; [|done].
  apply place_dims in Hp as [Hpw Hph]. simpl. by rewrite Hpw, Hph.
Qed.

Lemma round_budget_init_tiles n w h sr p g m k :
  0 ≤ w → 0 ≤ h → int_times_float (w * h) p = Ret k → 0 ≤ k ≤ w * h →
  tiles_inv (Cleaning_robot.grid (Cleaning_robot.init n w h sr p g m).1) (Z.to_nat k) ∧
  Grid.width (Cleaning_robot.grid (Cleaning_robot.init n w h sr p g m).1) = w ∧
  Grid.height (Cleaning_robot.grid (Cleaning_robot.init n w h sr p g m).1) = h.
Proof.
  intros Hw Hh Hcnt Hk.
  destruct (sample_succeeds (coordinates w h) k g) as [dp Hs].
  { rewrite length_coordinates. lia. }
  destruct (Cleaning_robotFacts.rb_init_sampled n w h sr p g m k dp Hcnt Hs)
    as (g1 & -> & Ht & Hw1 & Hh1 & _).
  apply (Cleaning_robotFacts.rb_place_robots_preserves
    (fun s' => tiles_inv (Cleaning_robot.grid s') (Z.to_nat k) ∧
               Grid.width (Cleaning_robot.grid s') = w ∧
               Grid.height (Cleaning_robot.grid s') = h)); try done.
  intros i q s' (Ht' & Hw' & Hh'). split; [by apply Cleaning_robotFacts.rb_place_agent_tiles|].
  unfold Cleaning_robot.place_agent.
  destruct (Grid.place (Cleaning_robot.grid s') (RobotRef i) q) as [g2|e] eqn:Hp; [|done].
  apply place_dims in Hp as [Hpw Hph]. simpl. by rewrite Hpw, Hph.
Qed.

Lemma main_new_init w h n p mt now g m s0 :
  Main.new w h n p mt now g m = Ret s0 → s0 = (Main.init w h n p mt now g m).1.
Proof.
  unfold Main.new. destruct (Main.init w h n p mt now g m) as [s [[]|e]]; [|done].
  by intros [= <-].
Qed.

Lemma round_budget_new_init n w h sr p g m s0 :
  Cleaning_robot.new n w h sr p g m = Ret s0 →
  s0 = (Cleaning_robot.init n w h sr p g m).1.
Proof.
  unfold Cleaning_robot.new.
  destruct (Cleaning_robot.init n w h sr p g m) as [s [[]|e]]; [|done].
  by intros [= <-].
Qed.

(** The runs of the counterexample: 10 x 10 and 9 x 10, [dirtPercentage]
    the literal [0.7]. *)
Lemma seventy_tiles :
  ∃ s, Main.new 10 10 1 (double (7 # 10)) 60 0 [] [] = Ret s ∧
       dirty_count (Main.grid s) = 70%nat ∧
       Qfloor (inject_Z (10 * 10) * double (7 # 10)) = 69.
Proof. eexists. split; [vm_compute; reflexivity|]. split; vm_compute; reflexivity. Qed.

Lemma sixty_two_tiles :
  ∃ s, Main.new 9 10 1 (double (7 # 10)) 60 0 [] [] = Ret s ∧
       dirty_count (Main.grid s) = 62%nat ∧
       Qfloor (inject_Z (9 * 10) * (7 # 10)) = 63.
Proof. eexists. split; [vm_compute; reflexivity|]. split; vm_compute; reflexivity. Qed.

(** C5 (as stated, refuted): the number of dirty tiles is not the floor of
    [width * height * dirtPercentage].  On a 10 x 10 grid with
    [dirtPercentage = 0.7] the constructor makes 70 tiles dirty, while the
    product of 100 and the number that the float [0.7] denotes has floor
    69; on a 9 x 10 grid it makes 62 tiles dirty, while the floor of
    9 x 10 x 7/10 is 63. *)
Lemma C5_counterexample :
  ¬ (∀ w h n p mt now g m s,
       0 < w → 0 < h → (0 <= p)%Q → (p <= 1)%Q →
       Main.new w h n p mt now g m = Ret s →
       Z.of_nat (dirty_count (Main.grid s)) = Qfloor (inject_Z (w * h) * p)) ∧
  ¬ (∀ w h n d mt now g m s,
       0 < w → 0 < h → (0 <= d)%Q → (d <= 1)%Q →
       Main.new w h n (double d) mt now g m = Ret s →
       Z.of_nat (dirty_count (Main.grid s)) = Qfloor (inject_Z (w * h) * d)).
Proof.
  split; intros H.
  - destruct seventy_tiles as (s & Hnew & Hd & Hf).
    specialize (H 10 10 1 (double (7 # 10)) 60%Q 0%Q [] [] s ltac:(lia) ltac:(lia)
                  ltac:(by vm_compute) ltac:(by vm_compute) Hnew).
    rewrite Hd, Hf in H. discriminate H.
  - destruct sixty_two_tiles as (s & Hnew & Hd & Hf).
    specialize (H 9 10 1 (7 # 10) 60%Q 0%Q [] [] s ltac:(lia) ltac:(lia)
                  ltac:(by vm_compute) ltac:(by vm_compute) Hnew).
    rewrite Hd, Hf in H. discriminate H.
Qed.

(** C5 (amended): for valid [width], [height] and [dirtPercentage], on a
    grid of fewer than [2 ^ 53] cells, both constructors leave a [width] x
    [height] grid in which every coordinate holds exactly one tile, its
    own; the dirty tiles number [int(width * height * dirtPercentage)] as
    floating point computes it, which is the floor or the ceiling of the
    exact product and at most the number of cells; they sit at as many
    distinct coordinates; and every later state still holds, at every
    coordinate, exactly that one tile. *)
Theorem C5_tiles_created (w h : Z) (p : Q) :
  0 < w → 0 < h → w * h < 2 ^ 53 → (0 <= p)%Q → (p <= 1)%Q →
  ∃ k, int_times_float (w * h) p = Ret k ∧ 0 ≤ k ≤ w * h ∧
  Qfloor (inject_Z (w * h) * p) ≤ k ≤ Qceiling (inject_Z (w * h) * p) ∧
  (∀ n mt now g m,
     let s := (Main.init w h n p mt now g m).1 in
     Grid.width (Main.grid s) = w ∧ Grid.height (Main.grid s) = h ∧
     one_tile_per_cell (Main.grid s) ∧
     Z.of_nat (dirty_count (Main.grid s)) = k ∧
     NoDup (dirty_cells (Main.grid s)) ∧
     Z.of_nat (length (dirty_cells (Main.grid s))) = k ∧
     ∀ s0 s', Main.new w h n p mt now g m = Ret s0 → Main.reaches s0 s' →
              Grid.width (Main.grid s') = w ∧ Grid.height (Main.grid s') = h ∧
              one_tile_per_cell (Main.grid s')) ∧
  (∀ n sr g m,
     let s := (Cleaning_robot.init n w h sr p g m).1 in
     Grid.width (Cleaning_robot.grid s) = w ∧ Grid.height (Cleaning_robot.grid s) = h ∧
     one_tile_per_cell (Cleaning_robot.grid s) ∧
     Z.of_nat (dirty_count (Cleaning_robot.grid s)) = k ∧
     NoDup (dirty_cells (Cleaning_robot.grid s)) ∧
     Z.of_nat (length (dirty_cells (Cleaning_robot.grid s))) = k ∧
     ∀ s0 s', Cleaning_robot.new n w h sr p g m = Ret s0 → Cleaning_robot.reaches s0 s' →
              Grid.width (Cleaning_robot.grid s') = w ∧
              Grid.height (Cleaning_robot.grid s') = h ∧
              one_tile_per_cell (Cleaning_robot.grid s')).
Proof.
  intros Hw Hh Hn Hp0 Hp1.
  destruct (dirty_tiles_bounds w h p) as (k & Hcnt & Hk & Hfloor); [lia|lia|done|done|done|].
  exists k. split; [done|]. split; [done|]. split; [done|]. split.
  - intros n mt now g m s.
    destruct (main_init_tiles w h n p mt now g m k) as ((Hwf & Hone & Hd) & Hgw & Hgh);
      [lia|lia|done|done|].
    fold s in Hwf, Hone, Hd, Hgw, Hgh.
    split; [done|]. split; [done|]. split; [done|].
    split; [rewrite Hd; lia|]. split; [apply NoDup_dirty_cells|].
    split; [rewrite dirty_cells_length, Hd by done; lia|].
    intros s0 s' Hnew Hreach.
    pose proof (MainFacts.new_Ret _ _ _ _ _ _ _ _ _ Hnew)
      as (Hinv0 & _ & _ & _ & _ & _ & Hw0 & Hh0 & _).
    destruct (main_reaches_dims _ _ Hreach) as [-> ->].
    split; [done|]. split; [done|].
    by destruct (MainFacts.reaches_Inv _ _ Hinv0 Hreach) as (d & (_ & Hone' & _) & _).
  - intros n sr g m s.
    destruct (round_budget_init_tiles n w h sr p g m k) as (Ht & Hgw & Hgh);
      [lia|lia|done|done|].
    fold s in Ht, Hgw, Hgh. pose proof Ht as (Hwf & Hone & Hd).
    split; [done|]. split; [done|]. split; [done|].
    split; [rewrite Hd; lia|]. split; [apply NoDup_dirty_cells|].
    split; [rewrite dirty_cells_length, Hd by done; lia|].
    intros s0 s' Hnew Hreach. apply round_budget_new_init in Hnew. fold s in Hnew.
    subst s0. destruct (round_budget_reaches_dims _ _ Hreach) as [-> ->].
    split; [done|]. split; [done|].
    assert (Hinv0 : Cleaning_robot.Inv s) by (by eexists).
    by destruct (Cleaning_robotFacts.rb_reaches_Inv _ _ Hinv0 Hreach) as (d & _ & Hone' & _).
Qed.

Lemma C5_tiles_created_witness :
  ∃ k, int_times_float (10 * 10) (double (7 # 10)) = Ret k ∧ 0 ≤ k ≤ 10 * 10 ∧
  Qfloor (inject_Z (10 * 10) * double (7 # 10)) ≤ k
    ≤ Qceiling (inject_Z (10 * 10) * double (7 # 10)) ∧
  (∀ n mt now g m,
     let s := (Main.init 10 10 n (double (7 # 10)) mt now g m).1 in
     Grid.width (Main.grid s) = 10 ∧ Grid.height (Main.grid s) = 10 ∧
     one_tile_per_cell (Main.grid s) ∧
     Z.of_nat (dirty_count (Main.grid s)) = k ∧
     NoDup (dirty_cells (Main.grid s)) ∧
     Z.of_nat (length (dirty_cells (Main.grid s))) = k ∧
     ∀ s0 s', Main.new 10 10 n (double (7 # 10)) mt now g m = Ret s0 → Main.reaches s0 s' →
              Grid.width (Main.grid s') = 10 ∧ Grid.height (Main.grid s') = 10 ∧
              one_tile_per_cell (Main.grid s')) ∧
  (∀ n sr g m,
     let s := (Cleaning_robot.init n 10 10 sr (double (7 # 10)) g m).1 in
     Grid.width (Cleaning_robot.grid s) = 10 ∧ Grid.height (Cleaning_robot.grid s) = 10 ∧
     one_tile_per_cell (Cleaning_robot.grid s) ∧
     Z.of_nat (dirty_count (Cleaning_robot.grid s)) = k ∧
     NoDup (dirty_cells (Cleaning_robot.grid s)) ∧
     Z.of_nat (length (dirty_cells (Cleaning_robot.grid s))) = k ∧
     ∀ s0 s', Cleaning_robot.new n 10 10 sr (double (7 # 10)) g m = Ret s0 →
              Cleaning_robot.reaches s0 s' →
              Grid.width (Cleaning_robot.grid s') = 10 ∧
              Grid.height (Cleaning_robot.grid s') = 10 ∧
              one_tile_per_cell (Cleaning_robot.grid s')).
Proof.
  refine (C5_tiles_created 10 10 (double (7 # 10)) _ _ _ _ _).
  - lia.
  - lia.
  - by vm_compute.
  - by vm_compute.
  - by vm_compute.
Defined.

(** *** Parameters the constructors accept and reject *)

(** C2 (as stated, refuted): with [robotCount = 0] the constructor returns
    a simulation. *)
Lemma C2_counterexample :
  ¬ (∀ w h p mt now g m, ∃ e, Main.new w h 0 p mt now g m = Raise e).
Proof.
  intros H. destruct (H 5 5 (double (1 # 5)) 60%Q 0%Q demo_global demo_model) as [e He].
  vm_compute in He. discriminate He.
Qed.

(** C2 (amended): the constructors validate nothing.  For every
    [robotCount <= 0], every [width >= 0] and [height >= 0] (0 included)
    with fewer than [2 ^ 53] cells and every [0 <= dirtPercentage <= 1],
    construction returns a running simulation without robots, its grid
    filled with tiles. *)
Theorem C2_no_validation (w h n : Z) (p : Q) :
  0 ≤ w → 0 ≤ h → w * h < 2 ^ 53 → n ≤ 0 → (0 <= p)%Q → (p <= 1)%Q →
  (∀ mt now g m, ∃ s,
     Main.new w h n p mt now g m = Ret s ∧ Main.schedule s = [] ∧
     Main.running s = true ∧ Main.robotCount s = n ∧
     Main.gridWidth s = w ∧ Main.gridHeight s = h ∧ one_tile_per_cell (Main.grid s)) ∧
  (∀ sr g m, ∃ s,
     Cleaning_robot.new n w h sr p g m = Ret s ∧ Cleaning_robot.schedule s = [] ∧
     Cleaning_robot.running s = true ∧ one_tile_per_cell (Cleaning_robot.grid s)).
Proof.
  intros Hw Hh Hcells Hn Hp0 Hp1.
  destruct (dirty_tiles_bounds w h p Hw Hh Hcells Hp0 Hp1) as (k & Hcnt & Hk & _).
  split.
  - intros mt now g m.
    destruct (sample_succeeds (coordinates w h) k g)
      as [dp Hs]; [rewrite length_coordinates; lia|].
    destruct (MainFacts.init_sampled w h n p mt now g m k dp Hcnt Hs)
      as (g1 & Hinit & (_ & Hone & _) & _).
    exists (Main.set_grid g1 (Main.fresh w h n p mt now m k)).
    unfold Main.new. rewrite Hinit, MainFacts.place_robots_none by done. done.
  - intros sr g m.
    destruct (sample_succeeds (coordinates w h) k g)
      as [dp Hs]; [rewrite length_coordinates; lia|].
    destruct (Cleaning_robotFacts.rb_init_sampled n w h sr p g m k dp Hcnt Hs)
      as (g1 & Hinit & (_ & Hone & _) & _).
    exists (Cleaning_robot.set_grid g1 (Cleaning_robot.fresh w h sr m)).
    unfold Cleaning_robot.new.
    rewrite Hinit, Cleaning_robotFacts.rb_place_robots_none by done. done.
Qed.

Lemma C2_no_validation_witness :
  ∃ s, Main.new 5 0 (-1) (double (1 # 5)) 60 0 demo_global demo_model = Ret s ∧
       Main.schedule s = [] ∧
       Main.running s = true ∧ Main.robotCount s = -1 ∧
       Main.gridWidth s = 5 ∧ Main.gridHeight s = 0 ∧ one_tile_per_cell (Main.grid s).
Proof.
  refine (proj1 (C2_no_validation 5 0 (-1) (double (1 # 5)) _ _ _ _ _ _)
                60%Q 0%Q demo_global demo_model).
  - lia.
  - lia.
  - lia.
  - lia.
  - by vm_compute.
  - by vm_compute.
Defined.

(** C9 (as stated, refuted): on a 1 x 1 grid with [dirtPercentage = 2] the
    constructor fails in [random.sample], before any robot is placed. *)
Lemma C9_counterexample :
  ¬ (∀ w h n p mt now g m,
       1 ≤ n → w < 2 ∨ h < 2 → Main.new w h n p mt now g m = Raise (GridIndexError 1 1)).
Proof.
  intros H.
  specialize (H 1 1 1 2%Q 60%Q 0%Q demo_global demo_model ltac:(lia) ltac:(lia)).
  vm_compute in H. discriminate H.
Qed.

Lemma out_of_bounds_1_1 g :
  Grid.width g < 2 ∨ Grid.height g < 2 → Grid.out_of_bounds g (1, 1) = true.
Proof.
  intros H. destruct (Grid.out_of_bounds g (1, 1)) eqn:Hb; [done|].
  apply GridFacts.in_bounds_iff in Hb. simpl in Hb. lia.
Qed.

(** C9 (amended): with [robotCount >= 1] and [width < 2] or [height < 2],
    both constructors fail.  When the sample of dirty coordinates can be
    drawn (as it can for [0 <= dirtPercentage <= 1] and non-negative
    dimensions with fewer than [2 ^ 53] cells) they fail with the
    out-of-bounds error of placing the first robot at (1, 1); otherwise
    they fail before that, in [random.sample], or already in
    [int(width * height * dirtPercentage)] when that overflows.  In
    particular no 1 x 1 grid with a robot can be constructed. *)
Theorem C9_small_grid_not_constructible (w h n : Z) (p : Q) :
  1 ≤ n → w < 2 ∨ h < 2 →
  (∀ k, int_times_float (w * h) p = Ret k →
     0 ≤ k ≤ Z.of_nat (length (coordinates w h)) →
     (∀ mt now g m, Main.new w h n p mt now g m = Raise (GridIndexError 1 1)) ∧
     (∀ sr g m, Cleaning_robot.new n w h sr p g m = Raise (GridIndexError 1 1))) ∧
  (∀ k, int_times_float (w * h) p = Ret k →
     k < 0 ∨ Z.of_nat (length (coordinates w h)) < k →
     (∀ mt now g m, Main.new w h n p mt now g m = Raise SampleValueError) ∧
     (∀ sr g m, Cleaning_robot.new n w h sr p g m = Raise SampleValueError)) ∧
  (∀ e, int_times_float (w * h) p = Raise e →
     e = OverflowError ∧
     (∀ mt now g m, Main.new w h n p mt now g m = Raise OverflowError) ∧
     (∀ sr g m, Cleaning_robot.new n w h sr p g m = Raise OverflowError)) ∧
  (0 ≤ w → 0 ≤ h → w * h < 2 ^ 53 → (0 <= p)%Q → (p <= 1)%Q →
     (∀ mt now g m, Main.new w h n p mt now g m = Raise (GridIndexError 1 1)) ∧
     (∀ sr g m, Cleaning_robot.new n w h sr p g m = Raise (GridIndexError 1 1))).
Proof.
  intros Hn Hsmall.
  assert (Hok : ∀ k, int_times_float (w * h) p = Ret k →
     0 ≤ k ≤ Z.of_nat (length (coordinates w h)) →
     (∀ mt now g m, Main.new w h n p mt now g m = Raise (GridIndexError 1 1)) ∧
     (∀ sr g m, Cleaning_robot.new n w h sr p g m = Raise (GridIndexError 1 1))).
  { intros k Hcnt Hk. split.
    - intros mt now g m.
      destruct (sample_succeeds (coordinates w h) k g Hk) as [dp Hs].
      destruct (MainFacts.init_sampled w h n p mt now g m k dp Hcnt Hs)
        as (g1 & Hinit & _ & Hw1 & Hh1 & _).
      unfold Main.new. rewrite Hinit.
      pose proof (MainFacts.place_robots_out_of_bounds
                    (Main.set_grid g1 (Main.fresh w h n p mt now m k)) Hn) as Hraise.
      destruct (Main.place_robots _) as [s' o]. simpl in Hraise.
      rewrite Hraise; [done|]. apply out_of_bounds_1_1. by rewrite Hw1, Hh1.
    - intros sr g m.
      destruct (sample_succeeds (coordinates w h) k g Hk) as [dp Hs].
      destruct (Cleaning_robotFacts.rb_init_sampled n w h sr p g m k dp Hcnt Hs)
        as (g1 & Hinit & _ & Hw1 & Hh1 & _).
      unfold Cleaning_robot.new. rewrite Hinit.
      pose proof (Cleaning_robotFacts.rb_place_robots_out_of_bounds n
                    (Cleaning_robot.set_grid g1 (Cleaning_robot.fresh w h sr m)) Hn) as Hraise.
      destruct (Cleaning_robot.place_robots _ _) as [s' o]. simpl in Hraise.
      rewrite Hraise; [done|]. apply out_of_bounds_1_1. by rewrite Hw1, Hh1. }
  split; [done|]. split; [|split].
  - intros k Hcnt Hk. split.
    + intros mt now g m. unfold Main.new.
      by rewrite (MainFacts.init_sample_raises w h n p mt now g m k SampleValueError Hcnt)
        by (by apply sample_fails).
    + intros sr g m. unfold Cleaning_robot.new.
      by rewrite (Cleaning_robotFacts.rb_init_sample_raises n w h sr p g m k
                    SampleValueError Hcnt)
        by (by apply sample_fails).
  - intros e He.
    assert (e = OverflowError) as ->.
    { revert He. unfold int_times_float, float_of_int, int_of_float, float_mul.
      repeat case_match; congruence. }
    split; [done|]. split.
    + intros mt now g m. unfold Main.new.
      by rewrite (MainFacts.init_overflow w h n p mt now g m OverflowError He).
    + intros sr g m. unfold Cleaning_robot.new.
      by rewrite (Cleaning_robotFacts.rb_init_overflow n w h sr p g m OverflowError He).
  - intros Hw Hh Hcells Hp0 Hp1.
    destruct (dirty_tiles_bounds w h p Hw Hh Hcells Hp0 Hp1) as (k & Hcnt & Hk & _).
    apply (Hok k Hcnt). rewrite length_coordinates. lia.
Qed.

Lemma C9_small_grid_not_constructible_witness :
  (∀ mt now g m, Main.new 1 1 1 (double (1 # 5)) mt now g m = Raise (GridIndexError 1 1)) ∧
  (∀ sr g m, Cleaning_robot.new 1 1 1 sr (double (1 # 5)) g m = Raise (GridIndexError 1 1)).
Proof.
  refine (proj2 (proj2 (proj2 (C9_small_grid_not_constructible 1 1 1 (double (1 # 5)) _ _)))
                _ _ _ _ _).
  - lia.
  - lia.
  - lia.
  - lia.
  - lia.
  - by vm_compute.
  - by vm_compute.
Defined.

(** *** An empty neighbourhood *)

Lemma neighbourhood_1x1 g :
  Grid.width g = 1 → Grid.height g = 1 → Grid.get_neighborhood g (0, 0) = [].
Proof.
  intros Hw Hh. unfold Grid.get_neighborhood, Grid.out_of_bounds. rewrite Hw, Hh.
  reflexivity.
Qed.

(** In [main.py] a robot without neighbouring cell stays where it is and
    nothing changes: [randomMove] tests [if validCells]. *)
Lemma main_randomMove_empty_neighbourhood s i r p :
  Main.schedule s !! i = Some r → Main.pos r = Some p →
  Grid.get_neighborhood (Main.grid s) p = [] →
  Main.randomMove i s = (s, Ret tt).
Proof.
  intros Hr Hp Hn. unfold Main.randomMove, Main.robot_pos, Main.robot, bind, ret, get.
  rewrite Hr, Hp, Hn. reflexivity.
Qed.


(** ** Further properties of the code *)

(** *** Cells, neighbourhoods and draws *)

Lemma cell_set_cell g p c q :
  Grid.wf g → Grid.out_of_bounds g p = false →
  Grid.cell (Grid.set_cell g p c) q = if decide (p = q) then Some c else Grid.cell g q.
Proof.
  intros Hwf Hb. destruct (decide (p = q)) as [<-|Hne].
  - by apply GridFacts.cell_set_cell_eq.
  - by apply GridFacts.cell_set_cell_ne.
Qed.

Lemma remove_first_is_Some e c : e ∈ c → is_Some (Grid.remove_first e c).
Proof.
  induction c as [|e' c IH]; intros Hin; [by apply elem_of_nil in Hin|].
  simpl. destruct (decide (e = e')); [by eexists|].
  apply elem_of_cons in Hin as [?|Hin]; [done|].
  destruct (IH Hin) as [c' ->]. by eexists.
Qed.

Lemma remove_first_keeps e e' c c' :
  Grid.remove_first e c = Some c' → e' ≠ e → e' ∈ c → e' ∈ c'.
Proof.
  revert c'. induction c as [|x c IH]; intros c' H Hne Hin; simpl in H; [done|].
  destruct (decide (e = x)) as [<-|Hx].
  - injection H as <-. apply elem_of_cons in Hin as [?|?]; done.
  - destruct (Grid.remove_first e c) as [c''|]; [|done]. injection H as <-.
    apply elem_of_cons in Hin as [->|Hin]; [left|right; by apply IH].
Qed.

Lemma clean_first_robots c c' j :
  clean_first c = Some c' → RobotRef j ∈ c → RobotRef j ∈ c'.
Proof.
  intros (l1 & id & l2 & -> & -> & _)%clean_first_Some.
  rewrite !elem_of_app, !elem_of_cons. intros [?|[?|?]]; [by left|done|by right; right].
Qed.

Lemma elem_of_neighborhood g p q :
  q ∈ Grid.get_neighborhood g p ↔ Grid.out_of_bounds g q = false ∧ adjacent p q.
Proof.
  unfold Grid.get_neighborhood, adjacent. rewrite list_elem_of_In, filter_In.
  rewrite negb_true_iff. destruct p as [x y], q as [x' y']. simpl. split.
  - intros [H Hb]. split; [done|].
    repeat (destruct H as [H|H]; [injection H as <- <-; split; [intros [=]; lia|lia]|]).
    done.
  - intros [Hb (Hne & Hx & Hy)]. split; [|done].
    assert (Hc : (x' = x - 1 ∨ x' = x ∨ x' = x + 1) ∧ (y' = y - 1 ∨ y' = y ∨ y' = y + 1))
      by lia.
    destruct Hc as [[Hx'|[Hx'|Hx']] [Hy'|[Hy'|Hy']]]; subst x' y'; try done;
      rewrite ?Z.add_0_r; change (x - 1) with (x + -1); change (y - 1) with (y + -1);
      repeat first [left; reflexivity|right].
Qed.

Lemma neighborhood_nonempty g p :
  2 ≤ Grid.width g → 2 ≤ Grid.height g → Grid.out_of_bounds g p = false →
  Grid.get_neighborhood g p ≠ [].
Proof.
  intros Hw Hh Hb. apply GridFacts.in_bounds_iff in Hb.
  assert (∃ q, q ∈ Grid.get_neighborhood g p) as [q Hq].
  { destruct (decide (p.1 + 1 < Grid.width g)).
    - exists (p.1 + 1, p.2). apply elem_of_neighborhood. split.
      + apply GridFacts.in_bounds_iff. simpl. lia.
      + unfold adjacent. simpl. split; [destruct p; intros [=]; lia|lia].
    - exists (p.1 - 1, p.2). apply elem_of_neighborhood. split.
      + apply GridFacts.in_bounds_iff. simpl. lia.
      + unfold adjacent. simpl. split; [destruct p; intros [=]; lia|lia]. }
  intros Hnil. rewrite Hnil in Hq. by apply elem_of_nil in Hq.
Qed.

Lemma choice_Ret {A} (l : list A) r a r' : choice l r = (Ret a, r') → a ∈ l.
Proof.
  unfold choice. destruct (next_draw r) as [d r0].
  destruct (l !! (d mod length l)%nat) eqn:Hl; [|done].
  intros [= <- <-]. by eapply list_elem_of_lookup_2.
Qed.

Lemma choice_nonempty {A} (l : list A) r :
  l ≠ [] → ∃ a r', choice l r = (Ret a, r').
Proof.
  intros Hl. unfold choice. destruct (next_draw r) as [d r0].
  destruct (lookup_lt_is_Some_2 l (d mod length l)%nat) as [a ->]; [|by eexists _, _].
  apply Nat.mod_upper_bound. by destruct l.
Qed.

Lemma move_returns g e from to c :
  Grid.wf g → Grid.cell g from = Some c → e ∈ c → Grid.out_of_bounds g to = false →
  ∃ g', Grid.move g e from to = Ret g'.
Proof.
  intros Hwf Hc He Hto. unfold Grid.move, Grid.remove. rewrite Hto, Hc.
  destruct (remove_first_is_Some e c He) as [c' ->]. unfold Grid.place.
  destruct (GridFacts.wf_cell_is_Some (Grid.set_cell g from c') to) as [c'' ->];
    [by apply GridFacts.wf_set_cell|done|by eexists].
Qed.

(** A move puts the entity into the target cell and keeps every other
    entity in its cell. *)
Lemma move_Ret g e from to g' :
  Grid.wf g → Grid.move g e from to = Ret g' →
  Grid.wf g' ∧
  (∃ c, Grid.cell g' to = Some c ∧ e ∈ c) ∧
  (∀ q c e', e' ≠ e → Grid.cell g q = Some c → e' ∈ c →
             ∃ c', Grid.cell g' q = Some c' ∧ e' ∈ c').
Proof.
  intros Hwf. unfold Grid.move, Grid.remove.
  destruct (Grid.out_of_bounds g to) eqn:Hto; [done|].
  destruct (Grid.cell g from) as [c0|] eqn:Hfrom; [|done].
  destruct (Grid.remove_first e c0) as [c1|] eqn:Hrem; [|done].
  pose proof (GridFacts.cell_Some_in_bounds _ _ _ Hfrom) as Hfb.
  set (g1 := Grid.set_cell g from c1).
  assert (Hwf1 : Grid.wf g1) by (by apply GridFacts.wf_set_cell).
  unfold Grid.place. destruct (Grid.cell g1 to) as [c2|] eqn:Hc2; [|done].
  intros [= <-]. split; [by apply GridFacts.wf_set_cell|]. split.
  - exists (c2 ++ [e]). rewrite cell_set_cell by done. rewrite decide_True by done.
    split; [done|]. apply elem_of_app. right. left.
  - intros q c e' Hne Hq Hin. rewrite cell_set_cell by done.
    assert (H1 : ∃ c', Grid.cell g1 q = Some c' ∧ e' ∈ c').
    { unfold g1. rewrite cell_set_cell by done. destruct (decide (from = q)) as [<-|?].
      - exists c1. split; [done|]. rewrite Hfrom in Hq. injection Hq as <-.
        by eapply remove_first_keeps.
      - by exists c. }
    destruct H1 as (c' & Hc' & Hin'). destruct (decide (to = q)) as [<-|?].
    + exists (c2 ++ [e]). split; [done|]. rewrite Hc2 in Hc'. injection Hc' as <-.
      apply elem_of_app. by left.
    + by exists c'.
Qed.

Lemma filter_all {A} (f : A → bool) (l : list A) :
  (∀ a, a ∈ l → f a = true) → List.filter f l = l.
Proof.
  induction l as [|a l IH]; intros H; simpl; [done|].
  rewrite (H a) by left. rewrite IH; [done|]. intros b Hb. apply H. by right.
Qed.

Lemma main_randomMove_spec s i r p c :
  Grid.wf (Main.grid s) → Main.schedule s !! i = Some r → Main.pos r = Some p →
  Grid.cell (Main.grid s) p = Some c → RobotRef i ∈ c →
  (Grid.get_neighborhood (Main.grid s) p = [] ∧ Main.randomMove i s = (s, Ret tt)) ∨
  (∃ a rng g', a ∈ Grid.get_neighborhood (Main.grid s) p ∧
               Grid.move (Main.grid s) (RobotRef i) p a = Ret g' ∧
               Main.randomMove i s =
               (Main.set_schedule
                  (alter Main.incr_totalMovements i
                     (alter (Main.set_pos (Some a)) i (Main.schedule s)))
                  (Main.set_grid g' (Main.set_random rng s)),
                Ret tt)).
Proof.
  intros Hwf Hr Hp Hc Hin.
  destruct (Grid.get_neighborhood (Main.grid s) p) as [|n0 ns] eqn:Hn.
  { left. split; [done|]. by eapply main_randomMove_empty_neighbourhood. }
  right.
  destruct (choice_nonempty (n0 :: ns) (Main.random s)) as (a & rng & Hch); [done|].
  pose proof (choice_Ret _ _ _ _ Hch) as Ha. rewrite <- Hn in Ha.
  pose proof Ha as [Hab _]%elem_of_neighborhood.
  destruct (move_returns (Main.grid s) (RobotRef i) p a c Hwf Hc Hin Hab) as [g' Hmove].
  exists a, rng, g'. split; [by rewrite Hn in Ha|]. split; [done|].
  unfold Main.randomMove, Main.robot_pos, Main.robot, bind at 1 2, ret.
  rewrite Hr, Hp. unfold bind at 1, get. rewrite !filter_all.
  - rewrite Hn. cbv iota. unfold bind at 1, Main.random_choice.
    unfold Pos in *. rewrite Hch.
    unfold bind, Main.move_agent, Main.robot_pos, Main.robot, Main.update_robot,
      modify, ret, bind.
    cbn [Main.schedule Main.set_random Main.grid]. rewrite Hr, Hp.
    cbn [Main.schedule Main.set_random Main.grid]. rewrite Hmove. reflexivity.
  - intros q [Hq _]%elem_of_neighborhood.
    apply GridFacts.in_bounds_iff in Hq. rewrite !andb_true_iff. lia.
Qed.

(** What the activation of a robot does in a consistent state of [main.py]:
    it returns, and it has cleaned the first dirty tile of its cell, or
    stayed for want of a neighbouring cell, or moved to a neighbouring
    cell. *)
Lemma main_robot_step_spec s i r :
  main_consistent s → Main.schedule s !! i = Some r →
  ∃ p c, Main.pos r = Some p ∧ Grid.cell (Main.grid s) p = Some c ∧ RobotRef i ∈ c ∧
    ((∃ c', clean_first c = Some c' ∧
            Main.robot_step i s =
            (Main.set_cleanCells (Main.cleanCells s + 1)
               (Main.set_schedule (alter Main.incr_cellsCleaned i (Main.schedule s))
                  (Main.set_grid (Grid.set_cell (Main.grid s) p c') s)),
             Ret tt)) ∨
     (clean_first c = None ∧ Grid.get_neighborhood (Main.grid s) p = [] ∧
      Main.robot_step i s = (s, Ret tt)) ∨
     (clean_first c = None ∧
      ∃ a rng g', a ∈ Grid.get_neighborhood (Main.grid s) p ∧
                  Grid.move (Main.grid s) (RobotRef i) p a = Ret g' ∧
                  Main.robot_step i s =
                  (Main.set_schedule
                     (alter Main.incr_totalMovements i
                        (alter (Main.set_pos (Some a)) i (Main.schedule s)))
                     (Main.set_grid g' (Main.set_random rng s)),
                   Ret tt))).
Proof.
  intros [Hwf Hplaced] Hr. destruct (Hplaced i r Hr) as (p & c & Hp & Hc & Hin).
  exists p, c. split; [done|]. split; [done|]. split; [done|].
  destruct (clean_first c) as [c'|] eqn:Hcf.
  { left. exists c'. split; [done|]. by eapply robot_step_cleans. }
  right.
  assert (Hstep : Main.robot_step i s = Main.randomMove i s).
  { unfold Main.robot_step, Main.robot_pos, Main.robot, bind at 1 2 3, ret.
    rewrite Hr, Hp. unfold bind, Grid.get_cell_list_contents. by rewrite Hc, Hcf. }
  rewrite Hstep.
  destruct (main_randomMove_spec s i r p c Hwf Hr Hp Hc Hin) as [[Hn Hm]|Hm].
  - left. done.
  - right. done.
Qed.

(** *** The grid and the scheduler stay consistent ([main.py]) *)

Lemma placed_set_cell g p c c' j q :
  Grid.wf g → Grid.cell g p = Some c →
  (RobotRef j ∈ c → RobotRef j ∈ c') →
  placed g j q → placed (Grid.set_cell g p c') j q.
Proof.
  intros Hwf Hc Hkeep (q' & cq & -> & Hq & Hin).
  pose proof (GridFacts.cell_Some_in_bounds _ _ _ Hc) as Hb.
  exists q'. rewrite cell_set_cell by done. destruct (decide (p = q')) as [<-|?].
  - exists c'. split; [done|]. split; [done|]. apply Hkeep. congruence.
  - by exists cq.
Qed.

Lemma placed_move g i from to g' j q :
  Grid.wf g → Grid.move g (RobotRef i) from to = Ret g' → j ≠ i →
  placed g j q → placed g' j q.
Proof.
  intros Hwf Hmove Hne (q' & cq & -> & Hq & Hin).
  destruct (move_Ret _ _ _ _ _ Hwf Hmove) as (_ & _ & Hkeep).
  destruct (Hkeep q' cq (RobotRef j)) as (c' & Hc' & Hin'); [congruence|done|done|].
  by exists q', c'.
Qed.

Ltac main_fields :=
  cbn [Main.schedule Main.grid Main.cleanCells Main.random Main.set_cleanCells
       Main.set_schedule Main.set_grid Main.set_random fst snd] in *.

Lemma main_robot_step_consistent i s :
  main_consistent s →
  main_consistent (Main.robot_step i s).1 ∧
  length (Main.schedule (Main.robot_step i s).1) = length (Main.schedule s).
Proof.
  intros Hs. destruct (Main.schedule s !! i) as [r|] eqn:Hr.
  - destruct (main_robot_step_spec s i r Hs Hr)
      as (p & c & Hp & Hc & Hin & [(c' & Hcf & ->)|[(_ & _ & ->)|(_ & a & rng & g' & Ha & Hm & ->)]]);
      [|done|]; destruct Hs as [Hwf Hpl]; main_fields; rewrite ?length_alter;
      (split; [|done]).
    + split; [by apply GridFacts.wf_set_cell|]. intros j rj Hj. main_fields.
      rewrite list_lookup_alter in Hj. apply (placed_set_cell _ _ c); [done|done| |].
      * by apply clean_first_robots.
      * destruct (decide (i = j)) as [<-|?].
        -- rewrite Hr in Hj. injection Hj as <-. simpl. by apply Hpl.
        -- by apply Hpl.
    + destruct (move_Ret _ _ _ _ _ Hwf Hm) as (Hwf' & (ca & Hca & Hia) & _).
      split; [done|]. intros j rj Hj. main_fields. rewrite !list_lookup_alter in Hj.
      destruct (decide (i = j)) as [<-|?].
      * rewrite decide_True in Hj by done. rewrite Hr in Hj. simpl in Hj.
        injection Hj as <-. simpl. by exists a, ca.
      * apply (placed_move _ _ _ _ _ _ _ Hwf Hm); [congruence|]. by apply Hpl.
  - unfold Main.robot_step, Main.robot_pos, Main.robot, bind. by rewrite Hr.
Qed.

Lemma for_each_returns {S A} (P : S → Prop) (l : list A) (body : A → M S unit) s :
  (∀ a s', a ∈ l → P s' → (body a s').2 = Ret tt ∧ P (body a s').1) →
  P s → (for_each l body s).2 = Ret tt ∧ P (for_each l body s).1.
Proof.
  revert s. induction l as [|a l IH]; intros s Hbody Hs; simpl; [done|].
  unfold bind. destruct (Hbody a s (list_elem_of_here _ _) Hs) as [Hret Hs'].
  destruct (body a s) as [s' [[]|e]]; simpl in *; [|done].
  apply IH; [|done]. intros b s'' Hb. apply Hbody. by right.
Qed.

Lemma shuffle_subset {A} (l : list A) r a : a ∈ (shuffle l r).1 → a ∈ l.
Proof. apply pick_subset. Qed.

Lemma main_robot_step_returns i s :
  main_consistent s → (i < length (Main.schedule s))%nat →
  (Main.robot_step i s).2 = Ret tt.
Proof.
  intros Hs Hi. destruct (lookup_lt_is_Some_2 _ _ Hi) as [r Hr].
  by destruct (main_robot_step_spec s i r Hs Hr)
    as (p & c & _ & _ & _ & [(c' & _ & ->)|[(_ & _ & ->)|(_ & a & rng & g' & _ & _ & ->)]]).
Qed.

(** A round of a consistent simulation returns and leaves it consistent. *)
Lemma main_schedule_step_returns s :
  main_consistent s →
  (Main.schedule_step s).2 = Ret tt ∧ main_consistent (Main.schedule_step s).1 ∧
  length (Main.schedule (Main.schedule_step s).1) = length (Main.schedule s).
Proof.
  intros Hs.
  pose proof (shuffle_subset (seq 0 (length (Main.schedule s))) (Main.random s)) as Hsub.
  destruct (shuffle (seq 0 (length (Main.schedule s))) (Main.random s)) as [keys rng] eqn:Hsh.
  simpl in Hsub.
  assert (Heq : Main.schedule_step s = for_each keys Main.robot_step (Main.set_random rng s))
    by (unfold Main.schedule_step, bind; by rewrite Hsh).
  rewrite Heq.
  apply (for_each_returns
           (fun s' => main_consistent s' ∧
                      length (Main.schedule s') = length (Main.schedule s))); [|done].
  intros i s' Hi%Hsub%elem_of_seq [Hs' Hlen].
  destruct (main_robot_step_consistent i s' Hs') as [Hc Hl].
  split; [apply main_robot_step_returns; [done|lia]|]. split; [done|congruence].
Qed.

Lemma main_step_consistent now now' s :
  main_consistent s → main_consistent (Main.step now now' s).1.
Proof.
  apply MainFacts.step_preserves; try done.
  intros i s' Hs'. by apply main_robot_step_consistent.
Qed.

Lemma main_place_robots_consistent_aux m k s s' :
  main_consistent s → length (Main.schedule s) = k →
  for_each (map Z.of_nat (seq k m))
    (fun i => bind (modify (fun s0 => Main.set_schedule
                                        (Main.schedule s0 ++ [Main.mkRobot (Z.to_nat i) None 0 0])
                                        s0))
                   (fun _ => Main.place_agent (Z.to_nat i) (1, 1))) s = (s', Ret tt) →
  main_consistent s' ∧ length (Main.schedule s') = (k + m)%nat.
Proof.
  revert k s. induction m as [|m IH]; intros k s Hs Hk Hrun; simpl in Hrun.
  { injection Hrun as <-. split; [done|lia]. }
  unfold bind at 1 in Hrun. unfold bind at 1, modify, Main.place_agent in Hrun.
  rewrite Nat2Z.id in Hrun. main_fields.
  destruct (Grid.place (Main.grid s) (RobotRef k) (1, 1)) as [g1|e] eqn:Hplace; [|done].
  destruct Hs as [Hwf Hpl]. unfold Grid.place in Hplace.
  destruct (Grid.cell (Main.grid s) (1, 1)) as [c|] eqn:Hc; [|done].
  injection Hplace as <-.
  apply IH in Hrun.
  - destruct Hrun as [Hs' Hlen]. split; [done|lia].
  - split; main_fields; [by apply GridFacts.wf_set_cell|].
    intros j rj Hj. rewrite list_lookup_alter in Hj.
    destruct (decide (k = j)) as [<-|Hne].
    + rewrite lookup_app_r, Hk, Nat.sub_diag in Hj by lia. simpl in Hj.
      injection Hj as <-. simpl. exists (1, 1), (c ++ [RobotRef k]).
      split; [done|]. split.
      * apply GridFacts.cell_set_cell_eq; [done|by eapply GridFacts.cell_Some_in_bounds].
      * apply elem_of_app. right. left.
    + assert (Hlt : (j < k)%nat).
      { apply lookup_lt_Some in Hj. rewrite length_app in Hj. simpl in Hj. lia. }
      rewrite lookup_app_l in Hj by lia.
      apply (placed_set_cell _ _ c); [done|done| |by apply Hpl].
      intros Hin. apply elem_of_app. by left.
  - main_fields. rewrite length_alter, length_app. simpl. lia.
Qed.

(** A constructed simulation is consistent. *)
Lemma main_new_consistent w h n p mt now g m s0 :
  Main.new w h n p mt now g m = Ret s0 → main_consistent s0.
Proof.
  intros Hnew. destruct (MainFacts.new_count _ _ _ _ _ _ _ _ _ Hnew) as [k Hcnt].
  unfold Main.new in Hnew.
  destruct (sample (coordinates w h) k g).1 as [dp|e] eqn:Hs.
  - destruct (MainFacts.init_sampled w h n p mt now g m k dp Hcnt Hs)
      as (g1 & Hinit & (Hwf & _) & _).
    rewrite Hinit in Hnew. clear Hinit.
    destruct (Main.place_robots _) as [s' [[]|e]] eqn:Hpr; [|done]. injection Hnew as <-.
    unfold Main.place_robots, bind at 1, get, range in Hpr.
    apply main_place_robots_consistent_aux in Hpr as [Hs' _]; [done| |done].
    split; [done|]. intros j rj Hj. simpl in Hj. by rewrite lookup_nil in Hj.
  - by rewrite (MainFacts.init_sample_raises _ _ _ _ _ _ _ _ _ _ Hcnt Hs) in Hnew.
Qed.

Lemma main_reachable_consistent s : Main.reachable s → main_consistent s.
Proof.
  intros (w & h & n & p & mt & now & g & m & s0 & Hnew & Hr).
  apply main_new_consistent in Hnew.
  induction Hr; [done|]. by apply main_step_consistent.
Qed.

Lemma main_reachable_dims s :
  Main.reachable s →
  Grid.width (Main.grid s) = Main.gridWidth s ∧ Grid.height (Main.grid s) = Main.gridHeight s.
Proof.
  intros (w & h & n & p & mt & now & g & m & s0 & Hnew & Hr).
  destruct (MainFacts.new_Ret _ _ _ _ _ _ _ _ _ Hnew)
    as (_ & _ & _ & _ & Hc0 & _ & Hw & Hh & _).
  destruct (main_reaches_dims _ _ Hr) as [-> ->].
  pose proof (MainFacts.reaches_constants _ _ Hr) as Hc. rewrite Hc0 in Hc.
  unfold Main.constants in Hc. rewrite Hw, Hh. split; congruence.
Qed.

(** X1: at every reachable state of [main.py] each robot of the scheduler
    has a coordinate inside the grid, and the grid cell at that coordinate
    holds the robot. *)
Theorem X1_robots_stay_on_the_grid (s : Main.CleaningSimulation) (i : nat)
    (r : Main.CleaningRobot) :
  Main.reachable s → Main.schedule s !! i = Some r →
  ∃ p c, Main.pos r = Some p ∧
         0 ≤ p.1 < Main.gridWidth s ∧ 0 ≤ p.2 < Main.gridHeight s ∧
         Grid.cell (Main.grid s) p = Some c ∧ RobotRef i ∈ c.
Proof.
  intros Hreach Hr. destruct (main_reachable_consistent s Hreach) as [Hwf Hpl].
  destruct (Hpl i r Hr) as (p & c & Hp & Hc & Hin). exists p, c.
  destruct (main_reachable_dims s Hreach) as [<- <-].
  pose proof (GridFacts.cell_Some_in_bounds _ _ _ Hc) as Hb.
  apply GridFacts.in_bounds_iff in Hb. tauto.
Qed.

Lemma X1_robots_stay_on_the_grid_witness :
  ∃ p c, Main.pos (Main.mkRobot 0 (Some (2, 0)) 0 1) = Some p ∧
         0 ≤ p.1 < Main.gridWidth (Main.step 1 1 demo).1 ∧
         0 ≤ p.2 < Main.gridHeight (Main.step 1 1 demo).1 ∧
         Grid.cell (Main.grid (Main.step 1 1 demo).1) p = Some c ∧ RobotRef 0 ∈ c.
Proof.
  refine (X1_robots_stay_on_the_grid (Main.step 1 1 demo).1 0%nat
            (Main.mkRobot 0 (Some (2, 0)) 0 1) step_demo_reachable _).
  vm_compute. reflexivity.
Defined.

(** X2: a [step] of a reachable state of [main.py] never fails on the grid
    or in a robot.  It prints nothing while the run goes on and prints the
    final statistics once the run is finished ([None] and [Some stats] in
    the embedding; the Python method returns no value); the only exception
    it can raise is the division by zero of [getStatistics], on a finished
    run without any initially dirty cell. *)
Theorem X2_step_raises_only_zero_division (s : Main.CleaningSimulation) (now now' : Q) :
  Main.reachable s →
  (Main.finished now s = false → (Main.step now now' s).2 = Ret None) ∧
  (Main.finished now s = true → Main.initialDirtyCells s ≠ 0 →
     ∃ stats, (Main.step now now' s).2 = Ret (Some stats)) ∧
  (∀ e, (Main.step now now' s).2 = Raise e →
        e = ZeroDivisionError ∧ Main.initialDirtyCells s = 0 ∧ Main.finished now s = true).
Proof.
  intros Hreach. pose proof (main_reachable_consistent s Hreach) as Hs.
  destruct (main_schedule_step_returns s Hs) as (Hret & _).
  assert (Hgo : Main.finished now s = false → (Main.step now now' s).2 = Ret None).
  { intros Hf. unfold Main.step, bind at 1, get. rewrite Hf. unfold bind, modify, ret.
    destruct (Main.schedule_step s) as [s' [[]|e]]; [done|done]. }
  assert (Hstop : Main.finished now s = true →
                  (Main.step now now' s).2 =
                  if Main.initialDirtyCells s =? 0 then Raise ZeroDivisionError
                  else Ret (Some (Main.mkStats
                         ((inject_Z (Main.cleanCells s) / inject_Z (Main.initialDirtyCells s)) * 100)%Q
                         (now' - Main.startTime s)%Q
                         (foldr Z.add 0 (map Main.totalMovements (Main.schedule s)))))).
  { intros Hf. rewrite MainFacts.step_finished by done. unfold Main.getStatistics. simpl.
    by destruct (Main.initialDirtyCells s =? 0). }
  split; [done|]. split.
  - intros Hf Hd. rewrite Hstop by done. rewrite (proj2 (Z.eqb_neq _ _) Hd). by eexists.
  - intros e He. destruct (Main.finished now s) eqn:Hf.
    + rewrite Hstop in He by done.
      destruct (Main.initialDirtyCells s =? 0) eqn:Hd; [|done].
      apply Z.eqb_eq in Hd. by injection He as <-.
    + rewrite Hgo in He by done. done.
Qed.

Lemma X2_step_raises_only_zero_division_witness : (Main.step 1 1 demo).2 = Ret None.
Proof.
  exact (proj1 (X2_step_raises_only_zero_division demo 1 1 demo_reachable) eq_refl).
Defined.

(** X3: the activation of a robot in a reachable state of [main.py] either
    leaves the robot where it is, with its movement counter unchanged, or
    takes it to a Moore neighbour of its cell, inside the grid, and adds one
    to its movement counter and nothing to its cleaning counter. *)
Theorem X3_activation_moves_one_cell (s : Main.CleaningSimulation) (i : nat)
    (r : Main.CleaningRobot) :
  Main.reachable s → Main.schedule s !! i = Some r →
  ∃ r', Main.schedule (Main.robot_step i s).1 !! i = Some r' ∧
    ((Main.pos r' = Main.pos r ∧ Main.totalMovements r' = Main.totalMovements r) ∨
     (∃ p q, Main.pos r = Some p ∧ Main.pos r' = Some q ∧ adjacent p q ∧
             0 ≤ q.1 < Main.gridWidth s ∧ 0 ≤ q.2 < Main.gridHeight s ∧
             Main.totalMovements r' = Main.totalMovements r + 1 ∧
             Main.cellsCleaned r' = Main.cellsCleaned r)).
Proof.
  intros Hreach Hr. pose proof (main_reachable_consistent s Hreach) as Hs.
  destruct (main_reachable_dims s Hreach) as [Hw Hh].
  destruct (main_robot_step_spec s i r Hs Hr)
    as (p & c & Hp & Hc & Hin & [(c' & Hcf & ->)|[(_ & _ & ->)|(_ & a & rng & g' & Ha & Hm & ->)]]);
    main_fields.
  - exists (Main.incr_cellsCleaned r). rewrite list_lookup_alter_eq, Hr. split; [done|].
    by left.
  - exists r. split; [done|]. by left.
  - exists (Main.incr_totalMovements (Main.set_pos (Some a) r)).
    rewrite !list_lookup_alter_eq, Hr. split; [done|]. right. exists p, a.
    apply elem_of_neighborhood in Ha as [Hb Hadj].
    apply GridFacts.in_bounds_iff in Hb. rewrite <- Hw, <- Hh.
    split; [done|]. split; [done|]. split; [done|]. split; [lia|]. split; [lia|]. done.
Qed.

Lemma X3_activation_moves_one_cell_witness :
  ∃ r', Main.schedule (Main.robot_step 0 demo).1 !! 0%nat = Some r' ∧
    ((Main.pos r' = Main.pos (Main.mkRobot 0 (Some (1, 1)) 0 0) ∧
      Main.totalMovements r' = Main.totalMovements (Main.mkRobot 0 (Some (1, 1)) 0 0)) ∨
     (∃ p q, Main.pos (Main.mkRobot 0 (Some (1, 1)) 0 0) = Some p ∧ Main.pos r' = Some q ∧
             adjacent p q ∧
             0 ≤ q.1 < Main.gridWidth demo ∧ 0 ≤ q.2 < Main.gridHeight demo ∧
             Main.totalMovements r' = Main.totalMovements (Main.mkRobot 0 (Some (1, 1)) 0 0) + 1 ∧
             Main.cellsCleaned r' = Main.cellsCleaned (Main.mkRobot 0 (Some (1, 1)) 0 0))).
Proof.
  refine (X3_activation_moves_one_cell demo 0%nat (Main.mkRobot 0 (Some (1, 1)) 0 0)
            demo_reachable _).
  vm_compute. reflexivity.
Defined.

(** *** The counters *)

Lemma sum_alter {A} (f : A → Z) (g : A → A) (l : list A) (i : nat) (a : A) :
  l !! i = Some a →
  foldr Z.add 0 (map f (alter g i l)) = foldr Z.add 0 (map f l) + f (g a) - f a.
Proof.
  revert i. induction l as [|x l IH]; intros [|i] Hi; try done.
  - simpl in *. injection Hi as ->. lia.
  - change (alter g (S i) (x :: l)) with (x :: alter g i l).
    cbn [map foldr]. rewrite (IH i Hi). lia.
Qed.

Lemma main_robot_step_length i s :
  length (Main.schedule (Main.robot_step i s).1) = length (Main.schedule s).
Proof.
  MainFacts.run. repeat (case_match; simpl; simplify_eq); rewrite ?length_alter; done.
Qed.

(** The effect of one activation on the sums of the counters. *)
Lemma main_robot_step_counts s i r :
  main_consistent s → Main.schedule s !! i = Some r →
  total_cleaned (Main.robot_step i s).1 - Main.cleanCells (Main.robot_step i s).1
    = total_cleaned s - Main.cleanCells s ∧
  total_moved s ≤ total_moved (Main.robot_step i s).1 ∧
  (2 ≤ Grid.width (Main.grid s) → 2 ≤ Grid.height (Main.grid s) →
   total_cleaned (Main.robot_step i s).1 + total_moved (Main.robot_step i s).1
     = total_cleaned s + total_moved s + 1).
Proof.
  intros Hs Hr.
  destruct (main_robot_step_spec s i r Hs Hr)
    as (p & c & Hp & Hc & Hin & [(c' & Hcf & ->)|[(_ & Hn & ->)|(_ & a & rng & g' & Ha & Hm & ->)]]);
    unfold total_cleaned, total_moved; main_fields.
  - rewrite !(sum_alter _ _ _ _ _ Hr). simpl. lia.
  - split; [done|]. split; [done|]. intros Hw Hh.
    by destruct (neighborhood_nonempty (Main.grid s) p Hw Hh
                   (GridFacts.cell_Some_in_bounds _ _ _ Hc)).
  - rewrite list_alter_alter_eq. rewrite !(sum_alter _ _ _ _ _ Hr). simpl. lia.
Qed.

Lemma pick_length_all {A} (l : list A) r : length (shuffle l r).1 = length l.
Proof. by apply pick_length. Qed.

(** A round adds one action per robot. *)
Lemma main_schedule_step_counts s :
  main_consistent s →
  total_cleaned (Main.schedule_step s).1 - Main.cleanCells (Main.schedule_step s).1
    = total_cleaned s - Main.cleanCells s ∧
  total_moved s ≤ total_moved (Main.schedule_step s).1 ∧
  (2 ≤ Grid.width (Main.grid s) → 2 ≤ Grid.height (Main.grid s) →
   total_cleaned (Main.schedule_step s).1 + total_moved (Main.schedule_step s).1
     = total_cleaned s + total_moved s + Z.of_nat (length (Main.schedule s))).
Proof.
  intros Hs.
  pose proof (shuffle_subset (seq 0 (length (Main.schedule s))) (Main.random s)) as Hsub.
  pose proof (pick_length_all (seq 0 (length (Main.schedule s))) (Main.random s)) as Hlen.
  destruct (shuffle (seq 0 (length (Main.schedule s))) (Main.random s)) as [keys rng] eqn:Hsh.
  simpl in Hsub, Hlen. rewrite length_seq in Hlen.
  assert (Heq : Main.schedule_step s = for_each keys Main.robot_step (Main.set_random rng s))
    by (unfold Main.schedule_step, bind; by rewrite Hsh).
  rewrite Heq, <- Hlen. clear Heq Hsh Hlen.
  change (main_consistent (Main.set_random rng s)) in Hs.
  change (total_cleaned s) with (total_cleaned (Main.set_random rng s)).
  change (total_moved s) with (total_moved (Main.set_random rng s)).
  change (Main.cleanCells s) with (Main.cleanCells (Main.set_random rng s)).
  change (Main.grid s) with (Main.grid (Main.set_random rng s)).
  assert (Hn : length (Main.schedule (Main.set_random rng s)) = length (Main.schedule s))
    by done.
  revert Hs Hn. generalize (Main.set_random rng s) as s1.
  induction keys as [|i keys IH]; intros s1 Hs Hn.
  { simpl. split; [done|]. split; [done|]. intros _ _. lia. }
  simpl. unfold bind.
  assert (Hi : (i < length (Main.schedule s1))%nat).
  { rewrite Hn. assert (H : i ∈ seq 0 (length (Main.schedule s))) by (apply Hsub; left).
    apply elem_of_seq in H. lia. }
  destruct (lookup_lt_is_Some_2 _ _ Hi) as [r Hr].
  destruct (main_robot_step_counts s1 i r Hs Hr) as (Hd & Hm & Ha).
  destruct (main_robot_step_consistent i s1 Hs) as [Hs' Hl].
  destruct (main_robot_step_dims i s1) as [Hw Hh].
  pose proof (main_robot_step_returns i s1 Hs Hi) as Hret.
  destruct (Main.robot_step i s1) as [s2 [[]|e]]; simpl in *; [|done].
  destruct (IH (fun a Ha' => Hsub a (list_elem_of_further _ _ _ Ha')) s2 Hs')
    as (Hd' & Hm' & Ha'); [congruence|].
  split; [lia|]. split; [lia|]. intros Hw' Hh'.
  rewrite Ha' by lia. rewrite Ha by done. lia.
Qed.

Lemma main_new_roomy w h n p mt now g m s0 :
  Main.new w h n p mt now g m = Ret s0 →
  Main.schedule s0 = [] ∨ (2 ≤ Grid.width (Main.grid s0) ∧ 2 ≤ Grid.height (Main.grid s0)).
Proof.
  intros Hnew.
  destruct (MainFacts.new_Ret _ _ _ _ _ _ _ _ _ Hnew)
    as (_ & _ & _ & _ & _ & _ & Hw & Hh & _).
  destruct (MainFacts.new_count _ _ _ _ _ _ _ _ _ Hnew) as [k Hcnt].
  unfold Main.new in Hnew.
  destruct (sample (coordinates w h) k g).1 as [dp|e] eqn:Hs.
  - destruct (MainFacts.init_sampled w h n p mt now g m k dp Hcnt Hs)
      as (g1 & Hinit & _ & Hw1 & Hh1 & _).
    rewrite Hinit in Hnew. clear Hinit.
    destruct (Z_le_gt_dec n 0) as [Hn|Hn].
    + rewrite MainFacts.place_robots_none in Hnew by done. injection Hnew as <-. by left.
    + right. destruct (Grid.out_of_bounds g1 (1, 1)) eqn:Hb.
      * pose proof (MainFacts.place_robots_out_of_bounds
                      (Main.set_grid g1 (Main.fresh w h n p mt now m k))) as Hraise.
        destruct (Main.place_robots _) as [s' [[]|e]]; [|done].
        simpl in Hraise. discriminate Hraise; [lia|done].
      * apply GridFacts.in_bounds_iff in Hb. simpl in Hb. lia.
  - by rewrite (MainFacts.init_sample_raises _ _ _ _ _ _ _ _ _ _ Hcnt Hs) in Hnew.
Qed.

Lemma main_new_counters w h n p mt now g m s0 :
  Main.new w h n p mt now g m = Ret s0 →
  Forall (fun r => Main.cellsCleaned r = 0 ∧ Main.totalMovements r = 0) (Main.schedule s0).
Proof.
  intros Hnew. apply main_new_init in Hnew. subst s0.
  unfold Main.init. destruct (int_times_float (w * h) p) as [k|e0]; [|by constructor].
  unfold Main.setupEnvironment, bind at 1, get. unfold bind at 1, lift.
  destruct (sample _ _ g).1 as [dp|e]; [|by constructor]. unfold bind at 1.
  pose proof (MainFacts.create_tiles_spec dp (Main.fresh w h n p mt now m k) eq_refl)
    as (g1 & Hrun & _).
  cbn [Main.gridWidth Main.gridHeight Main.fresh Main.initialDirtyCells] in *.
  rewrite Hrun. unfold Main.place_robots, bind at 1, get.
  apply (for_each_inv (fun s' => Forall (fun r => Main.cellsCleaned r = 0 ∧
                                                 Main.totalMovements r = 0)
                                        (Main.schedule s'))); [|by constructor].
  intros i s' _ Hs'. unfold bind, modify, Main.place_agent. main_fields.
  assert (H0 : Forall (fun r => Main.cellsCleaned r = 0 ∧ Main.totalMovements r = 0)
                      (Main.schedule s' ++ [Main.mkRobot (Z.to_nat i) None 0 0])).
  { apply Forall_app. split; [done|]. by repeat constructor. }
  destruct (Grid.place (Main.grid s') (RobotRef (Z.to_nat i)) (1, 1)); main_fields; [|done].
  apply Forall_alter; [done|]. by intros r _ [? ?].
Qed.

Lemma sum_zero {A} (f : A → Z) (l : list A) :
  Forall (fun a => f a = 0) l → foldr Z.add 0 (map f l) = 0.
Proof. induction 1 as [|a l Ha _ IH]; simpl; [done|lia]. Qed.

(** The bookkeeping of [main.py]: the simulation's counter is the sum of
    the robots' counters, the robots' movements never decrease, and the
    robots have together acted once per robot and executed round. *)
Lemma main_step_counts now now' s :
  main_consistent s →
  Main.schedule s = [] ∨ (2 ≤ Grid.width (Main.grid s) ∧ 2 ≤ Grid.height (Main.grid s)) →
  total_cleaned s = Main.cleanCells s →
  total_cleaned s + total_moved s = Z.of_nat (length (Main.schedule s)) * Main.stepsExecuted s →
  total_cleaned (Main.step now now' s).1 = Main.cleanCells (Main.step now now' s).1 ∧
  total_cleaned (Main.step now now' s).1 + total_moved (Main.step now now' s).1
    = Z.of_nat (length (Main.schedule (Main.step now now' s).1))
      * Main.stepsExecuted (Main.step now now' s).1 ∧
  total_moved s ≤ total_moved (Main.step now now' s).1.
Proof.
  intros Hs Hroomy Hc Ha. destruct (Main.finished now s) eqn:Hf.
  { rewrite MainFacts.step_finished by done. simpl. by split; [|split]. }
  rewrite MainFacts.step_unfinished by done.
  destruct (main_schedule_step_returns s Hs) as (Hret & _ & Hlen).
  destruct (main_schedule_step_counts s Hs) as (Hd & Hm & Hact).
  pose proof (MainFacts.schedule_step_preserves
                (fun s' => Main.stepsExecuted s' = Main.stepsExecuted s) s) as Hsteps.
  destruct (Main.schedule_step s) as [s' [[]|e]]; simpl in *; [|done].
  unfold total_cleaned, total_moved in *. main_fields.
  cbn [Main.schedule Main.cleanCells Main.stepsExecuted Main.set_stepsExecuted].
  rewrite Hsteps; [|done| |done].
  2:{ intros i s'' <-. pose proof (MainFacts.robot_step_settings i s'') as Hset.
      unfold Main.settings in Hset. congruence. }
  split; [lia|]. split; [|done]. rewrite Hlen.
  destruct Hroomy as [Hnil|[Hw Hh]].
  - destruct (Main.schedule s') as [|? ?]; [|rewrite Hnil in Hlen; done].
    rewrite Hnil. simpl. lia.
  - rewrite Hact by done. lia.
Qed.

Lemma main_reachable_counts s :
  Main.reachable s →
  total_cleaned s = Main.cleanCells s ∧
  total_cleaned s + total_moved s = Z.of_nat (length (Main.schedule s)) * Main.stepsExecuted s.
Proof.
  intros (w & h & n & p & mt & now & g & m & s0 & Hnew & Hr).
  pose proof (main_new_consistent _ _ _ _ _ _ _ _ _ Hnew) as Hs0.
  pose proof (main_new_roomy _ _ _ _ _ _ _ _ _ Hnew) as Hroomy0.
  pose proof (main_new_counters _ _ _ _ _ _ _ _ _ Hnew) as Hzero.
  destruct (MainFacts.new_Ret _ _ _ _ _ _ _ _ _ Hnew) as (_ & Hc0 & _ & Hst0 & _).
  assert (H0 : total_cleaned s0 = Main.cleanCells s0 ∧
               total_cleaned s0 + total_moved s0
                 = Z.of_nat (length (Main.schedule s0)) * Main.stepsExecuted s0).
  { unfold total_cleaned, total_moved. rewrite !sum_zero, Hc0, Hst0; [lia| |].
    - eapply Forall_impl; [done|]. by intros r [? ?].
    - eapply Forall_impl; [done|]. by intros r [? ?]. }
  clear Hnew Hzero Hc0 Hst0.
  assert (main_consistent s ∧
          (Main.schedule s = [] ∨
           (2 ≤ Grid.width (Main.grid s) ∧ 2 ≤ Grid.height (Main.grid s))) ∧
          total_cleaned s = Main.cleanCells s ∧
          total_cleaned s + total_moved s
            = Z.of_nat (length (Main.schedule s)) * Main.stepsExecuted s) as (_ & _ & H);
    [|done].
  induction Hr as [|s now' now'' Hr IH]; [by destruct H0|].
  destruct IH as (Hs & Hroomy & Hc & Ha).
  destruct (main_step_counts now' now'' s Hs Hroomy Hc Ha) as (Hc' & Ha' & _).
  split; [by apply main_step_consistent|]. split; [|done].
  destruct (main_reaches_dims s (Main.step now' now'' s).1) as [-> ->];
    [apply Main.reaches_step, Main.reaches_refl|].
  destruct Hroomy as [Hnil|?]; [left|by right].
  assert (Hlen : length (Main.schedule (Main.step now' now'' s).1) = length (Main.schedule s)).
  { apply (MainFacts.step_preserves
             (fun s' => length (Main.schedule s') = length (Main.schedule s))); try done.
    intros i s' <-. apply main_robot_step_length. }
  rewrite Hnil in Hlen. by destruct (Main.schedule (Main.step now' now'' s).1).
Qed.

Lemma main_reachable_robots s :
  Main.reachable s → length (Main.schedule s) = Z.to_nat (Main.robotCount s).
Proof.
  intros (w & h & n & p & mt & now & g & m & s0 & Hnew & Hr).
  assert (H0 : length (Main.schedule s0) = Z.to_nat n).
  { destruct (MainFacts.new_count _ _ _ _ _ _ _ _ _ Hnew) as [k Hcnt].
    unfold Main.new in Hnew.
    destruct (sample (coordinates w h) k g).1 as [dp|e] eqn:Hs.
    - destruct (MainFacts.init_sampled w h n p mt now g m k dp Hcnt Hs)
        as (g1 & Hinit & (Hwf & _) & _).
      rewrite Hinit in Hnew. clear Hinit.
      destruct (Main.place_robots _) as [s' [[]|e]] eqn:Hpr; [|done]. injection Hnew as <-.
      unfold Main.place_robots, bind at 1, get, range in Hpr.
      apply main_place_robots_consistent_aux in Hpr as [_ Hlen]; [done| |done].
      split; [done|]. intros j rj Hj. simpl in Hj. by rewrite lookup_nil in Hj.
    - by rewrite (MainFacts.init_sample_raises _ _ _ _ _ _ _ _ _ _ Hcnt Hs) in Hnew. }
  destruct (MainFacts.new_Ret _ _ _ _ _ _ _ _ _ Hnew) as (_ & _ & _ & _ & Hc0 & _).
  pose proof (MainFacts.reaches_constants _ _ Hr) as Hc. rewrite Hc0 in Hc.
  unfold Main.constants in Hc.
  assert (Hn : Main.robotCount s = n) by congruence. rewrite Hn, <- H0.
  clear -Hr. induction Hr as [|s now' now'' _ IH]; [done|]. rewrite <- IH.
  apply (MainFacts.step_preserves
           (fun s' => length (Main.schedule s') = length (Main.schedule s))); try done.
  intros i s' <-. apply main_robot_step_length.
Qed.

(** X4: at every reachable state of [main.py] the simulation's counter of
    cleaned cells is the sum of the robots' own counters. *)
Theorem X4_cleanCells_is_the_sum_of_the_robots (s : Main.CleaningSimulation) :
  Main.reachable s →
  Main.cleanCells s = foldr Z.add 0 (map Main.cellsCleaned (Main.schedule s)).
Proof. intros Hr. by destruct (main_reachable_counts s Hr) as [<- _]. Qed.

Lemma X4_cleanCells_is_the_sum_of_the_robots_witness :
  Main.cleanCells (Main.step 1 1 demo).1
  = foldr Z.add 0 (map Main.cellsCleaned (Main.schedule (Main.step 1 1 demo).1)).
Proof.
  exact (X4_cleanCells_is_the_sum_of_the_robots (Main.step 1 1 demo).1 step_demo_reachable).
Defined.

(** X5: at every reachable state of [main.py] the scheduler holds
    [robotCount] robots (none for a negative count), and the cells they
    cleaned plus the moves they made number [stepsExecuted] per robot: in
    every executed round every robot either cleans or moves. *)
Theorem X5_one_action_per_robot_and_round (s : Main.CleaningSimulation) :
  Main.reachable s →
  length (Main.schedule s) = Z.to_nat (Main.robotCount s) ∧
  foldr Z.add 0 (map Main.cellsCleaned (Main.schedule s))
  + foldr Z.add 0 (map Main.totalMovements (Main.schedule s))
  = Z.of_nat (length (Main.schedule s)) * Main.stepsExecuted s.
Proof.
  intros Hr. split; [by apply main_reachable_robots|].
  by destruct (main_reachable_counts s Hr) as [_ H].
Qed.

Lemma X5_one_action_per_robot_and_round_witness :
  length (Main.schedule (Main.step 1 1 demo).1)
    = Z.to_nat (Main.robotCount (Main.step 1 1 demo).1) ∧
  foldr Z.add 0 (map Main.cellsCleaned (Main.schedule (Main.step 1 1 demo).1))
  + foldr Z.add 0 (map Main.totalMovements (Main.schedule (Main.step 1 1 demo).1))
  = Z.of_nat (length (Main.schedule (Main.step 1 1 demo).1))
    * Main.stepsExecuted (Main.step 1 1 demo).1.
Proof.
  exact (X5_one_action_per_robot_and_round (Main.step 1 1 demo).1 step_demo_reachable).
Defined.

(** *** The parameters the visualization offers *)

Lemma slider_dirt_bounds w h p :
  5 ≤ w ≤ 20 → 5 ≤ h ≤ 20 → (double (1 # 10) <= p)%Q → (p <= double (9 # 10))%Q →
  ∃ k, int_times_float (w * h) p = Ret k ∧ 2 ≤ k ≤ w * h.
Proof.
  intros Hw Hh Hp0 Hp1.
  assert (H1 : (1 # 10 <= double (1 # 10))%Q) by (by vm_compute).
  assert (H9 : (double (9 # 10) <= 1)%Q) by (by vm_compute).
  assert (Hp0' : (1 # 10 <= p)%Q) by (by apply Qle_trans with (double (1 # 10))).
  assert (Hp1' : (p <= 1)%Q) by (by apply Qle_trans with (double (9 # 10))).
  clear Hp0 Hp1 H1 H9.
  destruct (dirty_tiles_bounds w h p) as (k & Hcnt & Hk & Hfloor & _);
    [lia|lia|apply Z.le_lt_trans with 400; [nia|done]|lra|done|].
  exists k. split; [done|]. split; [|lia].
  etransitivity; [|exact Hfloor].
  change 2 with (Qfloor (5 # 2)). apply Qfloor_resp_le.
  assert (H25 : (25 <= inject_Z (w * h))%Q).
  { change 25%Q with (inject_Z 25). rewrite <- Zle_Qle. nia. }
  apply Qle_trans with (25 * p)%Q; [lra|].
  apply Qmult_le_compat_r; [done|lra].
Qed.

(** X6: with parameters selected on the sliders of the visualization the
    constructor of [main.py] returns, at least two cells are dirty, and at
    every later state [step] returns and [getStatistics] reports a
    percentage between 0 and 100, whatever the clock and the random draws:
    neither the division by zero nor an error of the grid can occur. *)
Theorem X6_slider_parameters_are_safe (w h n : Z) (p mt now : Q) (g m : Rng) :
  selectable (param_width modelParams) (inject_Z w) →
  selectable (param_height modelParams) (inject_Z h) →
  selectable (param_robotCount modelParams) (inject_Z n) →
  selectable (param_dirtPercentage modelParams) p →
  selectable (param_maxTime modelParams) mt →
  ∃ s0, Main.new w h n p mt now g m = Ret s0 ∧
        2 ≤ Main.initialDirtyCells s0 ∧
        ∀ s t t', Main.reaches s0 s →
          (∃ o, (Main.step t t' s).2 = Ret o) ∧
          (∃ stats, Main.getStatistics t s = (s, Ret stats) ∧
                    (0 <= Main.PorcentajeCompletado stats)%Q ∧
                    (Main.PorcentajeCompletado stats <= 100)%Q).
Proof.
  unfold selectable. cbn [modelParams param_width param_height param_robotCount
    param_dirtPercentage param_maxTime min_value max_value].
  intros [Hw' Hw''] [Hh' Hh''] [Hn' _] [Hp0 Hp1] _.
  assert (Hw : 5 ≤ w ≤ 20) by (unfold Qle in Hw', Hw''; simpl in Hw', Hw''; lia).
  assert (Hh : 5 ≤ h ≤ 20) by (unfold Qle in Hh', Hh''; simpl in Hh', Hh''; lia).
  assert (Hn : 1 ≤ n) by (unfold Qle in Hn'; simpl in Hn'; lia).
  destruct (slider_dirt_bounds w h p Hw Hh Hp0 Hp1) as (k & Hcnt & Hk2 & Hk).
  clear Hp0 Hp1.
  destruct (new_returns w h n p mt now g m k) as [s0 Hnew]; [lia|lia|done|lia|].
  exists s0. split; [done|].
  destruct (MainFacts.new_Ret _ _ _ _ _ _ _ _ _ Hnew)
    as (Hinv0 & _ & _ & _ & Hc0 & _ & _ & _ & Hcnt0).
  assert (Hi0 : Main.initialDirtyCells s0 = k) by congruence.
  split; [lia|]. intros s t t' Hr.
  assert (Hreach : Main.reachable s) by (by exists w, h, n, p, mt, now, g, m, s0).
  pose proof (MainFacts.reaches_constants _ _ Hr) as Hc. unfold Main.constants in Hc.
  assert (Hi : Main.initialDirtyCells s = Main.initialDirtyCells s0) by congruence.
  destruct (MainFacts.reaches_Inv _ _ Hinv0 Hr) as (d & _ & Hd & Hc1).
  split.
  - destruct (Main.finished t s) eqn:Hf.
    + destruct (getStatistics_percentage t' s) as (stats & Hstats & _); [lia|].
      rewrite MainFacts.step_finished, Hstats by done. by eexists.
    + unfold Main.step, bind at 1, get. rewrite Hf. unfold bind, modify, ret.
      destruct (main_schedule_step_returns s (main_reachable_consistent s Hreach)) as (Hret & _).
      destruct (Main.schedule_step s) as [s' [[]|e]]; [by eexists|done].
  - destruct (getStatistics_percentage t s) as (stats & Hstats & Hp); [lia|].
    exists stats. split; [done|]. split.
    + rewrite Hp. apply Qle_shift_div_l.
      * change 0%Q with (inject_Z 0). rewrite <- Zlt_Qlt. lia.
      * rewrite Qmult_0_l. apply Qmult_le_0_compat; [done|].
        change 0%Q with (inject_Z 0). rewrite <- Zle_Qle. lia.
    + unfold Main.getStatistics in Hstats.
      destruct (Main.initialDirtyCells s =? 0); [done|]. injection Hstats as <-. simpl.
      apply percentage_le_100; lia.
Qed.

Lemma X6_slider_parameters_are_safe_witness :
  ∃ s0, Main.new 10 10 1 (double (3 # 10)) 60 0 demo_global demo_model = Ret s0 ∧
        2 ≤ Main.initialDirtyCells s0 ∧
        ∀ s t t', Main.reaches s0 s →
          (∃ o, (Main.step t t' s).2 = Ret o) ∧
          (∃ stats, Main.getStatistics t s = (s, Ret stats) ∧
                    (0 <= Main.PorcentajeCompletado stats)%Q ∧
                    (Main.PorcentajeCompletado stats <= 100)%Q).
Proof.
  refine (X6_slider_parameters_are_safe 10 10 1 (double (3 # 10)) 60 0 demo_global demo_model
            _ _ _ _ _); split; by vm_compute.
Defined.

(** *** Tiles only get cleaner *)

Lemma remove_first_subset e e' c c' :
  Grid.remove_first e c = Some c' → e' ∈ c' → e' ∈ c.
Proof.
  revert c'. induction c as [|x c IH]; intros c' H Hin; simpl in H; [done|].
  destruct (decide (e = x)) as [<-|Hx].
  - injection H as <-. by right.
  - destruct (Grid.remove_first e c) as [c''|]; [|done]. injection H as <-.
    apply elem_of_cons in Hin as [->|Hin]; [left|right; by eapply IH].
Qed.

Lemma clean_first_dirty_before c c' id :
  clean_first c = Some c' → GridTile id 1 ∈ c' → GridTile id 1 ∈ c.
Proof.
  intros (l1 & id' & l2 & -> & -> & _)%clean_first_Some.
  rewrite !elem_of_app, !elem_of_cons. intros [?|[?|?]]; [by left|done|by right; right].
Qed.

(** What a cell holds after a move it held before, the moved entity apart. *)
Lemma move_Ret_before g e from to g' q c' e' :
  Grid.wf g → Grid.move g e from to = Ret g' →
  Grid.cell g' q = Some c' → e' ∈ c' → e' ≠ e →
  ∃ c, Grid.cell g q = Some c ∧ e' ∈ c.
Proof.
  intros Hwf. unfold Grid.move, Grid.remove.
  destruct (Grid.out_of_bounds g to) eqn:Hto; [done|].
  destruct (Grid.cell g from) as [c0|] eqn:Hfrom; [|done].
  destruct (Grid.remove_first e c0) as [c1|] eqn:Hrem; [|done].
  pose proof (GridFacts.cell_Some_in_bounds _ _ _ Hfrom) as Hfb.
  set (g1 := Grid.set_cell g from c1).
  assert (Hwf1 : Grid.wf g1) by (by apply GridFacts.wf_set_cell).
  unfold Grid.place. destruct (Grid.cell g1 to) as [c2|] eqn:Hc2; [|done].
  intros [= <-] Hq Hin Hne. rewrite cell_set_cell in Hq by done.
  assert (H1 : ∀ c1', Grid.cell g1 q = Some c1' → e' ∈ c1' →
                      ∃ c, Grid.cell g q = Some c ∧ e' ∈ c).
  { intros c1' Hc1' Hin1. unfold g1 in Hc1'. rewrite cell_set_cell in Hc1' by done.
    destruct (decide (from = q)) as [<-|?].
    - injection Hc1' as <-. exists c0. split; [done|]. by eapply remove_first_subset.
    - by exists c1'. }
  destruct (decide (to = q)) as [<-|?].
  - injection Hq as <-. apply elem_of_app in Hin as [Hin|Hin]; [by eapply H1|].
    apply list_elem_of_singleton in Hin. done.
  - by eapply H1.
Qed.

Lemma main_robot_step_dirty_before i s q :
  main_consistent s →
  dirty_at (Main.grid (Main.robot_step i s).1) q → dirty_at (Main.grid s) q.
Proof.
  intros Hs. destruct (Main.schedule s !! i) as [r|] eqn:Hr.
  - destruct (main_robot_step_spec s i r Hs Hr)
      as (p & c & Hp & Hc & Hin & [(c' & Hcf & ->)|[(_ & _ & ->)|(_ & a & rng & g' & Ha & Hm & ->)]]);
      [|done|]; destruct Hs as [Hwf Hpl]; main_fields; intros (cq & id & Hq & Hid).
    + pose proof (GridFacts.cell_Some_in_bounds _ _ _ Hc) as Hb.
      rewrite cell_set_cell in Hq by done. destruct (decide (p = q)) as [<-|?].
      * injection Hq as <-. exists c, id. split; [done|].
        by eapply clean_first_dirty_before.
      * by exists cq, id.
    + destruct (move_Ret_before _ _ _ _ _ _ _ _ Hwf Hm Hq Hid) as (c0 & Hc0 & Hin0); [done|].
      by exists c0, id.
  - unfold Main.robot_step, Main.robot_pos, Main.robot, bind. by rewrite Hr.
Qed.

(** X7: in [main.py] a tile that is not dirty never becomes dirty: a
    coordinate that holds a dirty tile at some state reached from a
    reachable state held a dirty tile in that state already. *)
Theorem X7_tiles_never_get_dirty (s0 s : Main.CleaningSimulation) (q : Pos) :
  Main.reachable s0 → Main.reaches s0 s →
  dirty_at (Main.grid s) q → dirty_at (Main.grid s0) q.
Proof.
  intros Hreach Hr. pose proof (main_reachable_consistent s0 Hreach) as Hs0.
  assert (main_consistent s ∧ (dirty_at (Main.grid s) q → dirty_at (Main.grid s0) q))
    as [_ H]; [|done].
  induction Hr as [|s now now' Hr IH]; [done|].
  apply (MainFacts.step_preserves
           (fun s' => main_consistent s' ∧
                      (dirty_at (Main.grid s') q → dirty_at (Main.grid s0) q)));
    try done.
  intros i s' [Hs' Hd]. split; [by apply main_robot_step_consistent|].
  intros Hq. by apply Hd, (main_robot_step_dirty_before i).
Qed.

Lemma X7_tiles_never_get_dirty_witness : dirty_at (Main.grid demo) (0, 0).
Proof.
  refine (X7_tiles_never_get_dirty demo (Main.step 1 1 demo).1 (0, 0) demo_reachable
            (Main.reaches_step demo demo 1 1 (Main.reaches_refl demo)) _).
  exists [GridTile (0, 0) 1], (0, 0). split; [vm_compute; reflexivity|left].
Defined.

(** *** [cleaning_robot.py]: consistency, progress and the round budget *)

Ltac rb_fields :=
  cbn [Cleaning_robot.schedule Cleaning_robot.grid Cleaning_robot.random
       Cleaning_robot.running Cleaning_robot.steps_remaining
       Cleaning_robot.set_schedule Cleaning_robot.set_grid Cleaning_robot.set_random
       Cleaning_robot.set_running Cleaning_robot.set_steps_remaining fst snd] in *.

(** What the activation of a robot does in a consistent state of
    [cleaning_robot.py]: it returns, having cleaned the first dirty tile of
    its cell or moved to a neighbouring cell. *)
Lemma rb_robot_step_spec s i r :
  rb_consistent s → Cleaning_robot.schedule s !! i = Some r →
  ∃ p c, Cleaning_robot.pos r = Some p ∧ Grid.cell (Cleaning_robot.grid s) p = Some c ∧
         RobotRef i ∈ c ∧
    ((∃ c', clean_first c = Some c' ∧
            Cleaning_robot.robot_step i s =
            (Cleaning_robot.set_grid (Grid.set_cell (Cleaning_robot.grid s) p c') s, Ret tt)) ∨
     (clean_first c = None ∧
      ∃ a rng g', a ∈ Grid.get_neighborhood (Cleaning_robot.grid s) p ∧
                  Grid.move (Cleaning_robot.grid s) (RobotRef i) p a = Ret g' ∧
                  Cleaning_robot.robot_step i s =
                  (Cleaning_robot.set_schedule
                     (alter (Cleaning_robot.set_pos (Some a)) i (Cleaning_robot.schedule s))
                     (Cleaning_robot.set_grid g' (Cleaning_robot.set_random rng s)),
                   Ret tt))).
Proof.
  intros (Hwf & Hplaced & Hroomy) Hr.
  destruct (Hplaced i r Hr) as (p & c & Hp & Hc & Hin).
  exists p, c. split; [done|]. split; [done|]. split; [done|].
  assert (Hstep : Cleaning_robot.robot_step i s =
                  match clean_first c with
                  | Some c' => (Cleaning_robot.set_grid
                                  (Grid.set_cell (Cleaning_robot.grid s) p c') s, Ret tt)
                  | None => Cleaning_robot.random_move i s
                  end).
  { unfold Cleaning_robot.robot_step, Cleaning_robot.robot_pos, bind at 1.
    rewrite Hr, Hp. unfold bind at 1, Grid.get_cell_list_contents. rewrite Hc.
    by destruct (clean_first c). }
  rewrite Hstep. clear Hstep.
  destruct (clean_first c) as [c'|] eqn:Hcf.
  { left. exists c'. split; [done|]. reflexivity. }
  right. split; [done|].
  destruct Hroomy as [Hnil|[Hw Hh]]; [by rewrite Hnil in Hr|].
  pose proof (neighborhood_nonempty _ p Hw Hh (GridFacts.cell_Some_in_bounds _ _ _ Hc)) as Hne.
  destruct (choice_nonempty (Grid.get_neighborhood (Cleaning_robot.grid s) p)
              (Cleaning_robot.random s) Hne) as (a & rng & Hch).
  pose proof (choice_Ret _ _ _ _ Hch) as Ha.
  pose proof Ha as [Hab _]%elem_of_neighborhood.
  destruct (move_returns (Cleaning_robot.grid s) (RobotRef i) p a c Hwf Hc Hin Hab)
    as [g' Hmove].
  exists a, rng, g'. split; [done|]. split; [done|].
  unfold Cleaning_robot.random_move, Cleaning_robot.robot_pos, bind at 1.
  rewrite Hr, Hp. unfold bind at 1, get. unfold bind at 1, Cleaning_robot.random_choice.
  cbv beta. unfold Pos in *. rewrite Hch.
  unfold Cleaning_robot.move_agent, Cleaning_robot.robot_pos, bind.
  rb_fields. rewrite Hr, Hp. rb_fields. rewrite Hmove. reflexivity.
Qed.

Lemma rb_robot_step_consistent i s :
  rb_consistent s →
  rb_consistent (Cleaning_robot.robot_step i s).1 ∧
  length (Cleaning_robot.schedule (Cleaning_robot.robot_step i s).1)
    = length (Cleaning_robot.schedule s) ∧
  Cleaning_robot.settings (Cleaning_robot.robot_step i s).1 = Cleaning_robot.settings s.
Proof.
  intros Hs. split; [|split; [|apply Cleaning_robotFacts.rb_robot_step_settings]].
  - destruct (Cleaning_robot.schedule s !! i) as [r|] eqn:Hr.
    + destruct (rb_robot_step_spec s i r Hs Hr)
        as (p & c & Hp & Hc & Hin & [(c' & Hcf & ->)|(_ & a & rng & g' & Ha & Hm & ->)]);
        destruct Hs as (Hwf & Hpl & Hroomy); rb_fields.
      * split; [by apply GridFacts.wf_set_cell|]. split; [|done].
        intros j rj Hj. rb_fields.
        apply (placed_set_cell _ _ c); [done|done| |by apply Hpl].
        by apply clean_first_robots.
      * destruct (move_Ret _ _ _ _ _ Hwf Hm) as (Hwf' & (ca & Hca & Hia) & _).
        destruct (move_dims _ _ _ _ _ Hm) as [Hw' Hh'].
        split; [done|]. split.
        -- intros j rj Hj. rb_fields. rewrite list_lookup_alter in Hj.
           destruct (decide (i = j)) as [<-|?].
           ++ rewrite Hr in Hj. simpl in Hj. injection Hj as <-. simpl. by exists a, ca.
           ++ apply (placed_move _ _ _ _ _ _ _ Hwf Hm); [congruence|]. by apply Hpl.
        -- destruct Hroomy as [Hnil|?]; [by rewrite Hnil in Hr|]. right. rb_fields.
           by rewrite Hw', Hh'.
    + unfold Cleaning_robot.robot_step, Cleaning_robot.robot_pos, bind. by rewrite Hr.
  - Cleaning_robotFacts.run.
    repeat (case_match; simpl; simplify_eq); rewrite ?length_alter; done.
Qed.

Lemma rb_robot_step_returns i s :
  rb_consistent s → (i < length (Cleaning_robot.schedule s))%nat →
  (Cleaning_robot.robot_step i s).2 = Ret tt.
Proof.
  intros Hs Hi. destruct (lookup_lt_is_Some_2 _ _ Hi) as [r Hr].
  by destruct (rb_robot_step_spec s i r Hs Hr)
    as (p & c & _ & _ & _ & [(c' & _ & ->)|(_ & a & rng & g' & _ & _ & ->)]).
Qed.

Lemma rb_schedule_step_returns s :
  rb_consistent s →
  (Cleaning_robot.schedule_step s).2 = Ret tt ∧
  rb_consistent (Cleaning_robot.schedule_step s).1 ∧
  Cleaning_robot.settings (Cleaning_robot.schedule_step s).1 = Cleaning_robot.settings s.
Proof.
  intros Hs.
  pose proof (shuffle_subset (seq 0 (length (Cleaning_robot.schedule s)))
                (Cleaning_robot.random s)) as Hsub.
  destruct (shuffle (seq 0 (length (Cleaning_robot.schedule s))) (Cleaning_robot.random s))
    as [keys rng] eqn:Hsh.
  simpl in Hsub.
  assert (Heq : Cleaning_robot.schedule_step s
                = for_each keys Cleaning_robot.robot_step (Cleaning_robot.set_random rng s))
    by (unfold Cleaning_robot.schedule_step, bind; by rewrite Hsh).
  rewrite Heq.
  pose proof (for_each_returns
    (fun s' => rb_consistent s' ∧
               length (Cleaning_robot.schedule s') = length (Cleaning_robot.schedule s) ∧
               Cleaning_robot.settings s' = Cleaning_robot.settings s)
    keys Cleaning_robot.robot_step (Cleaning_robot.set_random rng s)) as H.
  destruct H as (Hret & Hc & _ & Hset); [|done|done].
  intros i s' Hi%Hsub%elem_of_seq (Hs' & Hlen & Hset).
  destruct (rb_robot_step_consistent i s' Hs') as (Hc & Hl & Hset').
  split; [apply rb_robot_step_returns; [done|lia]|]. split; [done|]. split; congruence.
Qed.

Lemma rb_step_returns s :
  rb_consistent s →
  (Cleaning_robot.step s).2 = Ret tt ∧ rb_consistent (Cleaning_robot.step s).1 ∧
  Cleaning_robot.settings (Cleaning_robot.step s).1 =
  if Cleaning_robot.steps_remaining s <=? 0 then (false, Cleaning_robot.steps_remaining s)
  else (Cleaning_robot.running s, Cleaning_robot.steps_remaining s - 1).
Proof.
  intros Hs. destruct (Cleaning_robot.steps_remaining s <=? 0) eqn:Hf.
  - apply Z.leb_le in Hf. by rewrite Cleaning_robotFacts.rb_step_finished.
  - assert (Heq : Cleaning_robot.step s =
                   match Cleaning_robot.schedule_step s with
                   | (s', Ret _) =>
                       (Cleaning_robot.set_steps_remaining
                          (Cleaning_robot.steps_remaining s' - 1) s', Ret tt)
                   | (s', Raise e) => (s', Raise e)
                   end).
    { unfold Cleaning_robot.step, bind, get, modify. rewrite Hf.
      by destruct (Cleaning_robot.schedule_step s) as [s' [[]|e]]. }
    rewrite Heq. clear Heq.
    destruct (rb_schedule_step_returns s Hs) as (Hret & Hc & Hset).
    destruct (Cleaning_robot.schedule_step s) as [s' [[]|e]]; simpl in *; [|done].
    split; [done|]. split; [exact Hc|]. unfold Cleaning_robot.settings in *. rb_fields.
    congruence.
Qed.

Lemma rb_place_robots_aux m k s s' :
  Grid.wf (Cleaning_robot.grid s) →
  (∀ j r, Cleaning_robot.schedule s !! j = Some r →
          placed (Cleaning_robot.grid s) j (Cleaning_robot.pos r)) →
  length (Cleaning_robot.schedule s) = k →
  for_each (map Z.of_nat (seq k m))
    (fun i => bind (modify (fun s0 => Cleaning_robot.set_schedule
                              (Cleaning_robot.schedule s0 ++ [Cleaning_robot.mkRobot (Z.to_nat i) None])
                              s0))
                   (fun _ => Cleaning_robot.place_agent (Z.to_nat i) (1, 1))) s = (s', Ret tt) →
  Grid.wf (Cleaning_robot.grid s') ∧
  (∀ j r, Cleaning_robot.schedule s' !! j = Some r →
          placed (Cleaning_robot.grid s') j (Cleaning_robot.pos r)) ∧
  length (Cleaning_robot.schedule s') = (k + m)%nat ∧
  Cleaning_robot.settings s' = Cleaning_robot.settings s ∧
  Grid.width (Cleaning_robot.grid s') = Grid.width (Cleaning_robot.grid s) ∧
  Grid.height (Cleaning_robot.grid s') = Grid.height (Cleaning_robot.grid s).
Proof.
  revert k s. induction m as [|m IH]; intros k s Hwf Hpl Hk Hrun; simpl in Hrun.
  { injection Hrun as <-. split; [done|]. split; [done|]. split; [lia|]. done. }
  unfold bind at 1 in Hrun. unfold bind at 1, modify, Cleaning_robot.place_agent in Hrun.
  rewrite Nat2Z.id in Hrun. rb_fields.
  destruct (Grid.place (Cleaning_robot.grid s) (RobotRef k) (1, 1)) as [g1|e] eqn:Hplace;
    [|done].
  unfold Grid.place in Hplace.
  destruct (Grid.cell (Cleaning_robot.grid s) (1, 1)) as [c|] eqn:Hc; [|done].
  injection Hplace as <-.
  apply IH in Hrun.
  - destruct Hrun as (Hwf' & Hpl' & Hlen & Hset & Hw & Hh).
    split; [done|]. split; [done|]. split; [lia|]. done.
  - rb_fields. by apply GridFacts.wf_set_cell.
  - rb_fields. intros j rj Hj. rewrite list_lookup_alter in Hj.
    destruct (decide (k = j)) as [<-|Hne].
    + rewrite lookup_app_r, Hk, Nat.sub_diag in Hj by lia. simpl in Hj.
      injection Hj as <-. simpl. exists (1, 1), (c ++ [RobotRef k]).
      split; [done|]. split.
      * apply GridFacts.cell_set_cell_eq; [done|by eapply GridFacts.cell_Some_in_bounds].
      * apply elem_of_app. right. left.
    + assert (Hlt : (j < k)%nat).
      { apply lookup_lt_Some in Hj. rewrite length_app in Hj. simpl in Hj. lia. }
      rewrite lookup_app_l in Hj by lia.
      apply (placed_set_cell _ _ c); [done|done| |by apply Hpl].
      intros Hin. apply elem_of_app. by left.
  - rb_fields. rewrite length_alter, length_app. simpl. lia.
Qed.

(** A constructed simulation of [cleaning_robot.py] is consistent, runs,
    and has the round budget it was given. *)
Lemma rb_new_consistent n w h sr p g m s0 :
  Cleaning_robot.new n w h sr p g m = Ret s0 →
  rb_consistent s0 ∧ Cleaning_robot.settings s0 = (true, sr) ∧
  length (Cleaning_robot.schedule s0) = Z.to_nat n.
Proof.
  intros Hnew. destruct (Cleaning_robotFacts.rb_new_count _ _ _ _ _ _ _ _ Hnew) as [k Hcnt].
  unfold Cleaning_robot.new in Hnew.
  destruct (sample (coordinates w h) k g).1 as [dp|e] eqn:Hs.
  - destruct (Cleaning_robotFacts.rb_init_sampled n w h sr p g m k dp Hcnt Hs)
      as (g1 & Hinit & (Hwf & _) & Hw1 & Hh1 & _).
    rewrite Hinit in Hnew. clear Hinit.
    pose proof (Cleaning_robotFacts.rb_place_robots_out_of_bounds n
                  (Cleaning_robot.set_grid g1 (Cleaning_robot.fresh w h sr m))) as Hraise.
    destruct (Cleaning_robot.place_robots _ _) as [s' [[]|e]] eqn:Hpr; [|done].
    injection Hnew as <-.
    unfold Cleaning_robot.place_robots, range in Hpr.
    apply rb_place_robots_aux in Hpr as (Hwf' & Hpl' & Hlen & Hset & Hw & Hh);
      [|done| |done].
    + split; [|by split]. split; [done|]. split; [done|].
      destruct (Z_le_gt_dec n 0) as [Hn|Hn].
      * left. replace (Z.to_nat n) with 0%nat in Hlen by lia.
        by destruct (Cleaning_robot.schedule s').
      * right. rb_fields. rewrite Hw, Hh.
        destruct (Grid.out_of_bounds g1 (1, 1)) eqn:Hb.
        -- simpl in Hraise. discriminate Hraise; [lia|done].
        -- apply GridFacts.in_bounds_iff in Hb. simpl in Hb. lia.
    + intros j rj Hj. simpl in Hj. by rewrite lookup_nil in Hj.
  - by rewrite (Cleaning_robotFacts.rb_init_sample_raises _ _ _ _ _ _ _ _ _ Hcnt Hs) in Hnew.
Qed.

Lemma rb_reachable_consistent s : rb_reachable s → rb_consistent s.
Proof.
  intros (n & w & h & sr & p & g & m & s0 & Hnew & Hr).
  apply rb_new_consistent in Hnew as [Hs0 _].
  induction Hr; [done|]. by apply rb_step_returns.
Qed.

(** *** An agent without neighbouring cell *)

(** The [random_move] of [cleaning_robot.py] has no test for the empty
    list: on an agent without neighbouring cell it would raise. *)
Lemma rb_random_move_unguarded s i r p :
  Cleaning_robot.schedule s !! i = Some r → Cleaning_robot.pos r = Some p →
  Grid.get_neighborhood (Cleaning_robot.grid s) p = [] →
  Cleaning_robot.random_move i s = (s, Raise ChoiceFromEmpty).
Proof.
  intros Hr Hp Hn.
  unfold Cleaning_robot.random_move, Cleaning_robot.robot_pos, bind, get.
  rewrite Hr, Hp, Hn. unfold Cleaning_robot.random_choice, choice.
  by destruct (next_draw (Cleaning_robot.random s)).
Qed.



(** X8: in [cleaning_robot.py] every simulation the constructor returns can
    be stepped without end: at every reachable state each robot stands on a
    cell of the grid that holds it, and [step] returns.  (The unguarded
    [random.choice] of [random_move] is never reached with an empty list,
    because a grid on which a robot could be placed at (1, 1) has at least
    2 x 2 cells.) *)
Theorem X8_round_budget_step_returns (s : Cleaning_robot.CleaningSimulation) :
  rb_reachable s →
  (Cleaning_robot.step s).2 = Ret tt ∧
  ∀ i r, Cleaning_robot.schedule s !! i = Some r →
         ∃ p c, Cleaning_robot.pos r = Some p ∧
                Grid.out_of_bounds (Cleaning_robot.grid s) p = false ∧
                Grid.get_neighborhood (Cleaning_robot.grid s) p ≠ [] ∧
                Grid.cell (Cleaning_robot.grid s) p = Some c ∧ RobotRef i ∈ c.
Proof.
  intros Hr. pose proof (rb_reachable_consistent s Hr) as Hs.
  split; [by apply rb_step_returns|].
  intros i r Hi. destruct Hs as (Hwf & Hpl & Hroomy).
  destruct (Hpl i r Hi) as (p & c & Hp & Hc & Hin). exists p, c.
  pose proof (GridFacts.cell_Some_in_bounds _ _ _ Hc) as Hb.
  destruct Hroomy as [Hnil|[Hw Hh]]; [by rewrite Hnil in Hi|].
  split; [done|]. split; [done|]. split; [by apply neighborhood_nonempty|done].
Qed.

Lemma demo_server_new :
  Cleaning_robot.new 5 10 10 100 (double (3 # 10)) demo_global demo_model = Ret demo_server.
Proof. vm_compute. reflexivity. Qed.

Lemma demo_server_reachable : rb_reachable (Cleaning_robot.step demo_server).1.
Proof.
  exists 5, 10, 10, 100, (double (3 # 10)), demo_global, demo_model, demo_server.
  split; [apply demo_server_new|]. apply Cleaning_robot.reaches_step, Cleaning_robot.reaches_refl.
Qed.

Lemma X8_round_budget_step_returns_witness :
  (Cleaning_robot.step (Cleaning_robot.step demo_server).1).2 = Ret tt ∧
  ∀ i r, Cleaning_robot.schedule (Cleaning_robot.step demo_server).1 !! i = Some r →
         ∃ p c, Cleaning_robot.pos r = Some p ∧
                Grid.out_of_bounds (Cleaning_robot.grid (Cleaning_robot.step demo_server).1) p
                  = false ∧
                Grid.get_neighborhood (Cleaning_robot.grid (Cleaning_robot.step demo_server).1) p
                  ≠ [] ∧
                Grid.cell (Cleaning_robot.grid (Cleaning_robot.step demo_server).1) p = Some c ∧
                RobotRef i ∈ c.
Proof.
  exact (X8_round_budget_step_returns (Cleaning_robot.step demo_server).1
           demo_server_reachable).
Defined.

Lemma rb_steps_terminated j s :
  Cleaning_robot.steps_remaining s ≤ 0 → Cleaning_robot.running s = false →
  Cleaning_robot.settings (Cleaning_robot.steps j s) = Cleaning_robot.settings s.
Proof.
  revert s. induction j as [|j IH]; intros s Hsr Hrun; simpl; [done|].
  rewrite Cleaning_robotFacts.rb_step_finished by done. simpl.
  rewrite IH; [|done|done]. unfold Cleaning_robot.settings. simpl. by rewrite Hrun.
Qed.

Lemma rb_steps_settings j s :
  rb_consistent s → Cleaning_robot.running s = true →
  (Z.of_nat j ≤ Z.max (Cleaning_robot.steps_remaining s) 0 →
     Cleaning_robot.settings (Cleaning_robot.steps j s)
     = (true, Cleaning_robot.steps_remaining s - Z.of_nat j)) ∧
  (Z.max (Cleaning_robot.steps_remaining s) 0 < Z.of_nat j →
     Cleaning_robot.settings (Cleaning_robot.steps j s)
     = (false, Z.min (Cleaning_robot.steps_remaining s) 0)).
Proof.
  revert s. induction j as [|j IH]; intros s Hs Hrun.
  { simpl. split; [|lia]. intros _. unfold Cleaning_robot.settings.
    rewrite Hrun. f_equal. lia. }
  cbn [Cleaning_robot.steps].
  destruct (rb_step_returns s Hs) as (_ & Hs1 & Hset).
  destruct (Cleaning_robot.steps_remaining s <=? 0) eqn:Hf.
  - apply Z.leb_le in Hf. unfold Cleaning_robot.settings in Hset.
    injection Hset as Hrun1 Hsr1. split; [lia|]. intros _.
    rewrite rb_steps_terminated by (done || lia).
    unfold Cleaning_robot.settings. rewrite Hrun1, Hsr1. f_equal. lia.
  - apply Z.leb_gt in Hf. unfold Cleaning_robot.settings in Hset.
    injection Hset as Hrun1 Hsr1.
    destruct (IH (Cleaning_robot.step s).1 Hs1) as [IH1 IH2]; [congruence|].
    rewrite Hsr1 in IH1, IH2. split.
    + intros Hj. rewrite IH1 by lia. f_equal. lia.
    + intros Hj. rewrite IH2 by lia. f_equal. lia.
Qed.

(** X9: a simulation of [cleaning_robot.py] constructed with the budget
    [steps_remaining] runs exactly that many rounds (none for a negative
    budget): while no more than that many calls of [step] were made the
    simulation is running and the budget is down by one per call; after any
    further call it is stopped, the budget at 0 (or at its negative initial
    value). *)
Theorem X9_round_budget_counts_the_rounds n w h sr p g m s0 (j : nat) :
  Cleaning_robot.new n w h sr p g m = Ret s0 →
  (Z.of_nat j ≤ Z.max sr 0 →
     Cleaning_robot.running (Cleaning_robot.steps j s0) = true ∧
     Cleaning_robot.steps_remaining (Cleaning_robot.steps j s0) = sr - Z.of_nat j) ∧
  (Z.max sr 0 < Z.of_nat j →
     Cleaning_robot.running (Cleaning_robot.steps j s0) = false ∧
     Cleaning_robot.steps_remaining (Cleaning_robot.steps j s0) = Z.min sr 0).
Proof.
  intros Hnew. destruct (rb_new_consistent _ _ _ _ _ _ _ _ Hnew) as (Hs0 & Hset0 & _).
  unfold Cleaning_robot.settings in Hset0. injection Hset0 as Hrun0 Hsr0.
  destruct (rb_steps_settings j s0 Hs0 Hrun0) as [H1 H2]. rewrite Hsr0 in H1, H2.
  unfold Cleaning_robot.settings in H1, H2.
  split; intros Hj; [specialize (H1 Hj)|specialize (H2 Hj)]; by simplify_eq.
Qed.

Lemma X9_round_budget_counts_the_rounds_witness :
  Cleaning_robot.running (Cleaning_robot.steps 2 demo_server) = true ∧
  Cleaning_robot.steps_remaining (Cleaning_robot.steps 2 demo_server) = 100 - Z.of_nat 2.
Proof.
  refine (proj1 (X9_round_budget_counts_the_rounds 5 10 10 100 (double (3 # 10)) demo_global demo_model
                   demo_server 2 demo_server_new) _).
  lia.
Defined.

(** *** The percentage and the dirt left *)

(** X10: at a reachable state of [main.py] with initially dirty cells,
    [getStatistics] returns, and the percentage it reports is 100 exactly
    when no dirty tile is left on the grid. *)
Theorem X10_full_percentage_means_clean_grid (s : Main.CleaningSimulation) (now : Q) :
  Main.reachable s → Main.initialDirtyCells s ≠ 0 →
  ∃ stats, Main.getStatistics now s = (s, Ret stats) ∧
           ((Main.PorcentajeCompletado stats == 100)%Q ↔ dirty_count (Main.grid s) = 0%nat).
Proof.
  intros Hr Hd. destruct (MainFacts.reachable_Inv s Hr) as (n & (_ & _ & Hn) & Hc & H0).
  destruct (getStatistics_percentage now s Hd) as (stats & Hstats & Hp).
  exists stats. split; [done|]. rewrite Hp, Hn.
  assert (Hpos : (0 < inject_Z (Main.initialDirtyCells s))%Q).
  { change 0%Q with (inject_Z 0). rewrite <- Zlt_Qlt. lia. }
  split.
  - intros Heq.
    assert (H : (inject_Z (Main.cleanCells s) == inject_Z (Main.initialDirtyCells s))%Q).
    { apply (Qmult_inj_r _ _ (/ inject_Z (Main.initialDirtyCells s))).
      - intros Hz. apply Qinv_lt_0_compat in Hpos. rewrite Hz in Hpos. by apply Qlt_irrefl in Hpos.
      - rewrite Qmult_inv_r by (intros Hz; rewrite Hz in Hpos; by apply Qlt_irrefl in Hpos).
        apply (Qmult_inj_l _ _ 100); [done|]. rewrite Qmult_1_r, Qmult_assoc. exact Heq. }
    unfold Qeq in H. simpl in H. lia.
  - intros ->. replace (Main.cleanCells s) with (Main.initialDirtyCells s) by lia.
    field. intros Hz. rewrite Hz in Hpos. by apply Qlt_irrefl in Hpos.
Qed.

Lemma X10_full_percentage_means_clean_grid_witness :
  ∃ stats, Main.getStatistics 1 demo = (demo, Ret stats) ∧
           ((Main.PorcentajeCompletado stats == 100)%Q ↔ dirty_count (Main.grid demo) = 0%nat).
Proof.
  refine (X10_full_percentage_means_clean_grid demo 1 demo_reachable _).
  vm_compute. discriminate.
Defined.

(** *** Entities neither vanish nor multiply *)

Lemma entity_count_set_cell g p c c' :
  Grid.wf g → Grid.cell g p = Some c →
  (entity_count (Grid.set_cell g p c') + length c = entity_count g + length c')%nat.
Proof.
  intros Hwf Hc. pose proof (GridFacts.cell_Some_in_bounds _ _ _ Hc) as Hb.
  unfold entity_count. simpl.
  pose proof (sum_list_with_update
                (fun q => length (contents g q))
                (fun q => length (contents (Grid.set_cell g p c') q))
                (coordinates (Grid.width g) (Grid.height g)) p
                (NoDup_coordinates _ _)) as H.
  simpl in H. rewrite GridFacts.contents_set_cell_eq, (contents_cell _ _ _ Hc) in H by done.
  apply H.
  - by apply coordinates_in_bounds.
  - intros q Hq. by rewrite GridFacts.contents_set_cell_ne.
Qed.

Lemma remove_first_length e c c' :
  Grid.remove_first e c = Some c' → length c = S (length c').
Proof.
  revert c'. induction c as [|x c IH]; intros c' H; simpl in H; [done|].
  destruct (decide (e = x)); [by injection H as <-|].
  destruct (Grid.remove_first e c) as [c''|]; [|done]. injection H as <-.
  simpl. by rewrite (IH c'').
Qed.

Lemma clean_first_length c c' : clean_first c = Some c' → length c' = length c.
Proof.
  intros (l1 & id & l2 & -> & -> & _)%clean_first_Some. by rewrite !length_app.
Qed.

Lemma entity_count_move g e from to g' :
  Grid.wf g → Grid.move g e from to = Ret g' → entity_count g' = entity_count g.
Proof.
  intros Hwf. unfold Grid.move, Grid.remove.
  destruct (Grid.out_of_bounds g to) eqn:Hto; [done|].
  destruct (Grid.cell g from) as [c0|] eqn:Hfrom; [|done].
  destruct (Grid.remove_first e c0) as [c1|] eqn:Hrem; [|done].
  set (g1 := Grid.set_cell g from c1).
  assert (Hwf1 : Grid.wf g1) by (by apply GridFacts.wf_set_cell).
  unfold Grid.place. destruct (Grid.cell g1 to) as [c2|] eqn:Hc2; [|done].
  intros [= <-].
  pose proof (entity_count_set_cell g from c0 c1 Hwf Hfrom) as H1.
  pose proof (entity_count_set_cell g1 to c2 (c2 ++ [e]) Hwf1 Hc2) as H2.
  apply remove_first_length in Hrem. rewrite length_app in H2. simpl in H2.
  fold g1 in H1. lia.
Qed.

Lemma main_robot_step_entities i s :
  main_consistent s →
  entity_count (Main.grid (Main.robot_step i s).1) = entity_count (Main.grid s).
Proof.
  intros Hs. destruct (Main.schedule s !! i) as [r|] eqn:Hr.
  - destruct (main_robot_step_spec s i r Hs Hr)
      as (p & c & Hp & Hc & Hin & [(c' & Hcf & ->)|[(_ & _ & ->)|(_ & a & rng & g' & Ha & Hm & ->)]]);
      [|done|]; destruct Hs as [Hwf Hpl]; main_fields.
    + pose proof (entity_count_set_cell _ p c c' Hwf Hc) as H.
      apply clean_first_length in Hcf. lia.
    + by eapply entity_count_move.
  - unfold Main.robot_step, Main.robot_pos, Main.robot, bind. by rewrite Hr.
Qed.

(** X11: a [step] of a reachable state of [main.py] leaves the number of
    entities on the grid as it is: robots move from cell to cell and tiles
    change status, nothing is added, lost or duplicated. *)
Theorem X11_step_conserves_entities (s : Main.CleaningSimulation) (now now' : Q) :
  Main.reachable s →
  entity_count (Main.grid (Main.step now now' s).1) = entity_count (Main.grid s).
Proof.
  intros Hr. pose proof (main_reachable_consistent s Hr) as Hs.
  assert (main_consistent (Main.step now now' s).1 ∧
          entity_count (Main.grid (Main.step now now' s).1) = entity_count (Main.grid s))
    as [_ H]; [|done].
  apply (MainFacts.step_preserves
           (fun s' => main_consistent s' ∧
                      entity_count (Main.grid s') = entity_count (Main.grid s))); try done.
  intros i s' [Hs' <-]. split; [by apply main_robot_step_consistent|].
  by apply main_robot_step_entities.
Qed.

Lemma X11_step_conserves_entities_witness :
  entity_count (Main.grid (Main.step 1 1 demo).1) = entity_count (Main.grid demo).
Proof. exact (X11_step_conserves_entities demo 1 1 demo_reachable). Defined.
